(** * rom-properties: the RomData parsers BRSTM, N64 and PSF, and the
      text and audio functions of TextFuncs, as a shallow embedding.

    Unsigned C integers are [Z] with their wrap-around written out, bytes
    are [ascii] (eight bits each), byte buffers are [list ascii], text
    values are [string].  The host byte order is a parameter [host_be] of
    every definition that reinterprets memory as an integer.  [assert] is
    modelled as in a release build (NDEBUG): it does nothing. *)

From Stdlib Require Import ZArith List String Ascii Lia Bool DecimalString.
From Stdlib Require Import Floats.SpecFloat.
From stdpp Require Import base list strings gmap.

Local Open Scope Z_scope.

(** ** C integer conversions *)
Module CInt.

Definition to_uint8 (z : Z) : Z := z mod 2 ^ 8.
Definition to_uint16 (z : Z) : Z := z mod 2 ^ 16.
Definition to_uint32 (z : Z) : Z := z mod 2 ^ 32.

(** Conversion to [int]: two's complement wrap-around. *)
Definition to_int32 (z : Z) : Z := (z + 2 ^ 31) mod 2 ^ 32 - 2 ^ 31.

Definition EBADF : Z := 9.
Definition EIO : Z := 5.

End CInt.

(** ** Faults: what C leaves undefined and the hardware traps on *)
Inductive fault : Set :=
  | DivideByZero
  | IndeterminateRead.

Inductive outcome (A : Type) : Type :=
  | Ret (a : A)
  | Trap (why : fault).

Arguments Ret {A} a.
Arguments Trap {A} why.

Definition obind {A B : Type} (m : outcome A) (k : A -> outcome B) : outcome B :=
  match m with
  | Ret a => k a
  | Trap w => Trap w
  end.

Notation "'do' x <- m ; k" := (obind m (fun x => k))
  (at level 10, x name, m at level 100, k at level 200).

(** ** Bytes in memory and their reading as integers *)
Module Mem.

Definition u8 (b : ascii) : Z := Z.of_N (N_of_ascii b).
Definition chr (z : Z) : ascii := ascii_of_N (Z.to_N (z mod 256)).

(** Little-endian value of a byte sequence, and the sequence of a value. *)
Fixpoint le_val (l : list ascii) : Z :=
  match l with
  | [] => 0
  | b :: r => u8 b + 256 * le_val r
  end.

Fixpoint le_bytes (n : nat) (z : Z) : list ascii :=
  match n with
  | O => []
  | S n' => chr z :: le_bytes n' (z / 256)
  end.

Definition be_val (l : list ascii) : Z := le_val (rev l).
Definition be_bytes (n : nat) (z : Z) : list ascii := rev (le_bytes n z).

(** The [n] bytes at offset [off] of a buffer. *)
Definition slice (buf : list ascii) (off n : nat) : list ascii :=
  take n (drop off buf).

(** Overwrite [buf] from offset [off] on with [src] (a [memcpy] that stays
    inside [buf]). *)
Definition blit (buf : list ascii) (off : nat) (src : list ascii) : list ascii :=
  take off buf ++ take (length buf - off) src ++ drop (off + length src) buf.

Section Host.
Variable host_be : bool.

Definition host_val (l : list ascii) : Z :=
  if host_be then be_val l else le_val l.
Definition host_bytes (n : nat) (z : Z) : list ascii :=
  if host_be then be_bytes n z else le_bytes n z.

(** [*(uintN_t* )(buf + off)] with N = 8 n. *)
Definition load (buf : list ascii) (off n : nat) : Z :=
  host_val (slice buf off n).
Definition store (buf : list ascii) (off n : nat) (z : Z) : list ascii :=
  blit buf off (host_bytes n z).

(** Modelled from the spec: byteswap.h is not among the sources.  Its
    [__swabNN] reverses the bytes of an NN-bit integer, [cpu_to_beNN] and
    [beNN_to_cpu] convert between the host integer and the integer whose
    bytes in memory are big-endian (likewise [leNN]); they are the
    "pure functions converting 16/32/64-bit integers between
    big/little/host endianness" of the spec. *)
Definition swab (n : nat) (x : Z) : Z := be_val (le_bytes n x).
Definition cpu_to_be (n : nat) (x : Z) : Z := host_val (be_bytes n x).
Definition be_to_cpu (n : nat) (x : Z) : Z := be_val (host_bytes n x).
Definition le_to_cpu (n : nat) (x : Z) : Z := le_val (host_bytes n x).
End Host.

(** Bytes of a text literal. *)
Definition bytes_of (s : string) : list ascii := list_ascii_of_string s.

End Mem.

(** ** IRpFile: the byte source *)
Module RpFile.

(** Modelled from the spec: librpbase/file/IRpFile.hpp is not among the
    sources.  The byte source is "an open, ref-counted file-like byte
    source supporting read, seekAndRead, size, rewind"; reads are short at
    the end of the file and a seek to a negative offset fails, "both
    treated as normal (non-exceptional) failure results".  [nreads] counts
    the read requests issued and [nbytes] the bytes delivered, the
    "byte-read counter" of the spec's idempotence test. *)
Record t : Type := mk {
  data : list ascii;
  pos : Z;
  nreads : nat;
  nbytes : Z
}.

Definition open (bytes : list ascii) : t :=
  {| data := bytes; pos := 0; nreads := 0; nbytes := 0 |}.

Definition size (f : t) : Z := Z.of_nat (length (data f)).

Definition rewind (f : t) : t :=
  {| data := data f; pos := 0; nreads := nreads f; nbytes := nbytes f |}.

Definition read (f : t) (n : Z) : list ascii * t :=
  let got := take (Z.to_nat n) (drop (Z.to_nat (pos f)) (data f)) in
  (got, {| data := data f;
           pos := pos f + Z.of_nat (length got);
           nreads := S (nreads f);
           nbytes := nbytes f + Z.of_nat (length got) |}).

Definition seekAndRead (f : t) (off n : Z) : list ascii * t :=
  if off <? 0
  then ([], {| data := data f; pos := pos f;
               nreads := S (nreads f); nbytes := nbytes f |})
  else read {| data := data f; pos := off;
               nreads := nreads f; nbytes := nbytes f |} n.

End RpFile.

(** ** printf conversions *)
Module Printf.

(** [%u] *)
Definition fmt_u (z : Z) : string :=
  NilZero.string_of_uint (N.to_uint (Z.to_N z)).

Fixpoint zeros (n : nat) : string :=
  match n with
  | O => EmptyString
  | S n' => String "0" (zeros n')
  end.

Definition pad0 (width : nat) (s : string) : string :=
  (zeros (width - String.length s) +:+ s)%string.

(** [%02u] *)
Definition fmt_02u (z : Z) : string := pad0 2 (fmt_u z).

Definition hex_digit (d : Z) : ascii :=
  if d <? 10 then Mem.chr (48 + d) else Mem.chr (55 + d).

Fixpoint hex_go (fuel : nat) (z : Z) (acc : string) : string :=
  match fuel with
  | O => acc
  | S fuel' =>
      let acc' := String (hex_digit (z mod 16)) acc in
      if z / 16 =? 0 then acc' else hex_go fuel' (z / 16) acc'
  end.

(** [%02X] of a value below 2^64 *)
Definition fmt_02X (z : Z) : string := pad0 2 (hex_go 16 z EmptyString).

(** What [snprintf(buf, size, ...)] followed by [string(buf, len)] keeps
    of the formatted text [s]: at most [size - 1] characters. *)
Definition snprintf_keep (size : nat) (s : string) : string :=
  if (size <=? String.length s)%nat then String.substring 0 (size - 1) s else s.

End Printf.

(** ** TextFuncs.cpp: audio functions *)
Module TextFuncs.

(** IEEE 754 binary32, the C type [float]. *)
Definition prec32 : Z := 24.
Definition emax32 : Z := 128.

(** [(float)n] for an unsigned [n]: round to nearest, ties to even. *)
Definition float_of_uint (n : Z) : spec_float :=
  binary_normalize prec32 emax32 n 0 false.
Definition fdiv : spec_float -> spec_float -> spec_float := SFdiv prec32 emax32.
Definition fmul : spec_float -> spec_float -> spec_float := SFmul prec32 emax32.

(** [static_cast<unsigned int>(x)]: truncation toward zero.  C++ leaves
    the conversion undefined when the truncated value is not an
    [unsigned int]; the model wraps it. *)
Definition uint_of_float (x : spec_float) : Z :=
  match x with
  | S754_finite s m e =>
      let mag := if 0 <=? e then Z.pos m * 2 ^ e else Z.pos m / 2 ^ (- e) in
      CInt.to_uint32 (if s then - mag else mag)
  | _ => 0
  end.

(** Format a sample value as m:ss.cs. *)
Definition formatSampleAsTime (sample rate : Z) : string :=
  if rate =? 0 then
    (* Division by zero! Someone goofed. *)
    "#DIV/0!"%string
  else
    let cs_frames := sample mod rate in
    let cs :=
      if negb (cs_frames =? 0)
      then uint_of_float
             (fmul (fdiv (float_of_uint cs_frames) (float_of_uint rate))
                   (float_of_uint 100))
      else 0 in
    let sec := sample / rate in
    let min := sec / 60 in
    let sec := sec mod 60 in
    Printf.snprintf_keep 32
      (Printf.fmt_u min +:+ ":" +:+ Printf.fmt_02u sec +:+ "." +:+ Printf.fmt_02u cs)%string.

(** Unsigned [%] and [/]: a zero divisor is undefined behaviour, a
    hardware trap on the usual targets. *)
Definition umod (a b : Z) : outcome Z :=
  if b =? 0 then Trap DivideByZero else Ret (a mod b).
Definition udiv (a b : Z) : outcome Z :=
  if b =? 0 then Trap DivideByZero else Ret (a / b).

(** Convert a sample value to milliseconds. *)
Definition convSampleToMs (sample rate : Z) : outcome Z :=
  do ms_frames <- umod sample rate;
  let ms :=
    if negb (ms_frames =? 0)
    then uint_of_float
           (fmul (fdiv (float_of_uint ms_frames) (float_of_uint rate))
                 (float_of_uint 1000))
    else 0 in
  do sec <- udiv sample rate;
  Ret (CInt.to_uint32 (sec * 1000 + ms)).

(** *** Text functions

    What a [const char *] or a [const char16_t *] points to is the list of
    the elements that may be read from the pointer on; a read past its end
    is undefined, and the function then has no result ([None]).  A
    [char16_t] is a [Z] below 2^16. *)

Definition CR : ascii := Mem.chr 13.
Definition LF : ascii := Mem.chr 10.
Definition space : ascii := Mem.chr 32.

(** [strlen] *)
Fixpoint strlen (s : list ascii) : option nat :=
  match s with
  | [] => None
  | c :: r => if bool_decide (c = zero) then Some O else S <$> strlen r
  end.

(** char16_t strlen(). *)
Fixpoint u16_strlen (wcs : list Z) : option nat :=
  match wcs with
  | [] => None
  | c :: r => if negb (c =? 0) then S <$> u16_strlen r else Some O
  end.

(** char16_t strnlen(): [while ( *wcs++ && len < maxlen) len++;] *)
Fixpoint u16_strnlen_from (wcs : list Z) (maxlen len : Z) : option Z :=
  match wcs with
  | [] => None
  | c :: r =>
      if negb (c =? 0) && (len <? maxlen)
      then u16_strnlen_from r maxlen (len + 1)
      else Some len
  end.

Definition u16_strnlen (wcs : list Z) (maxlen : Z) : option Z :=
  u16_strnlen_from wcs maxlen 0.

(** char16_t strcmp().  Both characters are read in every round: the
    second one by the loop condition when the first is not NUL, by the
    [return] otherwise. *)
Fixpoint u16_strcmp (wcs1 wcs2 : list Z) : option Z :=
  match wcs1, wcs2 with
  | c1 :: r1, c2 :: r2 =>
      if negb (c1 =? 0) && (c1 =? c2) then u16_strcmp r1 r2
      else Some (c1 - c2)
  | _, _ => None
  end.

(** The loop of [utf16_bswap]: [len] characters are read and swapped. *)
Fixpoint utf16_bswap_loop (len : nat) (str : list Z) (ret : list Z) : option (list Z) :=
  match len with
  | O => Some ret
  | S len' =>
    match str with
    | [] => None
    | c :: r => utf16_bswap_loop len' r (ret ++ [Mem.swab 2 c])
    end
  end.

(** Byteswap and return UTF-16 text; [len] is -1 for a NUL-terminated
    string. *)
Definition utf16_bswap (str : list Z) (len : Z) : option (list Z) :=
  if len =? 0 then Some []
  else if len <? 0 then
    (* NULL-terminated string. *)
    match u16_strlen str with
    | None => None
    | Some n =>
        let len := CInt.to_int32 (Z.of_nat n) in
        if len <=? 0 then Some []
        else utf16_bswap_loop (Z.to_nat len) str []
    end
  else utf16_bswap_loop (Z.to_nat len) str [].

(** Remove trailing spaces from a string: the loop runs [p] from the last
    character down to the first, and [sz] is always one more than the
    index of [p]; the loop ends when [p] is before the first character,
    that is when [sz] is 0. *)
Fixpoint trimEnd_loop (str : list ascii) (sz : nat) : nat :=
  match sz with
  | O => O
  | S p =>
    match str !! p with
    | Some c => if negb (bool_decide (c = space)) then sz else trimEnd_loop str p
    | None => sz
    end
  end.

Definition trimEnd (str : list ascii) : list ascii :=
  take (trimEnd_loop str (length str)) str.

(** The loop of [dos2unix], which runs [len - 1] rounds: what is left of
    the input, the output and the count of line feeds after it.  A round
    that finds a CR LF pair moves [str_dos] by two characters and [len] by
    one. *)
Fixpoint dos2unix_loop (rounds : nat) (str_dos str_unix : list ascii) (lf : Z)
    : option (list ascii * list ascii * Z) :=
  match rounds with
  | O => Some (str_dos, str_unix, lf)
  | S rounds' =>
    match str_dos with
    | [] => None
    | c0 :: p1 =>
      if bool_decide (c0 = CR) then
        match p1 with
        | [] => None
        | c1 :: p2 =>
            if bool_decide (c1 = LF)
            then dos2unix_loop rounds' p2 (str_unix ++ [LF]) (lf + 1)
            else dos2unix_loop rounds' p1 (str_unix ++ [c0]) lf
        end
      else dos2unix_loop rounds' p1 (str_unix ++ [c0]) lf
    end
  end.

(** Convert DOS (CRLF) line endings to UNIX (LF) line endings: the
    converted text and the value stored in [lf_count]; [len] is -1 for a
    NUL-terminated string.  [reserve] of a negative [int] throws, and the
    function then has no result either. *)
Definition dos2unix (str_dos : list ascii) (len : Z) : option (list ascii * Z) :=
  match (if len <? 0
         then (fun n => CInt.to_int32 (Z.of_nat n)) <$> strlen str_dos
         else Some len) with
  | None => None
  | Some len =>
    if len <? 0 then None
    else
      match dos2unix_loop (Z.to_nat (len - 1)) str_dos [] 0 with
      | None => None
      | Some (str_dos, str_unix, lf) =>
        (* Last character cannot be '\r\n'.
           If it's '\r', assume it's a newline. *)
        match str_dos with
        | [] => None
        | c :: _ =>
            if bool_decide (c = CR) then Some (str_unix ++ [LF], lf + 1)
            else Some (str_unix ++ [c], lf)
        end
      end
  end.

Definition CRLF : list ascii := [CR; LF].

(** Lines joined by a separator. *)
Fixpoint join (sep : list ascii) (lines : list (list ascii)) : list ascii :=
  match lines with
  | [] => []
  | [l] => l
  | l :: r => l ++ sep ++ join sep r
  end.

(** *** File sizes *)

(** [(float)n] for an [int64_t], and [static_cast<int>(x)]: truncation
    toward zero, wrapped when the value is not an [int]. *)
Definition float_of_int64 (n : Z) : spec_float :=
  binary_normalize prec32 emax32 n 0 false.

Definition int_of_float (x : spec_float) : Z :=
  match x with
  | S754_finite s m e =>
      let mag := if 0 <=? e then Z.pos m * 2 ^ e else Z.pos m / 2 ^ (- e) in
      CInt.to_int32 (if s then - mag else mag)
  | _ => 0
  end.

Definition calc_frac_part (size mask : Z) : Z :=
  let f := fdiv (float_of_int64 (Z.land size (mask - 1))) (float_of_int64 mask) in
  let frac_part := int_of_float (fmul f (float_of_int64 1000)) in
  let round_adj := if Z.rem frac_part 10 >? 5 then 1 else 0 in
  let frac_part := Z.quot frac_part 10 in
  frac_part + round_adj.

(** [ostream << int] in the classic locale. *)
Definition fmt_d (z : Z) : string :=
  if z <? 0 then ("-" +:+ Printf.fmt_u (- z))%string else Printf.fmt_u z.

Section Locale.
(** The decimal point of the locale, [nl_langinfo(RADIXCHAR)]. *)
Variable decimal_point : string.

(** Format a file size.  The messages are those of a build without a
    message catalogue: [C_] returns its message, [NC_] the singular for
    1 and the plural otherwise, and the format "%1$s %2$s" puts a space
    between the value and the suffix. *)
Definition formatFileSize (size : Z) : string :=
  let '(suffix, whole_part, frac_part) :=
    (if size <? 0 then
      (* Invalid size. Print the value as-is. *)
      (None, CInt.to_int32 size, 0)
    else if size <? Z.shiftl 2 10 then
      (Some (if CInt.to_int32 size =? 1 then "byte"%string else "bytes"%string),
       CInt.to_int32 size, 0)
    else if size <? Z.shiftl 2 20 then
      (Some "KiB"%string, CInt.to_int32 (Z.shiftr size 10),
       calc_frac_part size (Z.shiftl 1 10))
    else if size <? Z.shiftl 2 30 then
      (Some "MiB"%string, CInt.to_int32 (Z.shiftr size 20),
       calc_frac_part size (Z.shiftl 1 20))
    else if size <? Z.shiftl 2 40 then
      (Some "GiB"%string, CInt.to_int32 (Z.shiftr size 30),
       calc_frac_part size (Z.shiftl 1 30))
    else if size <? Z.shiftl 2 50 then
      (Some "TiB"%string, CInt.to_int32 (Z.shiftr size 40),
       calc_frac_part size (Z.shiftl 1 40))
    else if size <? Z.shiftl 2 60 then
      (Some "PiB"%string, CInt.to_int32 (Z.shiftr size 50),
       calc_frac_part size (Z.shiftl 1 50))
    else
      (Some "EiB"%string, CInt.to_int32 (Z.shiftr size 60),
       calc_frac_part size (Z.shiftl 1 60))) : option string * Z * Z in
  (* Localize the whole part. *)
  let s_value := fmt_d whole_part in
  let s_value :=
    if Z.shiftl 2 10 <=? size then
      (* Fractional part. *)
      let '(frac_part, frac_digits) :=
        if 10 <=? whole_part then
          let round_adj := if Z.rem frac_part 10 >? 5 then 1 else 0 in
          (Z.quot frac_part 10 + round_adj, 1%nat)
        else (frac_part, 2%nat) in
      (s_value +:+ decimal_point +:+ Printf.pad0 frac_digits (fmt_d frac_part))%string
    else s_value in
  match suffix with
  | Some suffix => (s_value +:+ " " +:+ suffix)%string
  | None => s_value
  end.
End Locale.

(** The fraction that [calc_frac_part] computes in floating point, in
    integers: [r] is the part of the size below the unit of 1024. *)
Definition frac_of_1024 (r : Z) : Z :=
  let t := r * 125 / 128 in
  t / 10 + (if t mod 10 >? 5 then 1 else 0).

End TextFuncs.

(** ** RomData: what every parser shares *)
Module RomData.

(** Modelled from the spec: RomFields, RomMetaData and RomData_p.hpp are
    not among the sources.  The field list is "an ordered sequence of
    (label, value, formattingFlags) triples" whose "insertion order
    matters"; the metadata set maps "a fixed property enum" to "a typed
    value (string/integer/unsigned)".  The claims need labels, values,
    order and count; the formatting flags are left out. *)
Definition RomFields : Type := list (string * string).

Inductive Property : Set :=
  | Title | Artist | Album | ReleaseYear | Genre | Copyright
  | Duration | Subject | Channels | SampleRate.

Inductive MetaValue : Set :=
  | MInteger (z : Z)
  | MUInt (z : Z)
  | MString (s : string).

Definition RomMetaData : Type := list (Property * MetaValue).

Definition addField_string (fs : RomFields) (name value : string) : RomFields :=
  fs ++ [(name, value)].
Definition addField_string_numeric (fs : RomFields) (name : string) (v : Z) : RomFields :=
  fs ++ [(name, Printf.fmt_u v)].
Definition addMetaData (m : RomMetaData) (p : Property) (v : MetaValue) : RomMetaData :=
  m ++ [(p, v)].

(** Detection information; a null [info] or [pData] is [None]. *)
Record DetectInfo : Type := {
  hdr_addr : Z;
  hdr_size : Z;
  hdr_pData : option (list ascii);
  ext : option string;
  szFile : Z
}.

(** The buffer really has the [hdr_size] bytes it is said to have. *)
Definition wf_info (info : option DetectInfo) : Prop :=
  forall i p, info = Some i -> hdr_pData i = Some p ->
    hdr_size i = Z.of_nat (length p).

End RomData.

(** ** BRSTM.cpp: Nintendo Wii BRSTM audio reader *)
Module BRSTM.
Import RomData.

(** Modelled from the spec: brstm_structs.h is not among the sources.  The
    spec names what the detector and the parser read (the magic, the
    byte-order mark, the chunk count, the offset/size pairs of the two
    named sub-chunks, the chunk magic and the sub-offset of the secondary
    header) but not where it lies; the sizes and offsets are those of the
    BRSTM container.  The primary header is 64 bytes: magic 'RSTM' at 0,
    byte-order mark at 4, version at 6 and 7, chunk count at 14, then the
    offset/size pairs of the HEAD, ADPC and DATA chunks at 16, 24 and 32.
    The HEAD chunk header is 32 bytes with its magic 'HEAD' at 0 and the
    offset of its first part at 12; that part is 52 bytes: codec, loop
    flag and channel count at 0, 1, 2, sample rate at 4, loop start at 8,
    sample count at 12.  Every statement below reads a field through the
    accessors defined here. *)
Definition sizeof_BRSTM_Header : nat := 64.
Definition sizeof_BRSTM_HEAD_Header : nat := 32.
Definition sizeof_BRSTM_HEAD_Chunk1 : nat := 52.
Definition BRSTM_MAGIC : Z := 0x5253544D.
Definition BRSTM_HEAD_MAGIC : Z := 0x48454144.
Definition BRSTM_BOM_HOST : Z := 0xFEFF.
Definition BRSTM_BOM_SWAP : Z := 0xFFFE.

Section Host.
Variable host_be : bool.

Let ld := Mem.load host_be.

(** Fields of [BRSTM_Header], read in host byte order. *)
Definition h_magic (h : list ascii) : Z := ld h 0 4.
Definition h_bom (h : list ascii) : Z := ld h 4 2.
Definition h_version_major (h : list ascii) : Z := ld h 6 1.
Definition h_version_minor (h : list ascii) : Z := ld h 7 1.
Definition h_chunk_count (h : list ascii) : Z := ld h 14 2.
Definition h_head_offset (h : list ascii) : Z := ld h 16 4.
Definition h_head_size (h : list ascii) : Z := ld h 20 4.
Definition h_data_offset (h : list ascii) : Z := ld h 32 4.
Definition h_data_size (h : list ascii) : Z := ld h 36 4.

(** Fields of [BRSTM_HEAD_Header] and [BRSTM_HEAD_Chunk1]. *)
Definition hh_magic (h : list ascii) : Z := ld h 0 4.
Definition hh_head1_offset (h : list ascii) : Z := ld h 12 4.
Definition c1_codec (c : list ascii) : Z := ld c 0 1.
Definition c1_loop_flag (c : list ascii) : Z := ld c 1 1.
Definition c1_channel_count (c : list ascii) : Z := ld c 2 1.
Definition c1_sample_rate (c : list ascii) : Z := ld c 4 2.
Definition c1_loop_start (c : list ascii) : Z := ld c 8 4.
Definition c1_sample_count (c : list ascii) : Z := ld c 12 4.

Record BRSTMPrivate : Type := mkPrivate {
  file : option RpFile.t;
  isValid : bool;
  fields : RomFields;
  metaData : option RomMetaData;
  brstmHeader : list ascii;
  headChunk1 : list ascii;
  needsByteswap : bool
}.

Definition brstm16_to_cpu (d : BRSTMPrivate) (x : Z) : Z :=
  if needsByteswap d then Mem.swab 2 x else x.
Definition brstm32_to_cpu (d : BRSTMPrivate) (x : Z) : Z :=
  if needsByteswap d then Mem.swab 4 x else x.

(** Is a ROM image supported by this class?  Class-specific system ID
    (>= 0) if supported; -1 if not. *)
Definition isRomSupported_static (info : option DetectInfo) : Z :=
  match info with
  | None => -1
  | Some i =>
    match hdr_pData i with
    | None => -1
    | Some p =>
      if negb (hdr_addr i =? 0) || (hdr_size i <? Z.of_nat sizeof_BRSTM_Header)
      then -1
      else if negb (h_magic p =? Mem.cpu_to_be host_be 4 BRSTM_MAGIC)
      then -1
      else
        let bom := h_bom p in
        if negb ((bom =? BRSTM_BOM_HOST) || (bom =? BRSTM_BOM_SWAP))
        then -1
        else
          let needsByteswap := negb (bom =? BRSTM_BOM_HOST) in
          let chunk_count :=
            if needsByteswap then Mem.swab 2 (h_chunk_count p)
            else h_chunk_count p in
          if chunk_count <? 2 then -1
          else if (h_head_offset p =? 0) || (h_head_size p =? 0) ||
                  (h_data_offset p =? 0) || (h_data_size p =? 0)
          then -1
          else 0
    end
  end.

(** [d->file->unref(); d->file = nullptr;] with [isValid] as given. *)
Definition release (v : bool) (d : BRSTMPrivate) : BRSTMPrivate :=
  {| file := None; isValid := v; fields := fields d; metaData := metaData d;
     brstmHeader := brstmHeader d; headChunk1 := headChunk1 d;
     needsByteswap := needsByteswap d |}.

(** The BRSTMPrivate constructor: no fields, no metadata, not valid,
    both header structs cleared. *)
Definition init (f : option RpFile.t) : BRSTMPrivate :=
  {| file := f; isValid := false; fields := []; metaData := None;
     brstmHeader := replicate sizeof_BRSTM_Header zero;
     headChunk1 := replicate sizeof_BRSTM_HEAD_Chunk1 zero;
     needsByteswap := false |}.

(** Read a Nintendo Wii BRSTM audio file. *)
Definition BRSTM_new (f : option RpFile.t) : BRSTMPrivate :=
  let d := init f in
  match f with
  | None => d
  | Some f0 =>
    let '(got, f1) := RpFile.read (RpFile.rewind f0) (Z.of_nat sizeof_BRSTM_Header) in
    let hdr := Mem.blit (brstmHeader d) 0 got in
    let d := {| file := Some f1; isValid := false; fields := []; metaData := None;
                brstmHeader := hdr; headChunk1 := headChunk1 d;
                needsByteswap := false |} in
    if negb (length got =? sizeof_BRSTM_Header)%nat then release false d
    else
      let info := {| hdr_addr := 0; hdr_size := Z.of_nat sizeof_BRSTM_Header;
                     hdr_pData := Some hdr; ext := None; szFile := 0 |} in
      let valid := 0 <=? isRomSupported_static (Some info) in
      if negb valid then release valid d
      else
        let d := {| file := Some f1; isValid := valid; fields := []; metaData := None;
                    brstmHeader := hdr; headChunk1 := headChunk1 d;
                    needsByteswap := (h_bom hdr =? BRSTM_BOM_SWAP) |} in
        let head_offset := brstm32_to_cpu d (h_head_offset hdr) in
        let head_size := brstm32_to_cpu d (h_head_size hdr) in
        if (head_offset =? 0) || (head_size <? Z.of_nat sizeof_BRSTM_HEAD_Header)
        then release false d
        else
          let '(headHeader, f2) :=
            RpFile.seekAndRead f1 head_offset (Z.of_nat sizeof_BRSTM_HEAD_Header) in
          if negb (length headHeader =? sizeof_BRSTM_HEAD_Header)%nat
          then release false d
          else if negb (hh_magic headHeader =? Mem.cpu_to_be host_be 4 BRSTM_HEAD_MAGIC)
          then release false d
          else
            let head1_offset := brstm32_to_cpu d (hh_head1_offset headHeader) in
            if head1_offset <? Z.of_nat sizeof_BRSTM_HEAD_Header - 8
            then release false d
            else
              let '(c1, f3) :=
                RpFile.seekAndRead f2 (CInt.to_uint32 (head_offset + 8 + head1_offset))
                  (Z.of_nat sizeof_BRSTM_HEAD_Chunk1) in
              let d := {| file := Some f3; isValid := true; fields := [];
                          metaData := None; brstmHeader := hdr;
                          headChunk1 := Mem.blit (headChunk1 d) 0 c1;
                          needsByteswap := needsByteswap d |} in
              if negb (length c1 =? sizeof_BRSTM_HEAD_Chunk1)%nat
              then release false d
              else d
  end.

Definition codec_tbl : list string :=
  ["Signed 8-bit PCM"; "Signed 16-bit PCM"; "4-bit THP ADPCM"]%string.

(** Load field data: number of fields read on success; negative POSIX
    error code on error. *)
Definition loadFieldData (d : BRSTMPrivate) : Z * BRSTMPrivate :=
  if negb (bool_decide (fields d = [])) then (0, d)
  else match file d with
  | None => (- CInt.EBADF, d)
  | Some _ =>
    if negb (isValid d) then (- CInt.EIO, d)
    else
      let hdr := brstmHeader d in
      let c1 := headChunk1 d in
      let fs := fields d in
      let fs := addField_string fs "Version"
        (Printf.fmt_u (h_version_major hdr) +:+ "." +:+ Printf.fmt_u (h_version_minor hdr)) in
      let fs := addField_string fs "Endianness"
        (if h_bom hdr =? Mem.cpu_to_be host_be 2 BRSTM_BOM_HOST
         then "Big-Endian" else "Little-Endian") in
      let fs := addField_string fs "Codec"
        (match codec_tbl !! Z.to_nat (c1_codec c1) with
         | Some name => name
         | None => "Unknown (" +:+ Printf.fmt_u (c1_codec c1) +:+ ")"
         end) in
      let fs := addField_string_numeric fs "Channels" (c1_channel_count c1) in
      let sample_rate := brstm16_to_cpu d (c1_sample_rate c1) in
      let sample_count := brstm32_to_cpu d (c1_sample_count c1) in
      let fs := addField_string fs "Sample Rate" (Printf.fmt_u sample_rate +:+ " Hz") in
      let fs := addField_string fs "Length"
        (TextFuncs.formatSampleAsTime sample_count sample_rate) in
      let fs := addField_string fs "Looping"
        (if negb (c1_loop_flag c1 =? 0) then "Yes" else "No") in
      let fs :=
        if negb (c1_loop_flag c1 =? 0)
        then addField_string fs "Loop Start"
               (TextFuncs.formatSampleAsTime
                  (brstm32_to_cpu d (c1_loop_start c1)) sample_rate)
        else fs in
      (Z.of_nat (length fs),
       {| file := file d; isValid := isValid d; fields := fs;
          metaData := metaData d; brstmHeader := hdr; headChunk1 := c1;
          needsByteswap := needsByteswap d |})
  end.

(** Load metadata properties: number of metadata properties read on
    success; negative POSIX error code on error. *)
Definition loadMetaData (d : BRSTMPrivate) : outcome (Z * BRSTMPrivate) :=
  match metaData d with
  | Some _ => Ret (0, d)
  | None =>
    match file d with
    | None => Ret (- CInt.EBADF, d)
    | Some _ =>
      if negb (isValid d) then Ret (- CInt.EIO, d)
      else
        let c1 := headChunk1 d in
        let m : RomMetaData := [] in
        let m := addMetaData m Channels (MInteger (c1_channel_count c1)) in
        let sample_rate := brstm16_to_cpu d (c1_sample_rate c1) in
        let sample_count := brstm32_to_cpu d (c1_sample_count c1) in
        let m := addMetaData m SampleRate (MInteger sample_rate) in
        do ms <- TextFuncs.convSampleToMs sample_count sample_rate;
        let m := addMetaData m Duration (MInteger ms) in
        Ret (Z.of_nat (length m),
             {| file := file d; isValid := isValid d; fields := fields d;
                metaData := Some m; brstmHeader := brstmHeader d;
                headChunk1 := c1; needsByteswap := needsByteswap d |})
    end
  end.

(** *** What the constructor checks, as conditions on the file *)

Definition header_of (bytes : list ascii) : list ascii :=
  take sizeof_BRSTM_Header bytes.

Definition info_of (hdr : list ascii) : option DetectInfo :=
  Some {| hdr_addr := 0; hdr_size := Z.of_nat sizeof_BRSTM_Header;
          hdr_pData := Some hdr; ext := None; szFile := 0 |}.

(** A 32-bit field of the file in the byte order of the stream. *)
Definition norm32 (bytes : list ascii) (x : Z) : Z :=
  if h_bom (header_of bytes) =? BRSTM_BOM_SWAP then Mem.swab 4 x else x.

Definition head_offset_of (bytes : list ascii) : Z :=
  norm32 bytes (h_head_offset (header_of bytes)).
Definition head_size_of (bytes : list ascii) : Z :=
  norm32 bytes (h_head_size (header_of bytes)).
Definition head_header_of (bytes : list ascii) : list ascii :=
  Mem.slice bytes (Z.to_nat (head_offset_of bytes)) sizeof_BRSTM_HEAD_Header.
Definition head1_offset_of (bytes : list ascii) : Z :=
  norm32 bytes (hh_head1_offset (head_header_of bytes)).
Definition chunk1_of (bytes : list ascii) : list ascii :=
  Mem.slice bytes
    (Z.to_nat (CInt.to_uint32 (head_offset_of bytes + 8 + head1_offset_of bytes)))
    sizeof_BRSTM_HEAD_Chunk1.

(** The failures of the chunked-format parser: a short read of the
    primary header, a failed detection, a failed bounds check on a chunk
    offset or size, a mismatch of the secondary chunk magic, a failed
    seek or read of a chunk. *)
Inductive parse_failure (bytes : list ascii) : Prop :=
  | short_primary_header :
      (length bytes < sizeof_BRSTM_Header)%nat -> parse_failure bytes
  | detection_failed :
      isRomSupported_static (info_of (header_of bytes)) < 0 -> parse_failure bytes
  | head_bounds_failed :
      head_offset_of bytes = 0 \/
      head_size_of bytes < Z.of_nat sizeof_BRSTM_HEAD_Header ->
      parse_failure bytes
  | head_read_failed :
      (length (head_header_of bytes) < sizeof_BRSTM_HEAD_Header)%nat ->
      parse_failure bytes
  | head_magic_mismatch :
      Mem.slice (head_header_of bytes) 0 4 <> Mem.bytes_of "HEAD" ->
      parse_failure bytes
  | head1_bounds_failed :
      head1_offset_of bytes < Z.of_nat sizeof_BRSTM_HEAD_Header - 8 ->
      parse_failure bytes
  | chunk1_read_failed :
      (length (chunk1_of bytes) < sizeof_BRSTM_HEAD_Chunk1)%nat ->
      parse_failure bytes.

End Host.

(** *** The detection rule, read off the bytes of the header *)
Definition bom_big_endian : list ascii := map Mem.chr [0xFE; 0xFF].
Definition bom_little_endian : list ascii := map Mem.chr [0xFF; 0xFE].

(** The value of a field in the byte order that the byte-order mark of
    the header [p] announces. *)
Definition stream_val (p field : list ascii) : Z :=
  if bool_decide (Mem.slice p 4 2 = bom_big_endian)
  then Mem.be_val field else Mem.le_val field.

Definition nonzero (field : list ascii) : Prop :=
  field <> replicate (length field) zero.

(** The detection rule in the words of the specification: the header
    buffer has at least 64 bytes at offset 0, the magic matches, the
    byte-order mark has one of its two values, the chunk count in the
    announced byte order is at least 2, and the offsets and sizes of the
    HEAD and DATA chunks are all non-zero. *)
Definition detect_spec (info : option DetectInfo) : Prop :=
  exists i p,
    info = Some i /\ hdr_pData i = Some p /\ hdr_addr i = 0 /\
    Z.of_nat sizeof_BRSTM_Header <= hdr_size i /\
    Mem.slice p 0 4 = Mem.bytes_of "RSTM" /\
    (Mem.slice p 4 2 = bom_big_endian \/ Mem.slice p 4 2 = bom_little_endian) /\
    2 <= stream_val p (Mem.slice p 14 2) /\
    nonzero (Mem.slice p 16 4) /\ nonzero (Mem.slice p 20 4) /\
    nonzero (Mem.slice p 32 4) /\ nonzero (Mem.slice p 36 4).

(** The first part of the HEAD chunk, found through the offsets of the
    stream, each read in the byte order that the byte-order mark
    announces. *)
Definition stream_chunk1 (bytes : list ascii) : list ascii :=
  let hdr := take sizeof_BRSTM_Header bytes in
  let head_offset := stream_val hdr (Mem.slice hdr 16 4) in
  let head_header := Mem.slice bytes (Z.to_nat head_offset) sizeof_BRSTM_HEAD_Header in
  let head1_offset := stream_val hdr (Mem.slice head_header 12 4) in
  Mem.slice bytes (Z.to_nat (CInt.to_uint32 (head_offset + 8 + head1_offset)))
    sizeof_BRSTM_HEAD_Chunk1.

(** The fields and the metadata of a file, read off its bytes. *)
Definition fields_of (bytes : list ascii) : RomFields :=
  let hdr := take sizeof_BRSTM_Header bytes in
  let c1 := stream_chunk1 bytes in
  let byte (l : list ascii) (i : nat) := Mem.u8 (nth i l zero) in
  let rate := stream_val hdr (Mem.slice c1 4 2) in
  let version : string :=
    (Printf.fmt_u (byte hdr 6%nat) +:+ "." +:+ Printf.fmt_u (byte hdr 7%nat))%string in
  let endianness : string :=
    if bool_decide (Mem.slice hdr 4 2 = bom_big_endian)
    then "Big-Endian"%string else "Little-Endian"%string in
  let codec : string :=
    match codec_tbl !! Z.to_nat (byte c1 0%nat) with
    | Some name => name
    | None => ("Unknown (" +:+ Printf.fmt_u (byte c1 0%nat) +:+ ")")%string
    end in
  let looping := negb (byte c1 1%nat =? 0) in
  [("Version"%string, version);
   ("Endianness"%string, endianness);
   ("Codec"%string, codec);
   ("Channels"%string, Printf.fmt_u (byte c1 2%nat));
   ("Sample Rate"%string, (Printf.fmt_u rate +:+ " Hz")%string);
   ("Length"%string,
    TextFuncs.formatSampleAsTime (stream_val hdr (Mem.slice c1 12 4)) rate);
   ("Looping"%string, if looping then "Yes"%string else "No"%string)] ++
  (if looping
   then [("Loop Start"%string,
          TextFuncs.formatSampleAsTime (stream_val hdr (Mem.slice c1 8 4)) rate)]
   else []).

Definition metadata_of (bytes : list ascii) (ms : Z) : RomMetaData :=
  let hdr := take sizeof_BRSTM_Header bytes in
  let c1 := stream_chunk1 bytes in
  [(Channels, MInteger (Mem.u8 (nth 2 c1 zero)));
   (SampleRate, MInteger (stream_val hdr (Mem.slice c1 4 2)));
   (Duration, MInteger ms)].

(** A small big-endian BRSTM file: the 64-byte header, the HEAD chunk
    header at 0x40 and its first part at 0x60. *)
Definition sample_file (rate_hi rate_lo loop : Z) : list ascii :=
  Mem.bytes_of "RSTM" ++
  map Mem.chr [0xFE; 0xFF; 1; 0;  0; 0; 0; 0xA0;  0; 0x40; 0; 2;
               0; 0; 0; 0x40;  0; 0; 0; 0x54;  0; 0; 0; 0;  0; 0; 0; 0;
               0; 0; 0; 0x94;  0; 0; 0; 0x0C] ++
  replicate 24 zero ++
  Mem.bytes_of "HEAD" ++
  map Mem.chr [0; 0; 0; 0x54;  1; 0; 0; 0;  0; 0; 0; 0x18;
               1; 0; 0; 0;  0; 0; 0; 0;  1; 0; 0; 0;  0; 0; 0; 0] ++
  map Mem.chr [2; loop; 2; 0;  rate_hi; rate_lo; 0; 0;  0; 0; 0x56; 0x22;
               0; 0x28; 0x5F; 0xF8] ++
  replicate 36 zero ++
  replicate 12 zero.

(** The instance built from the sample file (44100 Hz, looping) on a
    little-endian host, and the same file cut in the middle of the first
    part of its HEAD chunk. *)
Definition sample_instance : BRSTMPrivate :=
  BRSTM_new false (Some (RpFile.open (sample_file 0xAC 0x44 1))).

Definition sample_open_file : RpFile.t :=
  match file sample_instance with
  | Some f => f
  | None => RpFile.open []
  end.

Definition truncated_file : list ascii := take 100 (sample_file 0xAC 0x44 1).

Definition sample_info : option DetectInfo :=
  info_of (take 64 (sample_file 0xAC 0x44 1)).

(** The same file with a sample rate of zero. *)
Definition zero_rate_instance : BRSTMPrivate :=
  BRSTM_new false (Some (RpFile.open (sample_file 0 0 0))).

End BRSTM.

(** ** N64.cpp: Nintendo 64 ROM image reader *)
Module N64.
Import RomData.

(** Modelled from the spec: n64_structs.h is not among the sources.  The
    spec names the four container variants "Z64", "V64", "swap2" and
    "LE32" and their magic values; the layout is that of the N64 ROM
    header, a 64-byte union: the 8-byte magic at 0 (which is also
    [init_pi] at 0 and [clockrate] at 4), [entrypoint] at 8, [os_version]
    at 12, [crc] at 16 and 20, [title] (20 bytes) at 32, [id4] at 59 and
    [revision] at 63, with [u16] and [u32] views of the same bytes. *)
Definition sizeof_N64_RomHeader : nat := 64.
Definition N64_Z64_MAGIC : Z := 0x803712400000000F.
Definition N64_V64_MAGIC : Z := 0x3780401200000F00.
Definition N64_SWAP2_MAGIC : Z := 0x12408037000F0000.
Definition N64_LE32_MAGIC : Z := 0x401237800F000000.

(** enum RomType *)
Definition ROM_TYPE_UNKNOWN : Z := -1.
Definition ROM_TYPE_Z64 : Z := 0.
Definition ROM_TYPE_V64 : Z := 1.
Definition ROM_TYPE_SWAP2 : Z := 2.
Definition ROM_TYPE_LE32 : Z := 3.

(** enum RomFields::Base *)
Inductive Base : Set := FB_DEC | FB_HEX | FB_OCT.

(** [%08X] of a 32-bit value *)
Definition fmt_08X (z : Z) : string := Printf.pad0 8 (Printf.hex_go 16 z EmptyString).

Section Host.
Variable host_be : bool.

Let ld := Mem.load host_be.
Let st := Mem.store host_be.

Record N64Private : Type := mkPrivate {
  file : option RpFile.t;
  isValid : bool;
  fields : RomFields;
  metaData : option RomMetaData;
  romType : Z;
  romHeader : list ascii
}.

Definition magic64 (h : list ascii) : Z := ld h 0 8.
Definition init_pi (h : list ascii) : Z := ld h 0 4.
Definition clockrate (h : list ascii) : Z := ld h 4 4.
Definition entrypoint (h : list ascii) : Z := ld h 8 4.
Definition os_version (h : list ascii) : list ascii := Mem.slice h 12 4.
Definition crc (h : list ascii) (i : nat) : Z := ld h (16 + 4 * i) 4.
Definition title (h : list ascii) : list ascii := Mem.slice h 32 20.
Definition id4 (h : list ascii) : list ascii := Mem.slice h 59 4.
Definition revision (h : list ascii) : Z := ld h 63 1.

(** Is a ROM image supported by this class? *)
Definition isRomSupported_static (info : option DetectInfo) : Z :=
  match info with
  | None => -1
  | Some i =>
    match hdr_pData i with
    | None => -1
    | Some p =>
      if negb (hdr_addr i =? 0) || (hdr_size i <? Z.of_nat sizeof_N64_RomHeader)
      then -1
      else if magic64 p =? Mem.cpu_to_be host_be 8 N64_Z64_MAGIC then ROM_TYPE_Z64
      else if magic64 p =? Mem.cpu_to_be host_be 8 N64_V64_MAGIC then ROM_TYPE_V64
      else if magic64 p =? Mem.cpu_to_be host_be 8 N64_SWAP2_MAGIC then ROM_TYPE_SWAP2
      else if magic64 p =? Mem.cpu_to_be host_be 8 N64_LE32_MAGIC then ROM_TYPE_LE32
      else ROM_TYPE_UNKNOWN
    end
  end.

(** An array of 16-bit, respectively 32-bit, host integers laid over a
    byte buffer, each element replaced by its image under [f]. *)
Fixpoint map_u16 (f : Z -> Z) (buf : list ascii) : list ascii :=
  match buf with
  | a :: b :: r =>
      Mem.host_bytes host_be 2 (f (Mem.host_val host_be [a; b])) ++ map_u16 f r
  | _ => buf
  end.

Fixpoint map_u32 (f : Z -> Z) (buf : list ascii) : list ascii :=
  match buf with
  | a :: b :: c :: d :: r =>
      Mem.host_bytes host_be 4 (f (Mem.host_val host_be [a; b; c; d])) ++ map_u32 f r
  | _ => buf
  end.

(** Modelled from the spec: [__byte_swap_16_array] and
    [__byte_swap_32_array] of byteswap.h (not among the sources) are the
    "16-bit element-wise swap" and the "32-bit element-wise swap". *)
Definition byte_swap_16_array (buf : list ascii) : list ascii :=
  map_u16 (Mem.swab 2) buf.
Definition byte_swap_32_array (buf : list ascii) : list ascii :=
  map_u32 (Mem.swab 4) buf.

(** [#define UNSWAP2(x) (uint32_t)(((x) >> 16) | ((x) << 16))] *)
Definition UNSWAP2 (x : Z) : Z :=
  CInt.to_uint32 (Z.lor (Z.shiftr x 16) (Z.shiftl x 16)).

Definition init (f : option RpFile.t) : N64Private :=
  {| file := f; isValid := false; fields := []; metaData := None;
     romType := ROM_TYPE_UNKNOWN;
     romHeader := replicate sizeof_N64_RomHeader zero |}.

(** [x = be32_to_cpu(x)] on the 32-bit field at offset [off]. *)
Definition be32_in_place (h : list ascii) (off : nat) : list ascii :=
  st h off 4 (Mem.be_to_cpu host_be 4 (ld h off 4)).

(** Read a Nintendo 64 ROM image. *)
Definition N64_new (f : option RpFile.t) : N64Private :=
  let d := init f in
  match f with
  | None => d
  | Some f0 =>
    let '(got, f1) := RpFile.read (RpFile.rewind f0) (Z.of_nat sizeof_N64_RomHeader) in
    let hdr := Mem.blit (romHeader d) 0 got in
    if negb (length got =? sizeof_N64_RomHeader)%nat
    then {| file := None; isValid := false; fields := []; metaData := None;
            romType := ROM_TYPE_UNKNOWN; romHeader := hdr |}
    else
      let info := {| hdr_addr := 0; hdr_size := Z.of_nat sizeof_N64_RomHeader;
                     hdr_pData := Some hdr; ext := None; szFile := 0 |} in
      let rt := isRomSupported_static (Some info) in
      let converted :=
        if rt =? ROM_TYPE_Z64 then Some hdr
        else if rt =? ROM_TYPE_V64 then Some (byte_swap_16_array hdr)
        else if rt =? ROM_TYPE_SWAP2 then Some (map_u32 UNSWAP2 hdr)
        else if rt =? ROM_TYPE_LE32 then Some (byte_swap_32_array hdr)
        else None in
      match converted with
      | None =>
          {| file := None; isValid := false; fields := []; metaData := None;
             romType := ROM_TYPE_UNKNOWN; romHeader := hdr |}
      | Some hdr =>
          let hdr := be32_in_place hdr 0 in
          let hdr := be32_in_place hdr 4 in
          let hdr := be32_in_place hdr 8 in
          let hdr := be32_in_place hdr 16 in
          let hdr := be32_in_place hdr 20 in
          {| file := Some f1; isValid := true; fields := []; metaData := None;
             romType := rt; romHeader := hdr |}
      end
  end.

(** The five field conversions the constructor ends with. *)
Definition finalize (hdr : list ascii) : list ascii :=
  be32_in_place (be32_in_place (be32_in_place
    (be32_in_place (be32_in_place hdr 0) 4) 8) 16) 20.

(** Not among the sources, and parameters here: the text conversions
    [cp1252_sjis_to_utf8] and [latin1_to_utf8], which take the bytes of
    a field, [ISPRINT] and [ISALPHA] of ctypex.h, and the text that
    RomFields makes of a number in a base with a minimum of digits
    ([addField_string_numeric]) and of a hex dump
    ([addField_string_hexdump]).  The formatting flags of a field are
    left out, as in [RomFields]. *)
Variable cp1252_sjis_to_utf8 : list ascii -> string.
Variable latin1_to_utf8 : list ascii -> string.
Variable ISPRINT : ascii -> bool.
Variable ISALPHA : ascii -> bool.
Variable string_numeric : Base -> nat -> Z -> string.
Variable string_hexdump : list ascii -> string.

(** [romHeader->os_version[i]] *)
Definition os_version_at (h : list ascii) (i : nat) : ascii :=
  nth i (os_version h) zero.

(** Load field data: number of fields read on success; negative POSIX
    error code on error.  A file of the model is always open. *)
Definition loadFieldData (d : N64Private) : Z * N64Private :=
  if negb (bool_decide (fields d = [])) then (0, d)
  else match file d with
  | None => (- CInt.EBADF, d)
  | Some _ =>
    if negb (isValid d) || (romType d <? 0) then (- CInt.EIO, d)
    else
      (* ROM file header is read and byteswapped in the constructor. *)
      let hdr := romHeader d in
      let fs := fields d in
      (* Title. *)
      let fs := addField_string fs "Title" (cp1252_sjis_to_utf8 (title hdr)) in
      (* Game ID.
         Replace any non-printable characters with underscores. *)
      let id := map (fun c => if ISPRINT c then c else "_"%char) (id4 hdr) in
      let fs := addField_string fs "Game ID" (latin1_to_utf8 id) in
      (* Revision. *)
      let fs := addField_string fs "Revision" (string_numeric FB_DEC 2 (revision hdr)) in
      (* Entry point. *)
      let fs := addField_string fs "Entry Point"
                  (string_numeric FB_HEX 8 (entrypoint hdr)) in
      (* OS version. *)
      let fs :=
        if (Mem.u8 (os_version_at hdr 0) =? 0) && (Mem.u8 (os_version_at hdr 1) =? 0) &&
           ISALPHA (os_version_at hdr 3)
        then addField_string fs "OS Version"
               (Printf.snprintf_keep 32
                  ("OS " +:+ Printf.fmt_u (Mem.u8 (os_version_at hdr 2)) +:+
                   String (os_version_at hdr 3) EmptyString))
        else
          (* Unrecognized Release field. *)
          addField_string fs "OS Version" (string_hexdump (os_version hdr)) in
      (* CRCs. *)
      let fs := addField_string fs "CRCs"
                  (Printf.snprintf_keep 32
                     ("0x" +:+ fmt_08X (crc hdr 0) +:+ " 0x" +:+ fmt_08X (crc hdr 1))) in
      (* Finished reading the field data. *)
      (Z.of_nat (length fs),
       {| file := file d; isValid := isValid d; fields := fs;
          metaData := metaData d; romType := romType d; romHeader := hdr |})
  end.

(** Load metadata properties: number of metadata properties read on
    success; negative POSIX error code on error. *)
Definition loadMetaData (d : N64Private) : Z * N64Private :=
  match metaData d with
  | Some _ => (0, d)
  | None =>
    match file d with
    | None => (- CInt.EBADF, d)
    | Some _ =>
      if negb (isValid d) || (romType d <? 0) then (- CInt.EIO, d)
      else
        let hdr := romHeader d in
        (* Title. *)
        let m := addMetaData [] Title (MString (cp1252_sjis_to_utf8 (title hdr))) in
        (Z.of_nat (length m),
         {| file := file d; isValid := isValid d; fields := fields d;
            metaData := Some m; romType := romType d; romHeader := hdr |})
    end
  end.

End Host.

(** The container variants and what each does to a big-endian ("Z64")
    image, on bytes. *)
Inductive variant : Set := Z64 | V64 | SWAP2 | LE32.

Definition variant_id (v : variant) : Z :=
  match v with
  | Z64 => ROM_TYPE_Z64
  | V64 => ROM_TYPE_V64
  | SWAP2 => ROM_TYPE_SWAP2
  | LE32 => ROM_TYPE_LE32
  end.

Fixpoint swap_bytes_16 (l : list ascii) : list ascii :=
  match l with
  | a :: b :: r => b :: a :: swap_bytes_16 r
  | _ => l
  end.

Fixpoint swap_words (l : list ascii) : list ascii :=
  match l with
  | a :: b :: c :: d :: r => c :: d :: a :: b :: swap_words r
  | _ => l
  end.

Fixpoint swap_bytes_32 (l : list ascii) : list ascii :=
  match l with
  | a :: b :: c :: d :: r => d :: c :: b :: a :: swap_bytes_32 r
  | _ => l
  end.

(** The image of a canonical header in a variant: "none, 16-bit
    element-wise swap, 32-bit element-wise swap, or wordswap (swap the two
    16-bit halves of each 32-bit word without byte-swapping within
    halves)". *)
Definition encode (v : variant) (canon : list ascii) : list ascii :=
  match v with
  | Z64 => canon
  | V64 => swap_bytes_16 canon
  | SWAP2 => swap_words canon
  | LE32 => swap_bytes_32 canon
  end.

Definition z64_magic_bytes : list ascii :=
  Eval vm_compute in Mem.be_bytes 8 N64_Z64_MAGIC.

(** The fields of a canonical (big-endian) header, read off its bytes. *)
Section Fields.
Variable cp1252_sjis_to_utf8 : list ascii -> string.
Variable latin1_to_utf8 : list ascii -> string.
Variable ISPRINT : ascii -> bool.
Variable ISALPHA : ascii -> bool.
Variable string_numeric : Base -> nat -> Z -> string.
Variable string_hexdump : list ascii -> string.

Definition fields_of (canon : list ascii) : RomFields :=
  let byte i := nth i canon zero in
  let known_os :=
    (Mem.u8 (byte 12%nat) =? 0) && (Mem.u8 (byte 13%nat) =? 0) &&
    ISALPHA (byte 15%nat) in
  let os : string :=
    if known_os
    then ("OS " +:+ Printf.fmt_u (Mem.u8 (byte 14%nat)) +:+
          String (byte 15%nat) EmptyString)%string
    else string_hexdump (Mem.slice canon 12 4) in
  let crcs : string :=
    ("0x" +:+ fmt_08X (Mem.be_val (Mem.slice canon 16 4)) +:+
     " 0x" +:+ fmt_08X (Mem.be_val (Mem.slice canon 20 4)))%string in
  [("Title"%string, cp1252_sjis_to_utf8 (Mem.slice canon 32 20));
   ("Game ID"%string,
    latin1_to_utf8 (map (fun c => if ISPRINT c then c else "_"%char)
                        (Mem.slice canon 59 4)));
   ("Revision"%string, string_numeric FB_DEC 2 (Mem.u8 (byte 63%nat)));
   ("Entry Point"%string, string_numeric FB_HEX 8 (Mem.be_val (Mem.slice canon 8 4)));
   ("OS Version"%string, os);
   ("CRCs"%string, crcs)].
End Fields.

(** The 56 bytes after the magic of a canonical header. *)
Definition sample_body : list ascii :=
  map Mem.chr [0x80; 0x24; 0x60; 0x00;  0; 0; 0x14; 0x46;
               0x63; 0x5A; 0x2B; 0xFF;  0x8B; 0x02; 0x23; 0x26;
               0; 0; 0; 0;  0; 0; 0; 0] ++
  Mem.bytes_of "SUPER MARIO 64      " ++
  replicate 7 zero ++ Mem.bytes_of "NSME" ++ [zero].

End N64.

(** ** sscanf, for the conversions PSF.cpp uses *)
Module Scanf.

Inductive directive : Set :=
  | DU                    (* %u *)
  | DD (width : nat)      (* %Nd, at most N characters *)
  | DC                    (* %c *)
  | DLit (c : ascii).     (* an ordinary character *)

Definition isdigit (c : ascii) : bool :=
  (48 <=? Mem.u8 c) && (Mem.u8 c <=? 57).

Definition isspace (c : ascii) : bool :=
  (Mem.u8 c =? 32) || ((9 <=? Mem.u8 c) && (Mem.u8 c <=? 13)).

Fixpoint skip_ws (l : list ascii) : list ascii :=
  match l with
  | c :: r => if isspace c then skip_ws r else l
  | [] => []
  end.

(** The longest prefix of decimal digits: its value so far, the number of
    digits taken, and the rest; at most [limit] characters are taken. *)
Fixpoint digits (limit : nat) (l : list ascii) (acc : Z) (n : nat) : Z * nat * list ascii :=
  match limit with
  | O => (acc, n, l)
  | S limit' =>
    match l with
    | c :: r =>
        if isdigit c then digits limit' r (acc * 10 + (Mem.u8 c - 48)) (S n)
        else (acc, n, l)
    | [] => (acc, n, l)
    end
  end.

(** The value of a string of decimal digits. *)
Definition decimal (l : list ascii) : Z :=
  fold_left (fun acc c => acc * 10 + (Mem.u8 c - 48)) l 0.

(** What may follow a number: the end of the input or a character that
    is not a digit. *)
Definition ends_number (rest : list ascii) : Prop :=
  match rest with
  | [] => True
  | c :: _ => isdigit c = false
  end.

(** An optionally signed decimal integer of at most [limit] characters:
    [None] on a matching failure. *)
Definition number (limit : nat) (l : list ascii) : option (Z * list ascii) :=
  let '(neg, limit, l) :=
    match l with
    | c :: r =>
        if Mem.u8 c =? 45 then (true, pred limit, r)
        else if Mem.u8 c =? 43 then (false, pred limit, r)
        else (false, limit, l)
    | [] => (false, limit, l)
    end in
  let '(v, n, rest) := digits limit l 0 0 in
  if (n =? 0)%nat then None else Some (if neg then - v else v, rest).

(** The result of an input failure: EOF (-1) before the first conversion
    has completed, the number of assignments after it. *)
Definition input_failure (acc : list Z) : Z * list Z :=
  match acc with
  | [] => (-1, acc)
  | _ => (Z.of_nat (length acc), acc)
  end.

(** [scan fmt inp acc]: the value returned by [sscanf] and the converted
    values in the order of their conversions.  A value [%u] cannot
    represent is undefined in C; the model wraps it to 32 bits. *)
Fixpoint scan (fmt : list directive) (inp : list ascii) (acc : list Z) : Z * list Z :=
  match fmt with
  | [] => (Z.of_nat (length acc), acc)
  | DLit c :: fmt' =>
      match inp with
      | x :: inp' =>
          if bool_decide (x = c) then scan fmt' inp' acc
          else (Z.of_nat (length acc), acc)
      | [] => input_failure acc
      end
  | DC :: fmt' =>
      match inp with
      | x :: inp' => scan fmt' inp' (acc ++ [Mem.u8 x])
      | [] => input_failure acc
      end
  | DU :: fmt' =>
      match skip_ws inp with
      | [] => input_failure acc
      | inp1 =>
          match number (length inp1) inp1 with
          | Some (v, rest) => scan fmt' rest (acc ++ [CInt.to_uint32 v])
          | None => (Z.of_nat (length acc), acc)
          end
      end
  | DD w :: fmt' =>
      match skip_ws inp with
      | [] => input_failure acc
      | inp1 =>
          match number w inp1 with
          | Some (v, rest) => scan fmt' rest (acc ++ [CInt.to_int32 v])
          | None => (Z.of_nat (length acc), acc)
          end
      end
  end.

End Scanf.

(** ** PSF.cpp: PSF audio reader *)
Module PSF.
Import RomData.

(** Modelled from the spec: psf_structs.h is not among the sources.  The
    spec speaks of the header magic and of a tag section in the trailing
    region of the file; the layout is that of the PSF container.  The
    header is 16 bytes: the magic "PSF" at 0, the version byte at 3, then
    three little-endian 32-bit integers: the reserved-area size at 4, the
    compressed program length at 8 and its CRC at 12.  The tag section
    starts with the 5-byte magic "[TAG]". *)
Definition sizeof_PSF_Header : nat := 16.
Definition PSF_MAGIC : list ascii := Mem.bytes_of "PSF".
Definition sizeof_tag_magic : nat := 5.
Definition PSF_VERSION_PLAYSTATION : Z := 0x01.
Definition PSF_VERSION_PLAYSTATION_2 : Z := 0x02.
Definition PSF_VERSION_SATURN : Z := 0x11.
Definition PSF_VERSION_DREAMCAST : Z := 0x12.
Definition PSF_VERSION_MEGA_DRIVE : Z := 0x13.
Definition PSF_VERSION_N64 : Z := 0x21.
Definition PSF_VERSION_GBA : Z := 0x22.
Definition PSF_VERSION_SNES : Z := 0x23.
Definition PSF_VERSION_QSOUND : Z := 0x41.

Definition newline : ascii := Mem.chr 10.
Definition equals : ascii := Mem.chr 61.

(** [memchr]: the index of the first occurrence. *)
Fixpoint memchr (c : ascii) (l : list ascii) : option nat :=
  match l with
  | [] => None
  | x :: r => if bool_decide (x = c) then Some O else S <$> memchr c r
  end.

(** [std::tolower] in the "C" locale. *)
Definition tolower (c : ascii) : ascii :=
  if (65 <=? Mem.u8 c) && (Mem.u8 c <=? 90) then Mem.chr (Mem.u8 c + 32) else c.

Definition u8string (l : list ascii) : string := string_of_list_ascii l.

(** [c_str()] read as a C string: up to the first NUL. *)
Definition c_str (s : string) : list ascii :=
  let l := list_ascii_of_string s in
  take (default (length l) (memchr zero l)) l.

(** [unordered_map::emplace]: inserts only when the key is absent. *)
Definition emplace (kv : gmap string string) (k v : string) : gmap string string :=
  match kv !! k with
  | Some _ => kv
  | None => <[k := v]> kv
  end.

(** One line [p .. nl) of the tag block. *)
Definition tag_line (line : list ascii) (st : gmap string string * bool)
    : gmap string string * bool :=
  let '(kv, isUtf8) := st in
  match memchr equals line with
  | Some eq =>
      let k_len := CInt.to_int32 (Z.of_nat eq) in
      let v_len := CInt.to_int32 (Z.of_nat (length line) - Z.of_nat eq - 1) in
      if (0 <? k_len) && (0 <? v_len) then
        let key := u8string (map tolower (take (Z.to_nat k_len) line)) in
        let kv := emplace kv key (u8string (take (Z.to_nat v_len) (drop (S eq) line))) in
        (kv, isUtf8 || (bool_decide (key = "utf8"%string) && (0 <? v_len)))
      else (kv, isUtf8)
  | None => (kv, isUtf8)
  end.

(** The loop over the tag block; [p] is what lies between the cursor and
    [endptr].  Every round moves the cursor forward, so [length p] rounds
    are enough. *)
Fixpoint tag_loop (fuel : nat) (p : list ascii) (st : gmap string string * bool)
    : gmap string string * bool :=
  match fuel with
  | O => st
  | S fuel' =>
    match p with
    | [] => st
    | _ =>
      let nl := default (length p) (memchr newline p) in
      if (nl =? 0)%nat then tag_loop fuel' (drop 1 p) st
      else tag_loop fuel' (drop (S nl) p) (tag_line (take nl p) st)
    end
  end.

(** A key as the tag map holds it: not empty, and without upper-case
    letters, equals signs and newlines. *)
Definition tag_key (k : string) : Prop :=
  k <> ""%string /\
  Forall (fun c => tolower c = c /\ c <> equals /\ c <> newline)
         (list_ascii_of_string k).

Definition keys_ok (kv : gmap string string) : Prop :=
  forall k v, kv !! k = Some v -> tag_key k.

(** "ripped by" tag name for the PSF version *)
Definition psfby_lkup_tbl : list (Z * string) :=
  [(PSF_VERSION_PLAYSTATION, "psfby"); (PSF_VERSION_PLAYSTATION_2, "psfby");
   (PSF_VERSION_SATURN, "ssfby"); (PSF_VERSION_DREAMCAST, "dsfby");
   (PSF_VERSION_MEGA_DRIVE, "msfby"); (PSF_VERSION_N64, "usfby");
   (PSF_VERSION_GBA, "gsfby"); (PSF_VERSION_SNES, "snsfby");
   (PSF_VERSION_QSOUND, "qsfby")]%string.

Fixpoint lkup (tbl : list (Z * string)) (version : Z) : option string :=
  match tbl with
  | [] => None
  | (v, s) :: r => if v =? version then Some s else lkup r version
  end.

Definition getRippedByTagName (version : Z) : string :=
  default "psfby"%string (lkup psfby_lkup_tbl version).

Definition sysname_lkup_tbl : list (Z * string) :=
  [(PSF_VERSION_PLAYSTATION, "Sony PlayStation");
   (PSF_VERSION_PLAYSTATION_2, "Sony PlayStation 2");
   (PSF_VERSION_SATURN, "Sega Saturn"); (PSF_VERSION_DREAMCAST, "Sega Dreamcast");
   (PSF_VERSION_MEGA_DRIVE, "Sega Mega Drive"); (PSF_VERSION_N64, "Nintendo 64");
   (PSF_VERSION_GBA, "Game Boy Advance"); (PSF_VERSION_SNES, "Super NES");
   (PSF_VERSION_QSOUND, "Capcom QSound")]%string.

(** The variables [lengthToMs] hands to [sscanf]; [None] is a variable
    that has not been assigned yet. *)
Record scan_vars : Set := {
  v_hour : option Z;
  v_min : option Z;
  v_sec : option Z;
  v_frac : option Z
}.

Inductive scan_var : Set := Hour | Min | Sec | Frac.

Definition set_var (vs : scan_vars) (x : scan_var) (z : Z) : scan_vars :=
  match x with
  | Hour => {| v_hour := Some z; v_min := v_min vs; v_sec := v_sec vs; v_frac := v_frac vs |}
  | Min => {| v_hour := v_hour vs; v_min := Some z; v_sec := v_sec vs; v_frac := v_frac vs |}
  | Sec => {| v_hour := v_hour vs; v_min := v_min vs; v_sec := Some z; v_frac := v_frac vs |}
  | Frac => {| v_hour := v_hour vs; v_min := v_min vs; v_sec := v_sec vs; v_frac := Some z |}
  end.

Definition get_var (vs : scan_vars) (x : scan_var) : option Z :=
  match x with
  | Hour => v_hour vs
  | Min => v_min vs
  | Sec => v_sec vs
  | Frac => v_frac vs
  end.

(** [sscanf] stores every value it converts, also when a later directive
    fails. *)
Fixpoint assign (vs : scan_vars) (targets : list scan_var) (vals : list Z) : scan_vars :=
  match targets, vals with
  | t :: ts, v :: vl => assign (set_var vs t v) ts vl
  | _, _ => vs
  end.

Definition sscanf (str : list ascii) (fmt : list Scanf.directive)
    (targets : list scan_var) (vs : scan_vars) : Z * scan_vars :=
  let '(s, vals) := Scanf.scan fmt str [] in (s, assign vs targets vals).

Definition rd (o : option Z) : outcome Z :=
  match o with
  | Some z => Ret z
  | None => Trap IndeterminateRead
  end.

Import Scanf.

(** The format strings of [lengthToMs]. *)
Definition colon : ascii := Mem.chr 58.
Definition dot : ascii := Mem.chr 46.
Definition comma : ascii := Mem.chr 44.
(* "%u:%u:%u.%u" and "%u:%u:%u,%u" *)
Definition fmt_hmsf (sep : ascii) : list directive :=
  [DU; DLit colon; DU; DLit colon; DU; DLit sep; DU].
(* "%u:%u:%u" *)
Definition fmt_hms : list directive := [DU; DLit colon; DU; DLit colon; DU].
(* "%u:%u.%u" and "%u:%u,%u" *)
Definition fmt_msf (sep : ascii) : list directive := [DU; DLit colon; DU; DLit sep; DU].
(* "%u:%u" *)
Definition fmt_ms : list directive := [DU; DLit colon; DU].
(* "%u.%u" and "%u,%u" *)
Definition fmt_sf (sep : ascii) : list directive := [DU; DLit sep; DU].
(* "%u" *)
Definition fmt_s : list directive := [DU].
(* "%04d%c" *)
Definition fmt_year : list directive := [DD 4; DC].

Fixpoint count_digits (l : list ascii) : nat :=
  match l with
  | c :: r => if isdigit c then S (count_digits r) else O
  | [] => O
  end.

(** [switch (digit_count)]: tenths, hundredths, thousandths. *)
Definition frac_scale (digit_count : nat) : Z :=
  match digit_count with
  | 0%nat => 0
  | 1%nat => 100
  | 2%nat => 10
  | 3%nat => 1
  | _ => 1
  end.

(** The scale of the fraction, from the number of digits after the
    decimal point. *)
Definition frac_adj_of (str : list ascii) : Z :=
  let dp := match memchr dot str with
            | Some i => Some i
            | None => memchr comma str
            end in
  match dp with
  | None => 0
  | Some i => frac_scale (count_digits (drop (S i) str))
  end.

(** Convert a PSF length string to milliseconds. *)
Definition lengthToMs (str : list ascii) : outcome Z :=
  let frac_adj := frac_adj_of str in
  let vs := {| v_hour := None; v_min := None; v_sec := None; v_frac := None |} in
  (* hours:minutes:seconds.decimal *)
  let '(s, vs) := sscanf str (fmt_hmsf dot) [Hour; Min; Sec; Frac] vs in
  let '(s, vs) :=
    if negb (s =? 4) then sscanf str (fmt_hmsf comma) [Hour; Min; Sec; Frac] vs
    else (s, vs) in
  if s =? 4 then
    do hour <- rd (v_hour vs); do min <- rd (v_min vs);
    do sec <- rd (v_sec vs); do frac <- rd (v_frac vs);
    Ret (CInt.to_uint32
           (hour * 60 * 60 * 1000 + min * 60 * 1000 + sec * 1000 + frac * frac_adj))
  else
  (* hours:minutes:seconds *)
  let '(s, vs) := sscanf str fmt_hms [Hour; Min; Sec] vs in
  if s =? 3 then
    do hour <- rd (v_hour vs); do min <- rd (v_min vs); do sec <- rd (v_sec vs);
    Ret (CInt.to_uint32 (hour * 60 * 60 * 1000 + min * 60 * 1000 + sec * 1000))
  else
  (* minutes:seconds.decimal *)
  let '(s, vs) := sscanf str (fmt_msf dot) [Min; Sec; Frac] vs in
  let '(s, vs) :=
    if negb (s =? 3) then sscanf str (fmt_msf comma) [Min; Sec; Frac] vs
    else (s, vs) in
  if s =? 3 then
    do min <- rd (v_min vs); do sec <- rd (v_sec vs); do frac <- rd (v_frac vs);
    Ret (CInt.to_uint32 (min * 60 * 1000 + sec * 1000 + frac * frac_adj))
  else
  (* minutes:seconds *)
  let '(s, vs) := sscanf str fmt_ms [Min; Sec] vs in
  if s =? 2 then
    do min <- rd (v_min vs); do sec <- rd (v_sec vs);
    Ret (CInt.to_uint32 (min * 60 * 1000 + sec * 1000))
  else
  (* seconds.decimal *)
  let '(s, vs) := sscanf str (fmt_sf dot) [Sec; Frac] vs in
  let '(s, vs) :=
    if negb (s =? 2) then sscanf str (fmt_sf comma) [Sec; Frac] vs
    else (s, vs) in
  if s =? 2 then
    do min <- rd (v_min vs); do sec <- rd (v_sec vs); do frac <- rd (v_frac vs);
    Ret (CInt.to_uint32 (min * 60 * 1000 + sec * 1000 + frac * frac_adj))
  else
  (* seconds *)
  let '(s, vs) := sscanf str fmt_s [Sec] vs in
  if s =? 1 then
    do sec <- rd (v_sec vs);
    Ret sec
  else
    (* No matches. *)
    Ret 0.

Section Host.
Variable host_be : bool.

(** [cp1252_sjis_to_utf8], the conversion from the legacy 8-bit encoding
    to UTF-8, is not among the sources: it is a parameter.  It takes a
    C string. *)
Variable cp1252_sjis_to_utf8 : list ascii -> string.

Let ld := Mem.load host_be.

Record PSFPrivate : Type := mkPrivate {
  file : option RpFile.t;
  isValid : bool;
  fields : RomFields;
  metaData : option RomMetaData;
  psfHeader : list ascii
}.

Definition h_magic (h : list ascii) : list ascii := Mem.slice h 0 3.
Definition h_version (h : list ascii) : Z := ld h 3 1.
Definition h_reserved_size (h : list ascii) : Z := ld h 4 4.
Definition h_compressed_prg_length (h : list ascii) : Z := ld h 8 4.

(** What [parseTags] returns, the file after its reads, and the size of
    the buffer it allocated with [new char8_t[data_len_sz]]. *)
Record parsed_tags : Type := {
  tags : gmap string string;
  file_after : RpFile.t;
  allocated : Z
}.

(** Parse the tag section. *)
Definition parseTags (f : RpFile.t) (tag_addr : Z) : parsed_tags :=
  let kv : gmap string string := ∅ in
  (* Read the tag magic first. *)
  let '(tag_magic, f1) := RpFile.seekAndRead f tag_addr (Z.of_nat sizeof_tag_magic) in
  if negb (length tag_magic =? sizeof_tag_magic)%nat
  then {| tags := kv; file_after := f1; allocated := 0 |}
  else
    (* Read the rest of the file. *)
    let data_len := RpFile.size f1 - tag_addr - Z.of_nat sizeof_tag_magic in
    if data_len <=? 0
    then {| tags := kv; file_after := f1; allocated := 0 |}
    else
      let '(tag_data, f2) := RpFile.read f1 data_len in
      if negb (Z.of_nat (length tag_data) =? data_len)
      then {| tags := kv; file_after := f2; allocated := data_len |}
      else
        let '(kv, isUtf8) := tag_loop (length tag_data) tag_data (kv, false) in
        (* If we're not using UTF-8, convert the values. *)
        let kv := if negb isUtf8
                  then (fun v => cp1252_sjis_to_utf8 (c_str v)) <$> kv
                  else kv in
        {| tags := kv; file_after := f2; allocated := data_len |}.

(** Is a ROM image supported by this class? *)
Definition isRomSupported_static (info : option DetectInfo) : Z :=
  match info with
  | None => -1
  | Some i =>
    match hdr_pData i with
    | None => -1
    | Some p =>
      if negb (hdr_addr i =? 0) || (hdr_size i <? Z.of_nat sizeof_PSF_Header)
      then -1
      else if bool_decide (h_magic p = PSF_MAGIC) then 0
      else -1
    end
  end.

(** Read a PSF audio file. *)
Definition PSF_new (f : option RpFile.t) : PSFPrivate :=
  let hdr0 := replicate sizeof_PSF_Header zero in
  match f with
  | None => {| file := None; isValid := false; fields := []; metaData := None;
               psfHeader := hdr0 |}
  | Some f0 =>
    let '(got, f1) := RpFile.read (RpFile.rewind f0) (Z.of_nat sizeof_PSF_Header) in
    let hdr := Mem.blit hdr0 0 got in
    if negb (length got =? sizeof_PSF_Header)%nat
    then {| file := None; isValid := false; fields := []; metaData := None;
            psfHeader := hdr |}
    else
      let info := {| hdr_addr := 0; hdr_size := Z.of_nat sizeof_PSF_Header;
                     hdr_pData := Some hdr; ext := None; szFile := 0 |} in
      let valid := 0 <=? isRomSupported_static (Some info) in
      {| file := if valid then Some f1 else None; isValid := valid;
         fields := []; metaData := None; psfHeader := hdr |}
  end.

(** [tag_addr], computed in [off64_t]. *)
Definition tag_addr_of (hdr : list ascii) : Z :=
  Z.of_nat sizeof_PSF_Header +
  Mem.le_to_cpu host_be 4 (h_reserved_size hdr) +
  Mem.le_to_cpu host_be 4 (h_compressed_prg_length hdr).

(** [iter = tags.find(key); if (iter != tags.end()) addField_string(...)] *)
Definition add_tag_field (tg : gmap string string) (key label : string)
    (fs : RomFields) : RomFields :=
  match tg !! key with
  | Some v => addField_string fs label v
  | None => fs
  end.

(** Load field data. *)
Definition loadFieldData (d : PSFPrivate) : Z * PSFPrivate :=
  if negb (bool_decide (fields d = [])) then (0, d)
  else match file d with
  | None => (- CInt.EBADF, d)
  | Some f =>
    if negb (isValid d) then (- CInt.EIO, d)
    else
      let hdr := psfHeader d in
      let psf_version := h_version hdr in
      let fs := addField_string (fields d) "System"
        (match lkup sysname_lkup_tbl psf_version with
         | Some sysname => sysname
         | None => "Unknown (0x" +:+ Printf.fmt_02X psf_version +:+ ")"
         end) in
      (* Parse the tags. *)
      let r := parseTags f (tag_addr_of hdr) in
      let tg := tags r in
      let fs :=
        if negb (bool_decide (tg = ∅)) then
          let fs := add_tag_field tg "title" "Title" fs in
          let fs := add_tag_field tg "artist" "Artist" fs in
          let fs := add_tag_field tg "game" "Game" fs in
          let fs := add_tag_field tg "year" "Release Date" fs in
          let fs := add_tag_field tg "genre" "Genre" fs in
          let fs := add_tag_field tg "copyright" "Copyright" fs in
          let fs :=
            match tg !! getRippedByTagName psf_version with
            | Some v => addField_string fs "Ripped By" v
            | None => add_tag_field tg "psfby" "Ripped By" fs
            end in
          let fs := add_tag_field tg "volume" "Volume" fs in
          let fs := add_tag_field tg "length" "Duration" fs in
          let fs := add_tag_field tg "fade" "Fadeout Duration" fs in
          let fs := add_tag_field tg "comment" "Comment" fs in
          fs
        else fs in
      (Z.of_nat (length fs),
       {| file := Some (file_after r); isValid := isValid d; fields := fs;
          metaData := metaData d; psfHeader := hdr |})
  end.

Definition add_tag_meta (tg : gmap string string) (key : string) (p : Property)
    (m : RomMetaData) : RomMetaData :=
  match tg !! key with
  | Some v => addMetaData m p (MString v)
  | None => m
  end.

(** The release year of a "year" tag: only the year is taken. *)
Definition add_year (tg : gmap string string) (m : RomMetaData) : RomMetaData :=
  match tg !! "year"%string with
  | Some v =>
      match Scanf.scan fmt_year (c_str v) [] with
      | (s, year :: rest) =>
          if (s =? 1) ||
             ((s =? 2) && bool_decide (rest = [45] \/ rest = [47]))
          then
            if (0 <=? year) && (year <? 10000)
            then addMetaData m ReleaseYear (MUInt year)
            else m
          else m
      | (_, []) => m
      end
  | None => m
  end.

(** Load metadata properties. *)
Definition loadMetaData (d : PSFPrivate) : outcome (Z * PSFPrivate) :=
  match metaData d with
  | Some _ => Ret (0, d)
  | None =>
    match file d with
    | None => Ret (- CInt.EBADF, d)
    | Some f =>
      if negb (isValid d) then Ret (- CInt.EIO, d)
      else
        let hdr := psfHeader d in
        (* Attempt to parse the tags before doing anything else. *)
        let r := parseTags f (tag_addr_of hdr) in
        let tg := tags r in
        let d := {| file := Some (file_after r); isValid := isValid d;
                    fields := fields d; metaData := None; psfHeader := hdr |} in
        if bool_decide (tg = ∅) then
          (* No tags. *)
          Ret (- CInt.EIO, d)
        else
          let m : RomMetaData := [] in
          let m := add_tag_meta tg "title" Title m in
          let m := add_tag_meta tg "artist" Artist m in
          let m := add_tag_meta tg "game" Album m in
          let m := add_year tg m in
          let m := add_tag_meta tg "genre" Genre m in
          let m := add_tag_meta tg "copyright" Copyright m in
          do m <- match tg !! "length"%string with
                  | Some v =>
                      do ms <- lengthToMs (c_str v);
                      Ret (addMetaData m Duration (MInteger ms))
                  | None => Ret m
                  end;
          let m := add_tag_meta tg "comment" Subject m in
          Ret (Z.of_nat (length m),
               {| file := file d; isValid := isValid d; fields := fields d;
                  metaData := Some m; psfHeader := hdr |})
    end
  end.

End Host.

(** A PSF file: header, no reserved area, no program, then the tag
    section (or nothing). *)
Definition sample_header : list ascii :=
  PSF_MAGIC ++ map Mem.chr [0x01;  0; 0; 0; 0;  0; 0; 0; 0;  0; 0; 0; 0].

Definition sample_file (tag_text : string) : list ascii :=
  sample_header ++ Mem.bytes_of "[TAG]" ++ Mem.bytes_of tag_text.

(** A PSF file whose tag section is 20000 bytes long. *)
Definition long_tag_file : list ascii :=
  sample_header ++ Mem.bytes_of "[TAG]" ++ replicate (Z.to_nat 20000) (Mem.chr 65).

(** A PSF file whose tag section gives the key [a] twice. *)
Definition duplicate_key_file : list ascii :=
  sample_header ++ Mem.bytes_of "[TAG]" ++
  Mem.bytes_of "a=1" ++ [newline] ++ Mem.bytes_of "a=2".

(** A PSF file with three tags, and its instance. *)
Definition tagged_file : list ascii :=
  sample_header ++ Mem.bytes_of "[TAG]" ++
  Mem.bytes_of "TITLE=Intro" ++ [newline] ++ Mem.bytes_of "length=1:02.5" ++
  [newline] ++ Mem.bytes_of "year=1998".

Definition tagged_instance : PSFPrivate :=
  PSF_new (Some (RpFile.open tagged_file)).

Definition tagged_open_file : RpFile.t :=
  match file tagged_instance with
  | Some f => f
  | None => RpFile.open []
  end.

(** The detection information the constructor builds for the sample
    header. *)
Definition sample_header_info : option DetectInfo :=
  Some {| hdr_addr := 0; hdr_size := Z.of_nat sizeof_PSF_Header;
          hdr_pData := Some sample_header; ext := None; szFile := 0 |}.

(** A PSF file without a tag section, and its instance. *)
Definition untagged_instance : PSFPrivate :=
  PSF_new (Some (RpFile.open sample_header)).

Definition untagged_open_file : RpFile.t :=
  match file untagged_instance with
  | Some f => f
  | None => RpFile.open []
  end.

End PSF.


(** * Facts *)

(** ** Bytes and integers *)
Module MemFacts.
Import Mem.

Lemma u8_range (b : ascii) : 0 <= u8 b < 256.
Proof.
  unfold u8. pose proof (N_ascii_bounded b) as Hb. lia.
Qed.

Lemma chr_u8 (b : ascii) : chr (u8 b) = b.
Proof.
  unfold chr. rewrite Z.mod_small by apply u8_range.
  unfold u8. rewrite N2Z.id. apply ascii_N_embedding.
Qed.

Lemma u8_chr (z : Z) : 0 <= z < 256 -> u8 (chr z) = z.
Proof.
  intros Hz. unfold u8, chr. rewrite Z.mod_small by lia.
  rewrite N_ascii_embedding by lia. lia.
Qed.

Lemma u8_chr_mod (z : Z) : u8 (chr z) = z mod 256.
Proof.
  unfold u8, chr. pose proof (Z.mod_pos_bound z 256).
  rewrite N_ascii_embedding by lia. lia.
Qed.

Lemma chr_add_mul (b : ascii) (v : Z) : chr (u8 b + 256 * v) = b.
Proof.
  unfold chr. replace ((u8 b + 256 * v) mod 256) with (u8 b).
  - unfold u8. rewrite N2Z.id. apply ascii_N_embedding.
  - pose proof (u8_range b). apply Z.mod_unique_pos with (q := v); lia.
Qed.

Lemma le_val_range (l : list ascii) : 0 <= le_val l < 256 ^ Z.of_nat (length l).
Proof.
  induction l as [|b l IH]; simpl le_val.
  - simpl. lia.
  - pose proof (u8_range b).
    rewrite length_cons, Nat2Z.inj_succ, Z.pow_succ_r by lia. lia.
Qed.

Lemma length_le_bytes (n : nat) (z : Z) : length (le_bytes n z) = n.
Proof.
  revert z. induction n as [|n IH]; intros z; simpl; auto.
Qed.

Lemma le_bytes_le_val (l : list ascii) : le_bytes (length l) (le_val l) = l.
Proof.
  induction l as [|b l IH]; simpl; auto.
  rewrite chr_add_mul. f_equal.
  pose proof (u8_range b).
  replace ((u8 b + 256 * le_val l) / 256) with (le_val l); auto.
  apply Z.div_unique_pos with (r := u8 b); lia.
Qed.

Lemma le_val_le_bytes (n : nat) (z : Z) :
  le_val (le_bytes n z) = z mod 256 ^ Z.of_nat n.
Proof.
  revert z. induction n as [|n IH]; intros z.
  - simpl. now rewrite Z.mod_1_r.
  - cbn [le_bytes le_val]. rewrite IH, u8_chr_mod.
    rewrite Nat2Z.inj_succ, Z.pow_succ_r by lia.
    rewrite Z.rem_mul_r by lia. lia.
Qed.

Lemma be_bytes_be_val (l : list ascii) : be_bytes (length l) (be_val l) = l.
Proof.
  unfold be_bytes, be_val. rewrite <- (length_rev l), le_bytes_le_val.
  apply rev_involutive.
Qed.

Lemma be_val_be_bytes (n : nat) (z : Z) :
  be_val (be_bytes n z) = z mod 256 ^ Z.of_nat n.
Proof.
  unfold be_bytes, be_val. rewrite rev_involutive. apply le_val_le_bytes.
Qed.

Lemma length_host_bytes (h : bool) (n : nat) (z : Z) :
  length (host_bytes h n z) = n.
Proof.
  unfold host_bytes, be_bytes. destruct h;
    rewrite ?length_rev; apply length_le_bytes.
Qed.

Lemma host_bytes_host_val (h : bool) (l : list ascii) :
  host_bytes h (length l) (host_val h l) = l.
Proof.
  unfold host_bytes, host_val. destruct h;
    [apply be_bytes_be_val | apply le_bytes_le_val].
Qed.

Lemma host_val_host_bytes (h : bool) (n : nat) (z : Z) :
  host_val h (host_bytes h n z) = z mod 256 ^ Z.of_nat n.
Proof.
  unfold host_bytes, host_val. destruct h;
    [apply be_val_be_bytes | apply le_val_le_bytes].
Qed.

Lemma host_val_range (h : bool) (l : list ascii) :
  0 <= host_val h l < 256 ^ Z.of_nat (length l).
Proof.
  unfold host_val, be_val. destruct h.
  - rewrite <- (length_rev l). apply le_val_range.
  - apply le_val_range.
Qed.

(** A host integer equals [z] exactly when its bytes are those of [z]. *)
Lemma host_val_eq_iff (h : bool) (n : nat) (l : list ascii) (z : Z) :
  length l = n -> 0 <= z < 256 ^ Z.of_nat n ->
  host_val h l = z <-> l = host_bytes h n z.
Proof.
  intros Hl Hz. split.
  - intros <-. subst n. symmetry. apply host_bytes_host_val.
  - intros ->. rewrite host_val_host_bytes. apply Z.mod_small. lia.
Qed.

Lemma swab_host_val (h : bool) (l : list ascii) :
  swab (length l) (host_val h l) = host_val (negb h) l.
Proof.
  unfold swab, host_val. destruct h; simpl.
  - unfold be_val at 2. rewrite <- (length_rev l), le_bytes_le_val.
    unfold be_val. now rewrite rev_involutive.
  - now rewrite le_bytes_le_val.
Qed.

Lemma be_to_cpu_host_val (h : bool) (l : list ascii) :
  be_to_cpu h (length l) (host_val h l) = be_val l.
Proof.
  unfold be_to_cpu. now rewrite host_bytes_host_val.
Qed.

Lemma le_to_cpu_host_val (h : bool) (l : list ascii) :
  le_to_cpu h (length l) (host_val h l) = le_val l.
Proof.
  unfold le_to_cpu. now rewrite host_bytes_host_val.
Qed.

Lemma length_slice (buf : list ascii) (off n : nat) :
  (off + n <= length buf)%nat -> length (slice buf off n) = n.
Proof.
  intros H. unfold slice. rewrite length_take, length_drop. lia.
Qed.

(** A read that fills a cleared buffer of its own size replaces it. *)
Lemma blit_full (buf src : list ascii) :
  length src = length buf -> blit buf 0 src = src.
Proof.
  intros H. unfold blit. simpl.
  rewrite Nat.sub_0_r, <- H, firstn_all.
  rewrite H, drop_all. apply app_nil_r.
Qed.

Lemma lookup_slice (buf : list ascii) (off n i : nat) :
  slice buf off n !! i =
  if decide (i < n)%nat then buf !! (off + i)%nat else None.
Proof.
  unfold slice. rewrite lookup_take.
  destruct (decide _); [apply lookup_drop | reflexivity].
Qed.

Lemma lookup_blit (buf src : list ascii) (off i : nat) :
  (off + length src <= length buf)%nat ->
  blit buf off src !! i =
  if decide (off <= i < off + length src)%nat then src !! (i - off)%nat else buf !! i.
Proof.
  intros H. unfold blit. rewrite (take_ge src) by lia.
  destruct (decide _) as [Hin|Hout].
  - rewrite lookup_app_r by (rewrite length_take; lia).
    rewrite length_take, Nat.min_l by lia.
    rewrite lookup_app_l by lia. reflexivity.
  - destruct (decide (i < off)%nat).
    + rewrite lookup_app_l by (rewrite length_take; lia).
      apply lookup_take_lt; lia.
    + rewrite lookup_app_r by (rewrite length_take; lia).
      rewrite length_take, Nat.min_l by lia.
      rewrite lookup_app_r by lia. rewrite lookup_drop. f_equal. lia.
Qed.

Lemma length_blit (buf src : list ascii) (off : nat) :
  (off + length src <= length buf)%nat -> length (blit buf off src) = length buf.
Proof.
  intros H. unfold blit. rewrite (take_ge src) by lia.
  rewrite !length_app, length_take, length_drop. lia.
Qed.

(** What was written is read back. *)
Lemma slice_blit_same (buf src : list ascii) (off : nat) :
  (off + length src <= length buf)%nat ->
  slice (blit buf off src) off (length src) = src.
Proof.
  intros H. apply list_eq. intros i.
  rewrite lookup_slice, lookup_blit by lia.
  destruct (decide (i < length src)%nat).
  - rewrite decide_True by lia. f_equal. lia.
  - symmetry. apply lookup_ge_None_2. lia.
Qed.

(** A write leaves the bytes outside its range alone. *)
Lemma slice_blit_other (buf src : list ascii) (off o n : nat) :
  (off + length src <= length buf)%nat ->
  (o + n <= off \/ off + length src <= o)%nat ->
  slice (blit buf off src) o n = slice buf o n.
Proof.
  intros H Hdis. apply list_eq. intros i.
  rewrite !lookup_slice, lookup_blit by lia.
  destruct (decide (i < n)%nat); [|reflexivity].
  rewrite decide_False by lia. reflexivity.
Qed.

End MemFacts.

(** ** BRSTM *)
Module BRSTMFacts.
Import Mem MemFacts RomData BRSTM.

Lemma host_val_inj (h : bool) (l1 l2 : list ascii) :
  length l1 = length l2 -> host_val h l1 = host_val h l2 -> l1 = l2.
Proof.
  intros Hl Hv. rewrite <- (host_bytes_host_val h l1), <- (host_bytes_host_val h l2).
  now rewrite Hl, Hv.
Qed.

Lemma le_bytes_zero (n : nat) : le_bytes n 0 = replicate n zero.
Proof.
  induction n as [|n IH]; cbn [le_bytes replicate]; auto.
  change (0 / 256) with 0. rewrite IH. reflexivity.
Qed.

Lemma host_val_zero_iff (h : bool) (l : list ascii) :
  host_val h l = 0 <-> l = replicate (length l) zero.
Proof.
  rewrite (host_val_eq_iff h (length l)); auto.
  - unfold host_bytes, be_bytes. rewrite le_bytes_zero.
    destruct h; [|tauto].
    replace (rev (replicate (length l) zero)) with (replicate (length l) zero); [tauto|].
    symmetry. rewrite rev_alt. apply (reverse_replicate (length l) zero).
  - split; [lia|]. apply Z.pow_pos_nonneg; lia.
Qed.

Lemma load_zero_iff (h : bool) (p : list ascii) (off n : nat) :
  (off + n <= length p)%nat ->
  (load h p off n =? 0) = false <-> nonzero (slice p off n).
Proof.
  intros Hlen. unfold load, nonzero. rewrite Z.eqb_neq, host_val_zero_iff. tauto.
Qed.

Lemma magic_test (h : bool) (p : list ascii) (off : nat) (magic : Z) :
  (off + 4 <= length p)%nat ->
  (load h p off 4 =? cpu_to_be h 4 magic) = true <-> slice p off 4 = be_bytes 4 magic.
Proof.
  intros Hlen. rewrite Z.eqb_eq. unfold load, cpu_to_be. split.
  - apply host_val_inj. rewrite length_slice by lia.
    unfold be_bytes. now rewrite length_rev, length_le_bytes.
  - now intros ->.
Qed.

Lemma bom_test (h : bool) (p : list ascii) :
  (6 <= length p)%nat ->
  ((h_bom h p =? BRSTM_BOM_HOST) = true <->
     slice p 4 2 = if h then bom_big_endian else bom_little_endian) /\
  ((h_bom h p =? BRSTM_BOM_SWAP) = true <->
     slice p 4 2 = if h then bom_little_endian else bom_big_endian).
Proof.
  intros Hlen. unfold h_bom, load. rewrite !Z.eqb_eq.
  rewrite !(host_val_eq_iff h 2) by
    (try (apply length_slice; lia); unfold BRSTM_BOM_HOST, BRSTM_BOM_SWAP; simpl; lia).
  destruct h; split; reflexivity.
Qed.

Lemma bom_values_differ : bom_big_endian <> bom_little_endian.
Proof. discriminate. Qed.

(** The detector returns 0 when the rule of the specification holds and
    -1 when it does not. *)
Lemma isRomSupported_static_cases (h : bool) (info : option DetectInfo) :
  wf_info info ->
  (isRomSupported_static h info = 0 /\ detect_spec info) \/
  (isRomSupported_static h info = -1 /\ ~ detect_spec info).
Proof.
  intros Hwf.
  destruct info as [i|]; cycle 1.
  { right. split; [reflexivity|]. intros (i & p & Hi & _). discriminate. }
  unfold isRomSupported_static. destruct (hdr_pData i) as [p|] eqn:Hp; cycle 1.
  { right. split; [reflexivity|].
    intros (i' & p & Hi & Hp' & _). injection Hi as <-. congruence. }
  specialize (Hwf i p eq_refl Hp).
  assert (Hd : detect_spec (Some i) <->
    (hdr_addr i = 0 /\ Z.of_nat sizeof_BRSTM_Header <= hdr_size i /\
     slice p 0 4 = bytes_of "RSTM" /\
     (slice p 4 2 = bom_big_endian \/ slice p 4 2 = bom_little_endian) /\
     2 <= stream_val p (slice p 14 2) /\
     nonzero (slice p 16 4) /\ nonzero (slice p 20 4) /\
     nonzero (slice p 32 4) /\ nonzero (slice p 36 4))).
  { split.
    - intros (i' & p' & Hi & Hp' & H). injection Hi as <-.
      rewrite Hp in Hp'. injection Hp' as <-. exact H.
    - intros H. exists i, p. auto. }
  rewrite Hd. clear Hd.
  destruct (hdr_addr i =? 0) eqn:Ha; simpl; cycle 1.
  { right. split; [reflexivity|]. intros [H _]. apply Z.eqb_neq in Ha. lia. }
  apply Z.eqb_eq in Ha.
  destruct (hdr_size i <? Z.of_nat sizeof_BRSTM_Header) eqn:Hs; simpl.
  { right. split; [reflexivity|]. intros (_ & H & _). apply Z.ltb_lt in Hs. lia. }
  apply Z.ltb_ge in Hs.
  assert (Hlen : (64 <= length p)%nat) by (unfold sizeof_BRSTM_Header in Hs; lia).
  destruct (h_magic h p =? cpu_to_be h 4 BRSTM_MAGIC) eqn:Hm; simpl; cycle 1.
  { right. split; [reflexivity|]. intros (_ & _ & H & _).
    apply (magic_test h p 0 BRSTM_MAGIC) in H; [|lia].
    unfold h_magic in Hm. congruence. }
  apply (magic_test h p 0 BRSTM_MAGIC) in Hm; [|lia].
  assert (Hl6 : (6 <= length p)%nat) by lia.
  unfold stream_val.
  destruct (h_bom h p =? BRSTM_BOM_HOST) eqn:Hbh; simpl.
  - (* host byte order *)
    apply (bom_test h p Hl6) in Hbh.
    assert (Hcc : h_chunk_count h p =
                  if bool_decide (slice p 4 2 = bom_big_endian)
                  then be_val (slice p 14 2) else le_val (slice p 14 2)).
    { rewrite Hbh. unfold h_chunk_count, load, host_val. destruct h.
      - now rewrite bool_decide_eq_true_2.
      - rewrite bool_decide_eq_false_2; [reflexivity | discriminate]. }
    rewrite <- Hcc.
    destruct (h_chunk_count h p <? 2) eqn:Hc.
    { right. split; [reflexivity|]. intros (_ & _ & _ & _ & H & _).
      apply Z.ltb_lt in Hc. lia. }
    apply Z.ltb_ge in Hc.
    destruct (h_head_offset h p =? 0) eqn:H1; simpl.
    { right. split; [reflexivity|]. intros (_ & _ & _ & _ & _ & H & _).
      apply (load_zero_iff h) in H; [|lia]. unfold h_head_offset in H1. congruence. }
    destruct (h_head_size h p =? 0) eqn:H2; simpl.
    { right. split; [reflexivity|]. intros (_ & _ & _ & _ & _ & _ & H & _).
      apply (load_zero_iff h) in H; [|lia]. unfold h_head_size in H2. congruence. }
    destruct (h_data_offset h p =? 0) eqn:H3; simpl.
    { right. split; [reflexivity|]. intros (_ & _ & _ & _ & _ & _ & _ & H & _).
      apply (load_zero_iff h) in H; [|lia]. unfold h_data_offset in H3. congruence. }
    destruct (h_data_size h p =? 0) eqn:H4; simpl.
    { right. split; [reflexivity|]. intros (_ & _ & _ & _ & _ & _ & _ & _ & H).
      apply (load_zero_iff h) in H; [|lia]. unfold h_data_size in H4. congruence. }
    left. split; [reflexivity|].
    repeat split; auto; try lia;
      try (apply (load_zero_iff h); [lia | assumption]).
    destruct h; auto.
  - destruct (h_bom h p =? BRSTM_BOM_SWAP) eqn:Hbs; simpl; cycle 1.
    { right. split; [reflexivity|]. intros (_ & _ & _ & H & _).
      destruct (bom_test h p Hl6) as [Hhost Hswap].
      destruct h, H as [H|H];
        (apply Hhost in H || apply Hswap in H); congruence. }
    (* swapped byte order *)
    apply (bom_test h p Hl6) in Hbs.
    assert (Hcc : swab 2 (h_chunk_count h p) =
                  if bool_decide (slice p 4 2 = bom_big_endian)
                  then be_val (slice p 14 2) else le_val (slice p 14 2)).
    { rewrite Hbs. unfold h_chunk_count, load.
      replace 2%nat with (length (slice p 14 2)) at 1 by (apply length_slice; lia).
      rewrite swab_host_val. unfold host_val. destruct h; simpl; reflexivity. }
    rewrite <- Hcc.
    destruct (swab 2 (h_chunk_count h p) <? 2) eqn:Hc.
    { right. split; [reflexivity|]. intros (_ & _ & _ & _ & H & _).
      apply Z.ltb_lt in Hc. lia. }
    apply Z.ltb_ge in Hc.
    destruct (h_head_offset h p =? 0) eqn:H1; simpl.
    { right. split; [reflexivity|]. intros (_ & _ & _ & _ & _ & H & _).
      apply (load_zero_iff h) in H; [|lia]. unfold h_head_offset in H1. congruence. }
    destruct (h_head_size h p =? 0) eqn:H2; simpl.
    { right. split; [reflexivity|]. intros (_ & _ & _ & _ & _ & _ & H & _).
      apply (load_zero_iff h) in H; [|lia]. unfold h_head_size in H2. congruence. }
    destruct (h_data_offset h p =? 0) eqn:H3; simpl.
    { right. split; [reflexivity|]. intros (_ & _ & _ & _ & _ & _ & _ & H & _).
      apply (load_zero_iff h) in H; [|lia]. unfold h_data_offset in H3. congruence. }
    destruct (h_data_size h p =? 0) eqn:H4; simpl.
    { right. split; [reflexivity|]. intros (_ & _ & _ & _ & _ & _ & _ & _ & H).
      apply (load_zero_iff h) in H; [|lia]. unfold h_data_size in H4. congruence. }
    left. split; [reflexivity|].
    repeat split; auto; try lia;
      try (apply (load_zero_iff h); [lia | assumption]).
    destruct h; auto.
Qed.

(** C3: the detector returns a variant id >= 0 exactly when the header
    buffer has at least 64 bytes at offset 0, the magic matches, the
    byte-order mark has one of its two values, the chunk count in the
    announced byte order is at least 2 and the HEAD and DATA offsets and
    sizes are all non-zero; in every other case, also for a null info or
    a null buffer, it returns -1. *)
Theorem isRomSupported_static_iff (h : bool) (info : option DetectInfo) :
  wf_info info ->
  (0 <= isRomSupported_static h info <-> detect_spec info) /\
  (~ detect_spec info -> isRomSupported_static h info = -1).
Proof.
  intros Hwf.
  destruct (isRomSupported_static_cases h info Hwf) as [[-> Hd]|[-> Hd]].
  - split; [split; [auto | lia] | tauto].
  - split; [split; [lia | tauto] | auto].
Qed.

Lemma load_nonneg (h : bool) (p : list ascii) (off n : nat) : 0 <= load h p off n.
Proof. unfold load. apply host_val_range. Qed.

Lemma swab_nonneg (n : nat) (x : Z) : 0 <= swab n x.
Proof.
  unfold swab, be_val. apply le_val_range.
Qed.

Lemma norm32_nonneg (h : bool) (bytes p : list ascii) (off : nat) :
  0 <= norm32 h bytes (load h p off 4).
Proof.
  unfold norm32. destruct (_ =? _); [apply swab_nonneg | apply load_nonneg].
Qed.

Lemma read_header (f : RpFile.t) (n : nat) :
  RpFile.read (RpFile.rewind f) (Z.of_nat n) =
  (take n (RpFile.data f),
   {| RpFile.data := RpFile.data f;
      RpFile.pos := Z.of_nat (length (take n (RpFile.data f)));
      RpFile.nreads := S (RpFile.nreads f);
      RpFile.nbytes := RpFile.nbytes f + Z.of_nat (length (take n (RpFile.data f))) |}).
Proof.
  unfold RpFile.read, RpFile.rewind. cbn [RpFile.data RpFile.pos RpFile.nreads RpFile.nbytes].
  change (Z.to_nat 0) with 0%nat. rewrite Nat2Z.id, drop_0. reflexivity.
Qed.

Lemma seekAndRead_slice (f : RpFile.t) (off : Z) (n : nat) :
  0 <= off ->
  RpFile.seekAndRead f off (Z.of_nat n) =
  (slice (RpFile.data f) (Z.to_nat off) n,
   {| RpFile.data := RpFile.data f;
      RpFile.pos := off + Z.of_nat (length (slice (RpFile.data f) (Z.to_nat off) n));
      RpFile.nreads := S (RpFile.nreads f);
      RpFile.nbytes :=
        RpFile.nbytes f + Z.of_nat (length (slice (RpFile.data f) (Z.to_nat off) n)) |}).
Proof.
  intros Hoff. unfold RpFile.seekAndRead, RpFile.read.
  destruct (off <? 0) eqn:E; [apply Z.ltb_lt in E; lia|].
  cbn [RpFile.data RpFile.pos RpFile.nreads RpFile.nbytes].
  rewrite Nat2Z.id. reflexivity.
Qed.

Lemma BRSTM_new_cases (h : bool) (f : RpFile.t) :
  let d := BRSTM_new h (Some f) in
  fields d = [] /\ metaData d = None /\
  ((parse_failure h (RpFile.data f) /\ isValid d = false /\ file d = None) \/
   (~ parse_failure h (RpFile.data f) /\ isValid d = true /\
    exists f', file d = Some f' /\ RpFile.data f' = RpFile.data f)).
Proof.
  intros d. subst d. unfold BRSTM_new. rewrite read_header.
  lazy beta iota zeta.
  fold (header_of (RpFile.data f)).
  set (bytes := RpFile.data f).
  cbn [brstmHeader headChunk1 init needsByteswap].
  unfold brstm32_to_cpu. cbn [needsByteswap].
  destruct (length (header_of bytes) =? sizeof_BRSTM_Header)%nat eqn:Hlen; cbn [negb].
  2: { cbn. repeat split. left. repeat split.
       apply short_primary_header. apply Nat.eqb_neq in Hlen.
       unfold header_of in Hlen. rewrite length_take in Hlen. lia. }
  apply Nat.eqb_eq in Hlen.
  rewrite blit_full by (rewrite length_replicate; exact Hlen).
  fold (info_of (header_of bytes)).
  destruct (0 <=? isRomSupported_static h (info_of (header_of bytes))) eqn:Hdet; cbn [negb].
  2: { cbn. repeat split. left. repeat split.
       apply detection_failed. apply Z.leb_gt in Hdet. exact Hdet. }
  apply Z.leb_le in Hdet.
  change (if h_bom h (header_of bytes) =? BRSTM_BOM_SWAP
          then swab 4 (h_head_offset h (header_of bytes))
          else h_head_offset h (header_of bytes)) with (head_offset_of h bytes).
  change (if h_bom h (header_of bytes) =? BRSTM_BOM_SWAP
          then swab 4 (h_head_size h (header_of bytes))
          else h_head_size h (header_of bytes)) with (head_size_of h bytes).
  destruct ((head_offset_of h bytes =? 0) ||
            (head_size_of h bytes <? Z.of_nat sizeof_BRSTM_HEAD_Header)) eqn:Hb.
  { cbn. repeat split. left. repeat split.
    apply head_bounds_failed. apply orb_true_iff in Hb.
    rewrite Z.eqb_eq, Z.ltb_lt in Hb. exact Hb. }
  apply orb_false_iff in Hb. rewrite Z.eqb_neq, Z.ltb_ge in Hb. destruct Hb as [Hb1 Hb2].
  rewrite seekAndRead_slice by (apply norm32_nonneg).
  lazy beta iota zeta. cbn [RpFile.data].
  fold (head_header_of h bytes).
  destruct (length (head_header_of h bytes) =? sizeof_BRSTM_HEAD_Header)%nat eqn:Hhl;
    cbn [negb].
  2: { cbn. repeat split. left. repeat split.
       apply head_read_failed. apply Nat.eqb_neq in Hhl.
       unfold head_header_of, slice in *. rewrite length_take in *. lia. }
  apply Nat.eqb_eq in Hhl.
  destruct (hh_magic h (head_header_of h bytes) =? cpu_to_be h 4 BRSTM_HEAD_MAGIC) eqn:Hhm;
    cbn [negb].
  2: { cbn. repeat split. left. repeat split.
       apply head_magic_mismatch. intros E.
       apply (magic_test h _ 0 BRSTM_HEAD_MAGIC) in E; [|rewrite Hhl; cbv; lia].
       unfold hh_magic in Hhm. congruence. }
  apply (magic_test h _ 0 BRSTM_HEAD_MAGIC) in Hhm; [|rewrite Hhl; cbv; lia].
  change (if h_bom h (header_of bytes) =? BRSTM_BOM_SWAP
          then swab 4 (hh_head1_offset h (head_header_of h bytes))
          else hh_head1_offset h (head_header_of h bytes))
    with (head1_offset_of h bytes).
  destruct (head1_offset_of h bytes <? Z.of_nat sizeof_BRSTM_HEAD_Header - 8) eqn:Hh1.
  { cbn. repeat split. left. repeat split.
    apply head1_bounds_failed. apply Z.ltb_lt in Hh1. exact Hh1. }
  apply Z.ltb_ge in Hh1.
  rewrite seekAndRead_slice by (unfold CInt.to_uint32; apply Z.mod_pos_bound; lia).
  lazy beta iota zeta. cbn [RpFile.data].
  fold (chunk1_of h bytes).
  destruct (length (chunk1_of h bytes) =? sizeof_BRSTM_HEAD_Chunk1)%nat eqn:Hcl;
    cbn [negb].
  2: { cbn. repeat split. left. repeat split.
       apply chunk1_read_failed. apply Nat.eqb_neq in Hcl.
       unfold chunk1_of, slice in *. rewrite length_take in *. lia. }
  apply Nat.eqb_eq in Hcl.
  cbn [fields metaData isValid file].
  repeat split. right. split; [|split; [reflexivity|eexists; split; reflexivity]].
  intros [H|H|H|H|H|H|H].
  - unfold header_of in Hlen. rewrite length_take in Hlen. lia.
  - lia.
  - lia.
  - lia.
  - apply H. rewrite Hhm. reflexivity.
  - lia.
  - lia.
Qed.

(** C2: whenever the parser fails (short primary header, failed
    detection, failed bounds check on a chunk offset or size, mismatch of
    the secondary chunk magic, failed seek or read of a chunk), the
    instance is not valid, its file handle is null, it holds no field and
    no metadata, and loading fields or metadata returns a negative error
    code and leaves the instance as it is. *)
Theorem parse_failure_invalidates (h : bool) (f : RpFile.t) :
  parse_failure h (RpFile.data f) ->
  let d := BRSTM_new h (Some f) in
  isValid d = false /\ file d = None /\ fields d = [] /\ metaData d = None /\
  loadFieldData h d = (- CInt.EBADF, d) /\
  loadMetaData h d = Ret (- CInt.EBADF, d).
Proof.
  intros Hfail d.
  destruct (BRSTM_new_cases h f) as (Hf & Hm & [(_ & Hv & Hfile)|(Hok & _)]);
    [|contradiction].
  fold d in Hf, Hm, Hv, Hfile.
  repeat split; auto.
  - unfold loadFieldData. rewrite Hf, Hfile. reflexivity.
  - unfold loadMetaData. rewrite Hm, Hfile. reflexivity.
Qed.

(** The converse: a file that passes every check gives a valid instance
    that keeps the file open. *)
Lemma parse_success_valid (h : bool) (f : RpFile.t) :
  ~ parse_failure h (RpFile.data f) ->
  let d := BRSTM_new h (Some f) in
  isValid d = true /\ fields d = [] /\ metaData d = None /\
  exists f', file d = Some f' /\ RpFile.data f' = RpFile.data f.
Proof.
  intros Hok d.
  destruct (BRSTM_new_cases h f) as (Hf & Hm & [(Hfail & _)|(_ & Hv & Hfile)]);
    [contradiction|].
  fold d in Hf, Hm, Hv, Hfile. auto.
Qed.

(** A null file handle gives an instance that is not valid either. *)
Lemma BRSTM_new_null (h : bool) :
  let d := BRSTM_new h None in
  isValid d = false /\ file d = None /\
  loadFieldData h d = (- CInt.EBADF, d) /\ loadMetaData h d = Ret (- CInt.EBADF, d).
Proof. cbn. auto. Qed.

(** The detector does not depend on the byte order of the host. *)
Lemma isRomSupported_static_host_independent (info : option DetectInfo) :
  wf_info info ->
  isRomSupported_static true info = isRomSupported_static false info.
Proof.
  intros Hwf.
  destruct (isRomSupported_static_cases true info Hwf) as [[-> Hd]|[-> Hd]];
    destruct (isRomSupported_static_cases false info Hwf) as [[-> Hd']|[-> Hd']];
    tauto.
Qed.

(** The header of the sample file is accepted. *)
Lemma isRomSupported_static_iff_witness :
  wf_info sample_info /\
  (0 <= isRomSupported_static false sample_info <-> detect_spec sample_info).
Proof.
  assert (Hwf : wf_info sample_info).
  { intros i p Hi Hp. injection Hi as <-. injection Hp as <-. reflexivity. }
  split; [exact Hwf|].
  apply (isRomSupported_static_iff false sample_info Hwf).
Defined.

(** A file that ends inside the first part of its HEAD chunk. *)
Lemma parse_failure_invalidates_witness :
  parse_failure false (RpFile.data (RpFile.open truncated_file)) /\
  isValid (BRSTM_new false (Some (RpFile.open truncated_file))) = false.
Proof.
  assert (Hfail : parse_failure false (RpFile.data (RpFile.open truncated_file))).
  { apply chunk1_read_failed. vm_compute. lia. }
  split; [exact Hfail|].
  apply (parse_failure_invalidates false (RpFile.open truncated_file) Hfail).
Defined.

(** *** Loading twice *)
Lemma loadFieldData_first (h : bool) (d : BRSTMPrivate) (f : RpFile.t) :
  isValid d = true -> file d = Some f -> fields d = [] ->
  exists d1,
    loadFieldData h d = (Z.of_nat (length (fields d1)), d1) /\
    (7 <= length (fields d1) <= 8)%nat /\
    file d1 = Some f /\ isValid d1 = true /\ metaData d1 = metaData d.
Proof.
  intros Hv Hf Hfs. unfold loadFieldData. rewrite Hfs, Hf, Hv.
  cbn [bool_decide decide_rel negb]. rewrite bool_decide_eq_true_2 by reflexivity.
  cbn [negb]. lazy zeta.
  match goal with |- ex (fun d1 => (_, ?r) = _ /\ _) => exists r end.
  split; [reflexivity|].
  cbn [fields file isValid metaData].
  unfold addField_string, addField_string_numeric.
  destruct (negb (c1_loop_flag h (headChunk1 d) =? 0));
    rewrite ?length_app; cbn [length]; repeat split; lia.
Qed.

Lemma loadFieldData_again (h : bool) (d : BRSTMPrivate) :
  fields d <> [] -> loadFieldData h d = (0, d).
Proof.
  intros Hne. unfold loadFieldData. now rewrite bool_decide_eq_false_2.
Qed.

Lemma loadMetaData_first (h : bool) (d : BRSTMPrivate) (f : RpFile.t) :
  isValid d = true -> file d = Some f -> metaData d = None ->
  brstm16_to_cpu d (c1_sample_rate h (headChunk1 d)) <> 0 ->
  exists d1 m,
    loadMetaData h d = Ret (3, d1) /\ metaData d1 = Some m /\ length m = 3%nat /\
    file d1 = Some f /\ isValid d1 = true /\ fields d1 = fields d.
Proof.
  intros Hv Hf Hm Hrate. unfold loadMetaData. rewrite Hm, Hf, Hv. cbn [negb].
  unfold TextFuncs.convSampleToMs, TextFuncs.umod, TextFuncs.udiv.
  apply Z.eqb_neq in Hrate. rewrite Hrate. cbn [obind].
  eexists. eexists. split; [reflexivity|].
  cbn [metaData file isValid fields]. auto.
Qed.

(** C1, as the code has it: on a valid instance with its file open, the
    first [loadFieldData] returns the number of fields it added (7 or 8)
    and the first [loadMetaData], when the sample rate is not zero,
    returns 3; a second call of either returns 0, not that count, and
    leaves the whole instance as it is, the file and its read counters
    included. *)
Theorem load_twice (h : bool) (d : BRSTMPrivate) (f : RpFile.t) :
  isValid d = true -> file d = Some f ->
  (fields d = [] ->
   exists d1,
     loadFieldData h d = (Z.of_nat (length (fields d1)), d1) /\
     (7 <= length (fields d1) <= 8)%nat /\
     file d1 = Some f /\
     loadFieldData h d1 = (0, d1)) /\
  (metaData d = None ->
   brstm16_to_cpu d (c1_sample_rate h (headChunk1 d)) <> 0 ->
   exists d1,
     loadMetaData h d = Ret (3, d1) /\
     file d1 = Some f /\
     loadMetaData h d1 = Ret (0, d1)).
Proof.
  intros Hv Hf. split.
  - intros Hfs.
    destruct (loadFieldData_first h d f Hv Hf Hfs) as (d1 & H1 & Hn & Hf1 & _).
    exists d1. repeat split; auto; try lia.
    apply loadFieldData_again. intros E. rewrite E in Hn. simpl in Hn. lia.
  - intros Hm Hrate.
    destruct (loadMetaData_first h d f Hv Hf Hm Hrate) as (d1 & m & H1 & Hm1 & _ & Hf1 & _).
    exists d1. repeat split; auto.
    unfold loadMetaData. now rewrite Hm1.
Qed.

Lemma load_twice_witness :
  isValid sample_instance = true /\
  exists d1,
    loadFieldData false sample_instance = (Z.of_nat (length (fields d1)), d1) /\
    (7 <= length (fields d1) <= 8)%nat /\
    file d1 = Some sample_open_file /\
    loadFieldData false d1 = (0, d1).
Proof.
  split; [reflexivity|].
  apply (load_twice false sample_instance sample_open_file eq_refl eq_refl).
  reflexivity.
Defined.

(** C1 as it is stated fails: on the sample file the first call returns
    8 and the second returns 0. *)
Lemma load_twice_counterexample :
  fst (loadFieldData false sample_instance) = 8 /\
  fst (loadFieldData false (snd (loadFieldData false sample_instance))) = 0 /\
  fst (loadFieldData false (snd (loadFieldData false sample_instance))) <>
  fst (loadFieldData false sample_instance).
Proof.
  vm_compute. repeat split; discriminate.
Qed.

End BRSTMFacts.

(** ** N64 *)
Module N64Facts.
Import Mem MemFacts RomData N64.

(** *** Induction by pairs and by groups of four *)
Lemma pair_ind {A : Type} (P : list A -> Prop) :
  P [] -> (forall a, P [a]) -> (forall a b r, P r -> P (a :: b :: r)) ->
  forall l, P l.
Proof.
  intros H0 H1 H2. fix IH 1. intros [|a [|b r]].
  - exact H0.
  - apply H1.
  - apply H2. apply IH.
Qed.

Lemma quad_ind {A : Type} (P : list A -> Prop) :
  P [] -> (forall a, P [a]) -> (forall a b, P [a; b]) -> (forall a b c, P [a; b; c]) ->
  (forall a b c d r, P r -> P (a :: b :: c :: d :: r)) ->
  forall l, P l.
Proof.
  intros H0 H1 H2 H3 H4. fix IH 1. intros [|a [|b [|c [|d r]]]].
  - exact H0.
  - apply H1.
  - apply H2.
  - apply H3.
  - apply H4. apply IH.
Qed.

(** *** The three transforms are involutions on bytes *)
Lemma swap_bytes_16_involutive (l : list ascii) :
  swap_bytes_16 (swap_bytes_16 l) = l.
Proof.
  induction l as [| |a b r IH] using pair_ind; simpl; congruence.
Qed.

Lemma swap_words_involutive (l : list ascii) : swap_words (swap_words l) = l.
Proof.
  induction l as [| | | |a b c d r IH] using quad_ind; simpl; congruence.
Qed.

Lemma swap_bytes_32_involutive (l : list ascii) :
  swap_bytes_32 (swap_bytes_32 l) = l.
Proof.
  induction l as [| | | |a b c d r IH] using quad_ind; simpl; congruence.
Qed.

Lemma length_encode (v : variant) (l : list ascii) : length (encode v l) = length l.
Proof.
  destruct v; simpl; auto.
  - induction l as [| |a b r IH] using pair_ind; simpl; congruence.
  - induction l as [| | | |a b c d r IH] using quad_ind; simpl; congruence.
  - induction l as [| | | |a b c d r IH] using quad_ind; simpl; congruence.
Qed.

(** *** What the element-wise operations do to the bytes *)
Lemma host_val_negb (h : bool) (l : list ascii) :
  host_val (negb h) l = host_val h (rev l).
Proof.
  unfold host_val, be_val. destruct h; simpl; now rewrite ?rev_involutive.
Qed.

Lemma swab_bytes (h : bool) (l : list ascii) :
  host_bytes h (length l) (swab (length l) (host_val h l)) = rev l.
Proof.
  rewrite swab_host_val, host_val_negb, <- (length_rev l).
  apply host_bytes_host_val.
Qed.

Lemma land_low_high (a b : Z) :
  0 <= a < 2 ^ 16 -> Z.land a (Z.shiftl b 16) = 0.
Proof.
  intros Ha. apply Z.bits_inj'. intros n Hn.
  rewrite Z.land_spec, Z.bits_0.
  destruct (Z.lt_ge_cases n 16) as [Hlt|Hge].
  - rewrite (Z.shiftl_spec_low b 16 n Hlt). apply andb_false_r.
  - destruct (Z.eq_dec a 0) as [->|Hnz].
    + rewrite Z.bits_0. reflexivity.
    + rewrite (Z.bits_above_log2 a n); [reflexivity | lia |].
      assert (Z.log2 a < 16) by (apply Z.log2_lt_pow2; lia). lia.
Qed.

(** [UNSWAP2] exchanges the two 16-bit halves of a 32-bit integer. *)
Lemma UNSWAP2_be_val (a b c d : ascii) :
  UNSWAP2 (be_val [a; b; c; d]) = be_val [c; d; a; b].
Proof.
  unfold UNSWAP2, CInt.to_uint32, be_val. cbn [rev app le_val].
  pose proof (u8_range a). pose proof (u8_range b).
  pose proof (u8_range c). pose proof (u8_range d).
  set (x := u8 d + 256 * (u8 c + 256 * (u8 b + 256 * (u8 a + 256 * 0)))).
  assert (Hhi : Z.shiftr x 16 = u8 b + 256 * u8 a).
  { rewrite Z.shiftr_div_pow2 by lia. symmetry.
    apply Z.div_unique_pos with (r := u8 d + 256 * u8 c); subst x; lia. }
  rewrite Hhi.
  assert (Hor : Z.lor (u8 b + 256 * u8 a) (Z.shiftl x 16) =
                (u8 b + 256 * u8 a) + Z.shiftl x 16).
  { pose proof (Z.add_lor_land (u8 b + 256 * u8 a) (Z.shiftl x 16)) as E.
    rewrite land_low_high in E by lia. lia. }
  rewrite Hor, Z.shiftl_mul_pow2 by lia.
  symmetry. apply Z.mod_unique_pos with (q := u8 b + 256 * u8 a); subst x; lia.
Qed.

Lemma UNSWAP2_bytes (h : bool) (a b c d : ascii) :
  host_bytes h 4 (UNSWAP2 (host_val h [a; b; c; d])) = [c; d; a; b].
Proof.
  destruct h; unfold host_val, host_bytes.
  - rewrite UNSWAP2_be_val. apply (be_bytes_be_val [c; d; a; b]).
  - change (le_val [a; b; c; d]) with (be_val [d; c; b; a]).
    rewrite UNSWAP2_be_val.
    change (be_val [b; a; d; c]) with (le_val [c; d; a; b]).
    apply (le_bytes_le_val [c; d; a; b]).
Qed.

Lemma byte_swap_16_array_bytes (h : bool) (l : list ascii) :
  byte_swap_16_array h l = swap_bytes_16 l.
Proof.
  unfold byte_swap_16_array.
  induction l as [| |a b r IH] using pair_ind; auto.
  cbn [map_u16 swap_bytes_16]. rewrite IH.
  pose proof (swab_bytes h [a; b]) as E. simpl length in E. simpl rev in E.
  rewrite E. reflexivity.
Qed.

Lemma byte_swap_32_array_bytes (h : bool) (l : list ascii) :
  byte_swap_32_array h l = swap_bytes_32 l.
Proof.
  unfold byte_swap_32_array.
  induction l as [| | | |a b c d r IH] using quad_ind; auto.
  cbn [map_u32 swap_bytes_32]. rewrite IH.
  pose proof (swab_bytes h [a; b; c; d]) as E. simpl length in E. simpl rev in E.
  rewrite E. reflexivity.
Qed.

Lemma map_u32_UNSWAP2_bytes (h : bool) (l : list ascii) :
  map_u32 h UNSWAP2 l = swap_words l.
Proof.
  induction l as [| | | |a b c d r IH] using quad_ind; auto.
  cbn [map_u32 swap_words]. rewrite IH, UNSWAP2_bytes. reflexivity.
Qed.

(** *** The in-place conversion of a big-endian field *)
Lemma be32_in_place_spec (h : bool) (hdr : list ascii) (off : nat) :
  (off + 4 <= length hdr)%nat ->
  length (be32_in_place h hdr off) = length hdr /\
  load h (be32_in_place h hdr off) off 4 = be_val (slice hdr off 4) /\
  forall o n, (o + n <= off \/ off + 4 <= o)%nat ->
    slice (be32_in_place h hdr off) o n = slice hdr o n.
Proof.
  intros Hlen. unfold be32_in_place, store, load.
  set (s := slice hdr off 4).
  assert (Hs : length s = 4%nat) by (apply length_slice; lia).
  replace (be_to_cpu h 4 (host_val h s)) with (be_val s)
    by (rewrite <- Hs; symmetry; apply be_to_cpu_host_val).
  set (src := host_bytes h 4 (be_val s)).
  assert (Hsrc : length src = 4%nat) by apply length_host_bytes.
  split; [apply length_blit; lia|]. split.
  - rewrite <- Hsrc at 1. rewrite slice_blit_same by lia.
    subst src. rewrite host_val_host_bytes. apply Z.mod_small.
    unfold be_val. pose proof (le_val_range (rev s)) as R.
    rewrite length_rev, Hs in R. exact R.
  - intros o n Hdis. apply slice_blit_other; lia.
Qed.

Lemma finalize_fields (h : bool) (hdr : list ascii) :
  length hdr = 64%nat ->
  init_pi h (finalize h hdr) = be_val (slice hdr 0 4) /\
  clockrate h (finalize h hdr) = be_val (slice hdr 4 4) /\
  entrypoint h (finalize h hdr) = be_val (slice hdr 8 4) /\
  os_version (finalize h hdr) = slice hdr 12 4 /\
  crc h (finalize h hdr) 0 = be_val (slice hdr 16 4) /\
  crc h (finalize h hdr) 1 = be_val (slice hdr 20 4) /\
  title (finalize h hdr) = slice hdr 32 20 /\
  id4 (finalize h hdr) = slice hdr 59 4 /\
  revision h (finalize h hdr) = be_val (slice hdr 63 1).
Proof.
  intros H0. unfold finalize.
  set (h1 := be32_in_place h hdr 0).
  set (h2 := be32_in_place h h1 4).
  set (h3 := be32_in_place h h2 8).
  set (h4 := be32_in_place h h3 16).
  set (h5 := be32_in_place h h4 20).
  destruct (be32_in_place_spec h hdr 0) as (L1 & V1 & O1); [lia|]. fold h1 in L1, V1, O1.
  destruct (be32_in_place_spec h h1 4) as (L2 & V2 & O2); [lia|]. fold h2 in L2, V2, O2.
  destruct (be32_in_place_spec h h2 8) as (L3 & V3 & O3); [lia|]. fold h3 in L3, V3, O3.
  destruct (be32_in_place_spec h h3 16) as (L4 & V4 & O4); [lia|]. fold h4 in L4, V4, O4.
  destruct (be32_in_place_spec h h4 20) as (L5 & V5 & O5); [lia|]. fold h5 in L5, V5, O5.
  unfold init_pi, clockrate, entrypoint, os_version, crc, title, id4, revision.
  unfold load in *. cbn [Nat.add Nat.mul].
  repeat split.
  - rewrite O5, O4, O3, O2 by lia. exact V1.
  - rewrite O5, O4, O3 by lia. rewrite V2. now rewrite O1 by lia.
  - rewrite O5, O4 by lia. rewrite V3. now rewrite O2, O1 by lia.
  - now rewrite O5, O4, O3, O2, O1 by lia.
  - rewrite O5 by lia. rewrite V4. now rewrite O3, O2, O1 by lia.
  - rewrite V5. now rewrite O4, O3, O2, O1 by lia.
  - now rewrite O5, O4, O3, O2, O1 by lia.
  - now rewrite O5, O4, O3, O2, O1 by lia.
  - rewrite O5, O4, O3, O2, O1 by lia.
    unfold host_val, be_val. destruct h; auto.
    assert (Hl : length (slice hdr 63 1) = 1%nat) by (apply length_slice; lia).
    destruct (slice hdr 63 1) as [|x [|y r]]; simpl in Hl; try lia. reflexivity.
Qed.

(** *** Detection of an encoded image *)
Lemma detect_encoded (h : bool) (v : variant) (body : list ascii) :
  isRomSupported_static h
    (Some {| hdr_addr := 0; hdr_size := Z.of_nat sizeof_N64_RomHeader;
             hdr_pData := Some (encode v (z64_magic_bytes ++ body));
             ext := None; szFile := 0 |}) = variant_id v.
Proof.
  unfold isRomSupported_static. cbn [hdr_addr hdr_size hdr_pData].
  change (negb (0 =? 0) || (Z.of_nat sizeof_N64_RomHeader <? Z.of_nat sizeof_N64_RomHeader))
    with false. cbv iota.
  unfold magic64, load.
  replace (slice (encode v (z64_magic_bytes ++ body)) 0 8)
    with (encode v z64_magic_bytes) by (destruct v; reflexivity).
  destruct v, h; vm_compute; reflexivity.
Qed.

Lemma decode_encode (h : bool) (v : variant) (canon : list ascii) :
  (if variant_id v =? ROM_TYPE_Z64 then Some (encode v canon)
   else if variant_id v =? ROM_TYPE_V64 then Some (byte_swap_16_array h (encode v canon))
   else if variant_id v =? ROM_TYPE_SWAP2 then Some (map_u32 h UNSWAP2 (encode v canon))
   else if variant_id v =? ROM_TYPE_LE32 then Some (byte_swap_32_array h (encode v canon))
   else None) = Some canon.
Proof.
  destruct v; cbn [variant_id encode]; vm_compute Z.eqb; cbv iota.
  - reflexivity.
  - now rewrite byte_swap_16_array_bytes, swap_bytes_16_involutive.
  - now rewrite map_u32_UNSWAP2_bytes, swap_words_involutive.
  - now rewrite byte_swap_32_array_bytes, swap_bytes_32_involutive.
Qed.

Lemma N64_new_encoded (h : bool) (v : variant) (body rest : list ascii) :
  length body = 56%nat ->
  let canon := z64_magic_bytes ++ body in
  let d := N64_new h (Some (RpFile.open (encode v canon ++ rest))) in
  isValid d = true /\ romType d = variant_id v /\
  romHeader d = finalize h canon /\
  exists f, file d = Some f.
Proof.
  intros Hbody canon d. subst d.
  assert (Hcanon : length canon = 64%nat).
  { subst canon. rewrite length_app, Hbody. reflexivity. }
  unfold N64_new. rewrite BRSTMFacts.read_header. cbn [RpFile.open RpFile.data].
  rewrite (take_app_length' (encode v canon) rest)
    by (rewrite length_encode, Hcanon; reflexivity).
  lazy beta iota zeta. cbn [init romHeader].
  rewrite length_encode, Hcanon. cbn [Nat.eqb sizeof_N64_RomHeader negb].
  rewrite blit_full by (rewrite length_replicate, length_encode, Hcanon; reflexivity).
  subst canon. rewrite (detect_encoded h v body).
  rewrite decode_encode.
  cbn [isValid romType romHeader file]. unfold finalize. eauto.
Qed.

(** C4: for each of the four container variants, the image of a
    canonical header in that variant is detected as that variant and
    parsed into the header the canonical image itself parses into, with
    the canonical (big-endian) value of every field. *)
Theorem variant_round_trip (h : bool) (v : variant) (body rest : list ascii) :
  length body = 56%nat ->
  let canon := z64_magic_bytes ++ body in
  let d := N64_new h (Some (RpFile.open (encode v canon ++ rest))) in
  isValid d = true /\ romType d = variant_id v /\
  romHeader d = romHeader (N64_new h (Some (RpFile.open (canon ++ rest)))) /\
  init_pi h (romHeader d) = be_val (slice canon 0 4) /\
  clockrate h (romHeader d) = be_val (slice canon 4 4) /\
  entrypoint h (romHeader d) = be_val (slice canon 8 4) /\
  os_version (romHeader d) = slice canon 12 4 /\
  crc h (romHeader d) 0 = be_val (slice canon 16 4) /\
  crc h (romHeader d) 1 = be_val (slice canon 20 4) /\
  title (romHeader d) = slice canon 32 20 /\
  id4 (romHeader d) = slice canon 59 4 /\
  revision h (romHeader d) = be_val (slice canon 63 1).
Proof.
  intros Hbody canon d.
  destruct (N64_new_encoded h v body rest Hbody) as (Hv & Ht & Hh & _).
  destruct (N64_new_encoded h Z64 body rest Hbody) as (_ & _ & Hz & _).
  fold canon in Hh, Hz, Hv, Ht. fold d in Hh, Hv, Ht.
  cbn [encode] in Hz.
  split; [exact Hv|]. split; [exact Ht|]. split; [congruence|].
  rewrite Hh. apply finalize_fields.
  subst canon. rewrite length_app, Hbody. reflexivity.
Qed.

Lemma variant_round_trip_witness :
  length sample_body = 56%nat /\
  romType (N64_new false
    (Some (RpFile.open (encode SWAP2 (z64_magic_bytes ++ sample_body) ++ [])))) =
  variant_id SWAP2.
Proof.
  split; [reflexivity|].
  apply (variant_round_trip false SWAP2 sample_body [] eq_refl).
Defined.

End N64Facts.

(** ** TextFuncs: sample counts as time *)
Module TextFuncsFacts.
Import TextFuncs.

(** The formatter checks the rate before it divides. *)
Lemma formatSampleAsTime_zero_rate (sample : Z) :
  formatSampleAsTime sample 0 = "#DIV/0!"%string.
Proof. reflexivity. Qed.

(** The converter does not: its first operation is [sample % rate]. *)
Lemma convSampleToMs_zero_rate (sample : Z) :
  convSampleToMs sample 0 = Trap DivideByZero.
Proof. reflexivity. Qed.

(** With a rate that is not zero the converter returns. *)
Lemma convSampleToMs_returns (sample rate : Z) :
  rate <> 0 -> exists ms, convSampleToMs sample rate = Ret ms.
Proof.
  intros Hr. unfold convSampleToMs, umod, udiv.
  apply Z.eqb_neq in Hr. rewrite Hr. cbn [obind]. eauto.
Qed.

(** C5: a zero sample rate is caught by [formatSampleAsTime], which
    returns its sentinel, but not by [convSampleToMs], which divides by
    it; [BRSTM::loadMetaData] reaches that division with the rate of a
    file that the parser accepted. *)
Theorem zero_rate_division :
  (forall sample, formatSampleAsTime sample 0 = "#DIV/0!"%string) /\
  (forall sample, convSampleToMs sample 0 = Trap DivideByZero) /\
  BRSTM.isValid BRSTM.zero_rate_instance = true /\
  BRSTM.loadMetaData false BRSTM.zero_rate_instance = Trap DivideByZero.
Proof.
  split; [exact formatSampleAsTime_zero_rate|].
  split; [exact convSampleToMs_zero_rate|].
  split; vm_compute; reflexivity.
Qed.

(** C6, as the code has it: no samples are "0:00.00", one second of
    samples is "0:01.00" and sixty seconds are "1:00.00". *)
Theorem formatSampleAsTime_vectors :
  formatSampleAsTime 0 44100 = "0:00.00"%string /\
  formatSampleAsTime 44100 44100 = "0:01.00"%string /\
  formatSampleAsTime 2646000 44100 = "1:00.00"%string.
Proof. vm_compute. auto. Qed.

(** C6 as it is stated fails on its second vector. *)
Lemma formatSampleAsTime_counterexample :
  formatSampleAsTime 44100 44100 <> "1:00.00"%string.
Proof. vm_compute. discriminate. Qed.

(** X12: a whole number of seconds is printed as minutes, seconds and
    ".00"; it never reaches the floating-point branch. *)
Lemma formatSampleAsTime_whole_seconds (n rate : Z) :
  0 < rate -> 0 <= n ->
  formatSampleAsTime (n * rate) rate =
  Printf.snprintf_keep 32
    (Printf.fmt_u (n / 60) +:+ ":" +:+ Printf.fmt_02u (n mod 60) +:+ ".00")%string.
Proof.
  intros Hr Hn. unfold formatSampleAsTime.
  destruct (rate =? 0) eqn:E; [apply Z.eqb_eq in E; lia|].
  rewrite Z.mod_mul by lia. rewrite Z.div_mul by lia. reflexivity.
Qed.

End TextFuncsFacts.

(** ** sscanf on strings of digits *)
Module ScanfFacts.
Import Mem MemFacts Scanf.

Lemma isdigit_range (c : ascii) : isdigit c = true -> 48 <= u8 c <= 57.
Proof. unfold isdigit. rewrite andb_true_iff, !Z.leb_le. tauto. Qed.

Lemma isdigit_not_space (c : ascii) : isdigit c = true -> isspace c = false.
Proof.
  intros H. apply isdigit_range in H. unfold isspace.
  apply orb_false_iff. split.
  - apply Z.eqb_neq. lia.
  - apply andb_false_iff. right. apply Z.leb_gt. lia.
Qed.

Lemma digits_all (a rest : list ascii) :
  ends_number rest ->
  forall (limit : nat) (acc : Z) (n : nat),
  forallb isdigit a = true -> (length a <= limit)%nat ->
  digits limit (a ++ rest) acc n =
  (fold_left (fun acc c => acc * 10 + (u8 c - 48)) a acc, (n + length a)%nat, rest).
Proof.
  intros Hrest. induction a as [|c a IH]; intros limit acc n Hd Hl.
  - cbn [app fold_left length]. rewrite Nat.add_0_r.
    destruct limit; [reflexivity|]. cbn [digits].
    destruct rest as [|x rest]; [reflexivity|].
    cbn in Hrest. now rewrite Hrest.
  - cbn [forallb] in Hd. apply andb_true_iff in Hd. destruct Hd as [Hc Hd].
    cbn [length] in Hl. destruct limit as [|limit]; [lia|].
    cbn [app digits fold_left length]. rewrite Hc.
    rewrite IH by (auto; lia). do 2 f_equal. lia.
Qed.

Lemma number_digits (a rest : list ascii) (limit : nat) :
  a <> [] -> forallb isdigit a = true -> ends_number rest ->
  (length a <= limit)%nat ->
  number limit (a ++ rest) = Some (decimal a, rest).
Proof.
  intros Hne Hd Hrest Hl. destruct a as [|c a]; [contradiction|].
  unfold number. cbn [app].
  assert (Hc : isdigit c = true) by (cbn [forallb] in Hd; now apply andb_true_iff in Hd).
  apply isdigit_range in Hc.
  destruct (u8 c =? 45) eqn:E1; [apply Z.eqb_eq in E1; lia|].
  destruct (u8 c =? 43) eqn:E2; [apply Z.eqb_eq in E2; lia|].
  change (c :: a ++ rest) with ((c :: a) ++ rest).
  rewrite (digits_all (c :: a) rest Hrest limit 0 0%nat Hd Hl).
  cbn [length Nat.add Nat.eqb]. reflexivity.
Qed.

Lemma skip_ws_digits (a rest : list ascii) :
  a <> [] -> forallb isdigit a = true -> skip_ws (a ++ rest) = a ++ rest.
Proof.
  intros Hne Hd. destruct a as [|c a]; [contradiction|].
  cbn [forallb] in Hd. apply andb_true_iff in Hd. destruct Hd as [Hc _].
  cbn [app skip_ws]. now rewrite (isdigit_not_space c Hc).
Qed.

(** [%u] on an input that starts with digits converts them. *)
Lemma scan_DU_digits (fmt : list directive) (a rest : list ascii) (acc : list Z) :
  a <> [] -> forallb isdigit a = true -> ends_number rest ->
  scan (DU :: fmt) (a ++ rest) acc =
  scan fmt rest (acc ++ [CInt.to_uint32 (decimal a)]).
Proof.
  intros Hne Hd Hrest. cbn [scan]. rewrite (skip_ws_digits a rest Hne Hd).
  pose proof (number_digits a rest (length (a ++ rest)) Hne Hd Hrest) as Hn.
  destruct a as [|c a]; [contradiction|]. cbn [app] in *.
  rewrite Hn by (cbn [length]; rewrite length_app; lia). reflexivity.
Qed.

Lemma scan_lit_mismatch (fmt : list directive) (c x : ascii) (inp : list ascii)
    (acc : list Z) :
  x <> c -> scan (DLit c :: fmt) (x :: inp) acc = (Z.of_nat (length acc), acc).
Proof. intros H. cbn [scan]. now rewrite bool_decide_eq_false_2. Qed.

Lemma scan_lit_match (fmt : list directive) (c : ascii) (inp : list ascii)
    (acc : list Z) :
  scan (DLit c :: fmt) (c :: inp) acc = scan fmt inp acc.
Proof. cbn [scan]. now rewrite bool_decide_eq_true_2. Qed.

(** When a lone [%u] converts nothing, no format that starts with [%u]
    converts anything. *)
Lemma scan_DU_fails (str : list ascii) :
  fst (scan [DU] str []) <> 1 ->
  exists n, n <= 0 /\ forall fmt, scan (DU :: fmt) str [] = (n, []).
Proof.
  intros H. cbn [scan] in *.
  destruct (skip_ws str) as [|c inp1].
  - exists (-1). split; [lia|]. reflexivity.
  - destruct (number (length (c :: inp1)) (c :: inp1)) as [[v rest]|].
    + cbn in H. contradiction.
    + exists 0. split; [lia|]. reflexivity.
Qed.

End ScanfFacts.

(** ** PSF *)
Module PSFFacts.
Import Mem MemFacts RomData PSF.

(** *** [memchr] *)
Lemma memchr_Some (c : ascii) (l : list ascii) (i : nat) :
  memchr c l = Some i ->
  (i < length l)%nat /\ memchr c (take i l) = None /\
  exists r, drop i l = c :: r.
Proof.
  revert i. induction l as [|x l IH]; intros i; cbn [memchr]; [discriminate|].
  destruct (bool_decide (x = c)) eqn:E.
  - intros [= <-]. apply bool_decide_eq_true in E. subst x.
    cbn. split; [lia|]. split; [reflexivity|]. eauto.
  - destruct (memchr c l) as [j|]; [|discriminate].
    intros [= <-]. destruct (IH j eq_refl) as (Hj & Hn & r & Hr).
    cbn [length take drop memchr]. rewrite E, Hn. split; [lia|]. split; [reflexivity|]. eauto.
Qed.

Lemma memchr_app (c : ascii) (l1 l2 : list ascii) :
  memchr c (l1 ++ l2) =
  match memchr c l1 with
  | Some i => Some i
  | None => (fun j => (length l1 + j)%nat) <$> memchr c l2
  end.
Proof.
  induction l1 as [|x l1 IH]; cbn [app memchr length].
  - destruct (memchr c l2); reflexivity.
  - destruct (bool_decide (x = c)); [reflexivity|].
    rewrite IH. destruct (memchr c l1); [reflexivity|].
    destruct (memchr c l2); reflexivity.
Qed.

Lemma memchr_head (c : ascii) (l : list ascii) : memchr c (c :: l) = Some 0%nat.
Proof. cbn [memchr]. now rewrite bool_decide_eq_true_2. Qed.

(** C7: the duration parser on the vectors of the specification.  Three
    of the four hold; "83.5" gives 5063500 and not 83500, because the
    seconds.decimal branch adds [min * 60 * 1000] and [min] still holds
    the 83 that the failed minutes:seconds attempts stored in it. *)
Theorem lengthToMs_vectors :
  lengthToMs (bytes_of "1:23.456") = Ret 83456 /\
  lengthToMs (bytes_of "83.5") = Ret 5063500 /\
  lengthToMs (bytes_of "1:02:03") = Ret 3723000 /\
  lengthToMs (bytes_of "abc") = Ret 0.
Proof. vm_compute. auto. Qed.

(** The branch that matches plain seconds returns them unscaled. *)
Lemma lengthToMs_plain_seconds : lengthToMs (bytes_of "83") = Ret 83.
Proof. vm_compute. reflexivity. Qed.

(** *** Every seconds.decimal string *)
Lemma memchr_digits (c : ascii) (a : list ascii) :
  forallb Scanf.isdigit a = true -> Scanf.isdigit c = false -> memchr c a = None.
Proof.
  intros Hd Hc. induction a as [|x a IH]; [reflexivity|].
  cbn [forallb] in Hd. apply andb_true_iff in Hd. destruct Hd as [Hx Hd].
  cbn [memchr]. rewrite bool_decide_eq_false_2 by congruence.
  now rewrite IH.
Qed.

Lemma count_digits_all (b rest : list ascii) :
  forallb Scanf.isdigit b = true -> Scanf.ends_number rest ->
  count_digits (b ++ rest) = length b.
Proof.
  intros Hd Hrest. induction b as [|x b IH].
  - destruct rest as [|y rest]; [reflexivity|]. cbn in *. now rewrite Hrest.
  - cbn [forallb] in Hd. apply andb_true_iff in Hd. destruct Hd as [Hx Hd].
    cbn [app count_digits length]. rewrite Hx. now rewrite IH.
Qed.

Lemma frac_adj_seconds_decimal (a b : list ascii) (sep : ascii) :
  forallb Scanf.isdigit a = true -> forallb Scanf.isdigit b = true ->
  sep = dot \/ sep = comma ->
  frac_adj_of (a ++ sep :: b) = frac_scale (length b).
Proof.
  intros Ha Hb Hsep. unfold frac_adj_of.
  assert (Hdrop : drop (S (length a)) (a ++ sep :: b) = b).
  { replace (a ++ sep :: b) with ((a ++ [sep]) ++ b) by (rewrite <- app_assoc; reflexivity).
    replace (S (length a)) with (length (a ++ [sep]))
      by (rewrite length_app; cbn [length]; lia).
    apply drop_app_length. }
  assert (Hcount : count_digits b = length b).
  { rewrite <- (app_nil_r b) at 1. now apply count_digits_all. }
  destruct Hsep as [-> | ->].
  - rewrite memchr_app, (memchr_digits dot a Ha eq_refl), memchr_head.
    cbn [fmap option_fmap option_map]. rewrite Nat.add_0_r, Hdrop, Hcount. reflexivity.
  - rewrite memchr_app, (memchr_digits dot a Ha eq_refl).
    cbn [memchr]. rewrite bool_decide_eq_false_2 by discriminate.
    rewrite (memchr_digits dot b Hb eq_refl). cbn [fmap option_fmap option_map].
    rewrite memchr_app, (memchr_digits comma a Ha eq_refl), memchr_head.
    cbn [fmap option_fmap option_map]. rewrite Nat.add_0_r, Hdrop, Hcount. reflexivity.
Qed.


(** A string that does not start with a number matches no pattern and
    gives 0. *)
Lemma lengthToMs_no_match (str : list ascii) :
  fst (Scanf.scan fmt_s str []) <> 1 -> lengthToMs str = Ret 0.
Proof.
  intros H. destruct (ScanfFacts.scan_DU_fails str H) as (n & Hn & Hscan).
  unfold lengthToMs, sscanf.
  unfold fmt_hmsf, fmt_hms, fmt_msf, fmt_ms, fmt_sf, fmt_s. rewrite !Hscan.
  cbn [assign negb].
  destruct (n =? 4) eqn:E4; [apply Z.eqb_eq in E4; lia|]. cbn [negb]. rewrite E4.
  destruct (n =? 3) eqn:E3; [apply Z.eqb_eq in E3; lia|]. cbn [negb]. rewrite E3.
  destruct (n =? 2) eqn:E2; [apply Z.eqb_eq in E2; lia|]. cbn [negb]. rewrite E2.
  destruct (n =? 1) eqn:E1; [apply Z.eqb_eq in E1; lia|]. reflexivity.
Qed.


(** *** The size of the tag buffer *)
Lemma parseTags_allocated (conv : list ascii -> string) (f : RpFile.t) (tag_addr : Z) :
  0 <= tag_addr ->
  tag_addr + Z.of_nat sizeof_tag_magic < RpFile.size f ->
  allocated (parseTags conv f tag_addr) =
    RpFile.size f - tag_addr - Z.of_nat sizeof_tag_magic /\
  RpFile.nbytes (file_after (parseTags conv f tag_addr)) =
    RpFile.nbytes f + (RpFile.size f - tag_addr).
Proof.
  intros H0 Hlt. unfold parseTags.
  rewrite BRSTMFacts.seekAndRead_slice by lia. lazy beta iota zeta.
  unfold RpFile.size in *. cbn [RpFile.data] in *.
  set (bytes := RpFile.data f) in *.
  assert (Hm : length (slice bytes (Z.to_nat tag_addr) sizeof_tag_magic) = sizeof_tag_magic).
  { apply length_slice. unfold sizeof_tag_magic in *. lia. }
  rewrite Hm, Nat.eqb_refl. cbn [negb].
  destruct (_ <=? 0) eqn:E; [apply Z.leb_le in E; lia|].
  unfold RpFile.read. cbn [RpFile.data RpFile.pos RpFile.nreads RpFile.nbytes].
  set (data_len := Z.of_nat (length bytes) - tag_addr - Z.of_nat sizeof_tag_magic).
  set (tag_data := take (Z.to_nat data_len) _).
  assert (Hl : Z.of_nat (length tag_data) = data_len).
  { subst tag_data. rewrite length_take, length_drop. unfold sizeof_tag_magic in *. lia. }
  rewrite Hl, Z.eqb_refl. cbn [negb].
  destruct (tag_loop _ _ _). cbn [allocated file_after RpFile.nbytes].
  split; [reflexivity|]. unfold sizeof_tag_magic in *. lia.
Qed.

(** C8: nothing bounds the tag buffer.  On a file with 20000 bytes after
    the tag magic, [parseTags] allocates and reads all 20000, more than
    the 16 KB its comment names. *)
Theorem parseTags_allocation_unbounded :
  allocated (parseTags u8string (RpFile.open long_tag_file)
               (Z.of_nat sizeof_PSF_Header)) = 20000 /\
  16 * 1024 < allocated (parseTags u8string (RpFile.open long_tag_file)
                           (Z.of_nat sizeof_PSF_Header)).
Proof.
  destruct (parseTags_allocated u8string (RpFile.open long_tag_file)
              (Z.of_nat sizeof_PSF_Header)) as [Ha _].
  - vm_compute. discriminate.
  - vm_compute. reflexivity.
  - rewrite Ha. vm_compute. auto.
Qed.

(** *** The tag loop, line by line *)
Lemma tag_loop_nil (n : nat) (st : gmap string string * bool) : tag_loop n [] st = st.
Proof. destruct n; reflexivity. Qed.

(** Any fuel that covers the data gives the same result. *)
Lemma tag_loop_fuel (n m : nat) (p : list ascii) (st : gmap string string * bool) :
  (length p <= n)%nat -> (length p <= m)%nat -> tag_loop n p st = tag_loop m p st.
Proof.
  revert m p st. induction n as [|n IH]; intros m p st Hn Hm.
  - destruct p; [|simpl in Hn; lia]. now rewrite !tag_loop_nil.
  - destruct p as [|x p]; [now rewrite !tag_loop_nil|].
    destruct m as [|m]; [simpl in Hm; lia|].
    cbn [tag_loop]. cbn [length] in Hn, Hm.
    destruct (_ =? 0)%nat.
    + apply IH; cbn [drop]; rewrite ?drop_0; lia.
    + apply IH; rewrite length_drop; cbn [length]; lia.
Qed.

(** One round of the loop on data that start with a line which is not
    empty. *)
Lemma tag_loop_step (x : ascii) (p : list ascii) (st : gmap string string * bool) :
  let data := x :: p in
  let nl := default (length data) (memchr newline data) in
  tag_loop (length data) data st =
  if (nl =? 0)%nat then tag_loop (length p) p st
  else tag_loop (length (drop (S nl) data)) (drop (S nl) data)
         (tag_line (take nl data) st).
Proof.
  intros data nl. subst data nl. cbn [tag_loop length].
  destruct (_ =? 0)%nat.
  - cbn [drop]. rewrite ?drop_0. reflexivity.
  - apply tag_loop_fuel; [|lia]. rewrite length_drop. cbn [length]. lia.
Qed.

(** A newline separates what comes before it from what comes after. *)
Lemma tag_loop_app_le (d2 : list ascii) (n : nat) :
  forall (d1 : list ascii) (st : gmap string string * bool),
  (length d1 <= n)%nat ->
  tag_loop (length (d1 ++ newline :: d2)) (d1 ++ newline :: d2) st =
  tag_loop (length d2) d2 (tag_loop (length d1) d1 st).
Proof.
  induction n as [|n IH]; intros d1 st Hle.
  - destruct d1; [|simpl in Hle; lia].
    cbn [app]. rewrite (tag_loop_step newline d2 st).
    cbv zeta. rewrite memchr_head. cbn [from_option Nat.eqb]. now rewrite tag_loop_nil.
  - destruct d1 as [|x d1].
    { cbn [app]. rewrite (tag_loop_step newline d2 st).
      cbv zeta. rewrite memchr_head. cbn [from_option Nat.eqb]. now rewrite tag_loop_nil. }
    cbn [length] in Hle.
    change ((x :: d1) ++ newline :: d2) with (x :: (d1 ++ newline :: d2)).
    rewrite (tag_loop_step x (d1 ++ newline :: d2) st), (tag_loop_step x d1 st).
    cbv zeta.
    change (x :: (d1 ++ newline :: d2)) with ((x :: d1) ++ newline :: d2).
    rewrite memchr_app.
    destruct (memchr newline (x :: d1)) as [i|] eqn:Hi.
    + (* the first line ends inside d1 *)
      destruct (memchr_Some _ _ _ Hi) as (Hlt & _ & _).
      cbn [from_option]. unfold id. destruct (i =? 0)%nat eqn:Hi0.
      * apply IH. lia.
      * rewrite take_app_le by lia.
        rewrite drop_app_le by lia.
        rewrite IH by (rewrite length_drop; cbn [length]; lia).
        reflexivity.
    + (* the first line is all of d1 *)
      rewrite memchr_head. cbn [fmap option_fmap option_map from_option]. unfold id.
      rewrite Nat.add_0_r.
      destruct (length (x :: d1) =? 0)%nat eqn:E; [cbn [length] in E; discriminate|].
      rewrite (take_app_length (x :: d1)), firstn_all.
      replace (drop (S (length (x :: d1))) ((x :: d1) ++ newline :: d2)) with d2.
      2: { replace ((x :: d1) ++ newline :: d2) with (((x :: d1) ++ [newline]) ++ d2)
             by (rewrite <- app_assoc; reflexivity).
           replace (S (length (x :: d1))) with (length ((x :: d1) ++ [newline]))
             by (rewrite length_app; cbn [length]; lia).
           now rewrite drop_app_length. }
      rewrite (drop_ge (x :: d1)) by lia.
      cbn [length]. now rewrite tag_loop_nil.
Qed.

(** A newline separates what comes before it from what comes after. *)
Lemma tag_loop_app (d1 d2 : list ascii) (st : gmap string string * bool) :
  tag_loop (length (d1 ++ newline :: d2)) (d1 ++ newline :: d2) st =
  tag_loop (length d2) d2 (tag_loop (length d1) d1 st).
Proof. apply (tag_loop_app_le d2 (length d1)). lia. Qed.

Lemma tag_loop_snoc_newline (d : list ascii) (st : gmap string string * bool) :
  tag_loop (length (d ++ [newline])) (d ++ [newline]) st = tag_loop (length d) d st.
Proof. rewrite (tag_loop_app d [] st). apply tag_loop_nil. Qed.

(** Data that are one line which is not empty. *)
Lemma tag_loop_single_line (line : list ascii) (st : gmap string string * bool) :
  line <> [] -> memchr newline line = None ->
  tag_loop (length line) line st = tag_line line st.
Proof.
  intros Hne Hnl. destruct line as [|x line]; [contradiction|].
  rewrite (tag_loop_step x line st). cbv zeta. rewrite Hnl.
  cbn [from_option]. unfold id.
  destruct (_ =? 0)%nat eqn:E; [cbn [length] in E; discriminate|].
  rewrite firstn_all, drop_ge by lia. apply tag_loop_nil.
Qed.

(** *** [emplace] keeps what is there *)
Lemma emplace_lookup_old (kv : gmap string string) (k k' v v' : string) :
  kv !! k = Some v -> emplace kv k' v' !! k = Some v.
Proof.
  intros H. unfold emplace. destruct (kv !! k') eqn:E; [exact H|].
  rewrite lookup_insert_ne; [exact H|]. intros ->. congruence.
Qed.

Lemma emplace_lookup_new (kv : gmap string string) (k v : string) :
  kv !! k = None -> emplace kv k v !! k = Some v.
Proof.
  intros H. unfold emplace. rewrite H. apply lookup_insert_eq.
Qed.

Lemma tag_line_preserves (line : list ascii) (st : gmap string string * bool)
    (k v : string) :
  st.1 !! k = Some v -> (tag_line line st).1 !! k = Some v.
Proof.
  destruct st as [kv u]. cbn [fst]. intros H. unfold tag_line.
  destruct (memchr equals line); [|exact H].
  destruct (_ && _); [|exact H].
  cbn [fst]. now apply emplace_lookup_old.
Qed.

Lemma tag_loop_preserves (n : nat) (p : list ascii) (st : gmap string string * bool)
    (k v : string) :
  st.1 !! k = Some v -> (tag_loop n p st).1 !! k = Some v.
Proof.
  revert p st. induction n as [|n IH]; intros p st H; [exact H|].
  cbn [tag_loop]. destruct p as [|x p]; [exact H|].
  destruct (_ =? 0)%nat; apply IH; [exact H|].
  now apply tag_line_preserves.
Qed.

Lemma to_int32_small (z : Z) : 0 <= z < 2 ^ 31 -> CInt.to_int32 z = z.
Proof.
  intros Hz. unfold CInt.to_int32. rewrite Z.mod_small; lia.
Qed.

(** A line [key=value] with a key and a value that are not empty enters
    the pair with [emplace], the key in lower case. *)
Lemma tag_line_key_value (key value : list ascii) (kv : gmap string string) (u : bool) :
  key <> [] -> value <> [] -> memchr equals key = None ->
  Z.of_nat (length key + length value) < 2 ^ 31 - 1 ->
  (tag_line (key ++ equals :: value) (kv, u)).1 =
  emplace kv (u8string (map tolower key)) (u8string value).
Proof.
  intros Hk Hv Heq Hlen. unfold tag_line.
  rewrite memchr_app, Heq, memchr_head.
  cbn [fmap option_fmap option_map]. rewrite Nat.add_0_r.
  rewrite length_app. cbn [length].
  assert (Hkl : (0 < length key)%nat) by (destruct key; [contradiction | cbn; lia]).
  assert (Hvl : (0 < length value)%nat) by (destruct value; [contradiction | cbn; lia]).
  rewrite !to_int32_small by lia.
  replace (Z.of_nat (length key + S (length value)) - Z.of_nat (length key) - 1)
    with (Z.of_nat (length value)) by lia.
  destruct (0 <? Z.of_nat (length key)) eqn:E1; [|apply Z.ltb_ge in E1; lia].
  destruct (0 <? Z.of_nat (length value)) eqn:E2; [|apply Z.ltb_ge in E2; lia].
  cbn [andb fst]. rewrite !Nat2Z.id.
  rewrite take_app_length.
  replace (drop (S (length key)) (key ++ equals :: value)) with value.
  2: { replace (key ++ equals :: value) with ((key ++ [equals]) ++ value)
         by (rewrite <- app_assoc; reflexivity).
       replace (S (length key)) with (length (key ++ [equals]))
         by (rewrite length_app; cbn [length]; lia).
       now rewrite drop_app_length. }
  now rewrite firstn_all.
Qed.

(** C9, as the code has it: the first line that binds a key wins.  A
    line [key=value] that starts a line of the tag block, with a key
    that no earlier line bound, gives the key its value for good,
    whatever the lines after it say. *)
Theorem first_occurrence_wins (pre key value post : list ascii) :
  (pre = [] \/ exists pre', pre = pre' ++ [newline]) ->
  (post = [] \/ exists post', post = newline :: post') ->
  key <> [] -> value <> [] ->
  memchr equals key = None -> memchr newline key = None ->
  memchr newline value = None ->
  Z.of_nat (length key + length value) < 2 ^ 31 - 1 ->
  let lk := u8string (map tolower key) in
  let data := pre ++ (key ++ equals :: value) ++ post in
  (tag_loop (length pre) pre (∅, false)).1 !! lk = None ->
  (tag_loop (length data) data (∅, false)).1 !! lk = Some (u8string value).
Proof.
  intros Hpre Hpost Hk Hv Heq Hnk Hnv Hlen lk data Hfresh.
  set (line := key ++ equals :: value) in *.
  set (st0 := (∅, false) : gmap string string * bool) in *.
  set (st1 := tag_loop (length pre) pre st0) in *.
  assert (Hline : line <> []) by (subst line; destruct key; [contradiction | discriminate]).
  assert (Hlnl : memchr newline line = None).
  { subst line. rewrite memchr_app, Hnk. cbn [memchr].
    rewrite bool_decide_eq_false_2 by discriminate. now rewrite Hnv. }
  (* the lines before *)
  assert (HA : tag_loop (length data) data st0 =
               tag_loop (length (line ++ post)) (line ++ post) st1).
  { subst data st1. destruct Hpre as [->|[pre' ->]].
    - cbn [app length]. now rewrite tag_loop_nil.
    - rewrite <- app_assoc. cbn [app].
      now rewrite tag_loop_app, tag_loop_snoc_newline. }
  (* the line itself *)
  assert (HB : exists rest, tag_loop (length (line ++ post)) (line ++ post) st1 =
                            tag_loop (length rest) rest (tag_line line st1)).
  { destruct Hpost as [->|[post' ->]].
    - exists []. rewrite app_nil_r, tag_loop_nil.
      apply (tag_loop_single_line line st1 Hline Hlnl).
    - exists post'. rewrite tag_loop_app.
      rewrite (tag_loop_single_line line st1 Hline Hlnl). reflexivity. }
  destruct HB as [rest HB]. rewrite HA, HB.
  apply tag_loop_preserves.
  destruct st1 as [kv u]. subst line. rewrite tag_line_key_value by assumption.
  now apply emplace_lookup_new.
Qed.

Lemma first_occurrence_wins_witness :
  let data := bytes_of "b=0" ++ [newline] ++ bytes_of "A=1" ++ [newline] ++ bytes_of "a=2" in
  (tag_loop (length data) data (∅, false)).1 !! "a"%string = Some "1"%string.
Proof.
  apply (first_occurrence_wins (bytes_of "b=0" ++ [newline]) (bytes_of "A") (bytes_of "1")
           (newline :: bytes_of "a=2")).
  - right. exists (bytes_of "b=0"). reflexivity.
  - right. exists (bytes_of "a=2"). reflexivity.
  - discriminate.
  - discriminate.
  - reflexivity.
  - reflexivity.
  - reflexivity.
  - reflexivity.
  - vm_compute. reflexivity.
Defined.

(** C9 as it is stated fails: of two lines with the key [a], the value
    of the last one is not the one that is kept, neither by the loop nor
    in the map that [parseTags] returns. *)
Lemma last_write_wins_counterexample :
  let data := bytes_of "a=1" ++ [newline] ++ bytes_of "a=2" in
  (tag_loop (length data) data (∅, false)).1 !! "a"%string = Some "1"%string /\
  (tag_loop (length data) data (∅, false)).1 !! "a"%string <> Some "2"%string /\
  tags (parseTags u8string (RpFile.open duplicate_key_file)
          (Z.of_nat sizeof_PSF_Header)) !! "a"%string = Some "1"%string.
Proof.
  vm_compute. split; [reflexivity | split; [discriminate | reflexivity]].
Qed.

(** What [parseTags] returns is the result of the loop over everything
    after the tag magic, with the values converted unless a "utf8" key
    was seen. *)
Lemma parseTags_tags_loop (conv : list ascii -> string) (f : RpFile.t) (tag_addr : Z) :
  0 <= tag_addr ->
  tag_addr + Z.of_nat sizeof_tag_magic < RpFile.size f ->
  let tag_data :=
    drop (Z.to_nat (tag_addr + Z.of_nat sizeof_tag_magic)) (RpFile.data f) in
  let st := tag_loop (length tag_data) tag_data (∅, false) in
  tags (parseTags conv f tag_addr) =
  if negb st.2 then (fun v => conv (c_str v)) <$> st.1 else st.1.
Proof.
  intros H0 Hlt. unfold parseTags.
  rewrite BRSTMFacts.seekAndRead_slice by lia. lazy beta iota zeta.
  unfold RpFile.size in *. cbn [RpFile.data] in *.
  set (bytes := RpFile.data f) in *.
  assert (Hm : length (slice bytes (Z.to_nat tag_addr) sizeof_tag_magic) = sizeof_tag_magic).
  { apply length_slice. unfold sizeof_tag_magic in *. lia. }
  rewrite Hm, Nat.eqb_refl. cbn [negb].
  destruct (_ <=? 0) eqn:E; [apply Z.leb_le in E; lia|].
  unfold RpFile.read. cbn [RpFile.data RpFile.pos RpFile.nreads RpFile.nbytes].
  set (data_len := Z.of_nat (length bytes) - tag_addr - Z.of_nat sizeof_tag_magic).
  rewrite (take_ge _ (Z.to_nat data_len))
    by (rewrite length_drop; unfold sizeof_tag_magic in *; lia).
  set (tag_data := drop _ bytes).
  assert (Hl : Z.of_nat (length tag_data) = data_len).
  { subst tag_data. rewrite length_drop. unfold sizeof_tag_magic in *. lia. }
  rewrite Hl, Z.eqb_refl. cbn [negb].
  destruct (tag_loop _ _ _) as [kv u]. cbn [tags fst snd].
  destruct u; reflexivity.
Qed.

(** *** Metadata of a file without tags *)
Lemma parseTags_file (conv : list ascii -> string) (f : RpFile.t) (a : Z) :
  RpFile.data (file_after (parseTags conv f a)) = RpFile.data f /\
  (RpFile.nreads f < RpFile.nreads (file_after (parseTags conv f a)))%nat.
Proof.
  unfold parseTags, RpFile.seekAndRead, RpFile.read, RpFile.size.
  destruct (a <? 0); cbn [RpFile.data RpFile.pos RpFile.nreads RpFile.nbytes];
    lazy beta iota zeta;
    repeat match goal with
    | |- context [if ?c then _ else _] => destruct c
    | |- context [let '(_, _) := ?p in _] => destruct p
    end;
    cbn [file_after RpFile.data RpFile.nreads]; split; (reflexivity || lia).
Qed.

(** The tags depend on the bytes of the file only, not on its cursor. *)
Lemma parseTags_tags_data (conv : list ascii -> string) (f f' : RpFile.t) (a : Z) :
  RpFile.data f = RpFile.data f' ->
  tags (parseTags conv f a) = tags (parseTags conv f' a).
Proof.
  intros Hd. unfold parseTags, RpFile.seekAndRead, RpFile.read, RpFile.size.
  destruct (a <? 0); [reflexivity|].
  cbn [RpFile.data RpFile.pos RpFile.nreads RpFile.nbytes].
  lazy beta iota zeta. rewrite <- Hd.
  repeat match goal with
  | |- context [if ?c then _ else _] => destruct c
  | |- context [let '(_, _) := ?p in _] => destruct p
  end;
  reflexivity.
Qed.

(** A file that ends at or before the end of the tag magic has no tags. *)
Lemma parseTags_absent (conv : list ascii -> string) (f : RpFile.t) (a : Z) :
  RpFile.size f <= a + Z.of_nat sizeof_tag_magic ->
  tags (parseTags conv f a) = ∅.
Proof.
  intros Hs. unfold parseTags.
  destruct (RpFile.seekAndRead f a (Z.of_nat sizeof_tag_magic)) as [m f1] eqn:E.
  assert (Hsz : RpFile.size f1 = RpFile.size f).
  { unfold RpFile.seekAndRead, RpFile.read in E.
    destruct (a <? 0); injection E as _ <-; reflexivity. }
  destruct (negb _); [reflexivity|].
  rewrite Hsz. destruct (_ <=? 0) eqn:E0; [reflexivity|].
  apply Z.leb_gt in E0. lia.
Qed.

(** C10: on a valid instance whose file is open and whose tag section
    gives no tags, [loadMetaData] returns -EIO and creates no metadata
    object; a second call reads the file again and returns -EIO again;
    [loadFieldData] succeeds with the System field. *)
Theorem untagged_metadata_not_cached (h : bool) (conv : list ascii -> string)
    (d : PSFPrivate) (f : RpFile.t) :
  isValid d = true -> file d = Some f -> metaData d = None ->
  tags (parseTags conv f (tag_addr_of h (psfHeader d))) = ∅ ->
  exists d1 f1,
    loadMetaData h conv d = Ret (- CInt.EIO, d1) /\
    metaData d1 = None /\ isValid d1 = true /\
    file d1 = Some f1 /\ (RpFile.nreads f < RpFile.nreads f1)%nat /\
    (exists d2 f2,
       loadMetaData h conv d1 = Ret (- CInt.EIO, d2) /\ metaData d2 = None /\
       file d2 = Some f2 /\ (RpFile.nreads f1 < RpFile.nreads f2)%nat) /\
    (fields d = [] ->
     exists d3 sysname,
       loadFieldData h conv d1 = (1, d3) /\
       fields d3 = [("System"%string, sysname)]).
Proof.
  intros Hv Hf Hm Ht.
  set (a := tag_addr_of h (psfHeader d)) in *.
  set (f1 := file_after (parseTags conv f a)).
  destruct (parseTags_file conv f a) as [Hd1 Hn1]. fold f1 in Hd1, Hn1.
  set (d1 := {| file := Some f1; isValid := true; fields := fields d;
                metaData := None; psfHeader := psfHeader d |}).
  assert (H1 : loadMetaData h conv d = Ret (- CInt.EIO, d1)).
  { unfold loadMetaData. rewrite Hm, Hf, Hv. cbn [negb]. lazy zeta. fold a.
    rewrite Ht. rewrite bool_decide_eq_true_2 by reflexivity. reflexivity. }
  assert (Ht1 : tags (parseTags conv f1 a) = ∅).
  { rewrite (parseTags_tags_data conv f1 f a Hd1). exact Ht. }
  exists d1, f1. split; [exact H1|].
  split; [reflexivity|]. split; [reflexivity|]. split; [reflexivity|]. split; [exact Hn1|].
  split.
  - set (f2 := file_after (parseTags conv f1 a)).
    destruct (parseTags_file conv f1 a) as [_ Hn2]. fold f2 in Hn2.
    eexists. exists f2. split; [|split; [|split; [|exact Hn2]]].
    + unfold loadMetaData. cbn [metaData file isValid psfHeader d1].
      cbn [negb]. lazy zeta. fold a. rewrite Ht1.
      rewrite bool_decide_eq_true_2 by reflexivity. reflexivity.
    + reflexivity.
    + reflexivity.
  - intros Hfs. unfold loadFieldData.
    cbn [metaData file isValid psfHeader fields d1]. rewrite Hfs.
    rewrite bool_decide_eq_true_2 by reflexivity. cbn [negb]. lazy zeta. fold a.
    rewrite Ht1. rewrite bool_decide_eq_true_2 by reflexivity. cbn [negb].
    eexists. eexists. split; [reflexivity|]. reflexivity.
Qed.

Lemma untagged_metadata_not_cached_witness :
  isValid untagged_instance = true /\
  fst <$> (match loadMetaData false u8string untagged_instance with
           | Ret r => Some r
           | Trap _ => None
           end) = Some (- CInt.EIO).
Proof.
  split; [reflexivity|].
  destruct (untagged_metadata_not_cached false u8string untagged_instance
              untagged_open_file eq_refl eq_refl eq_refl)
    as (d1 & f1 & H1 & _).
  - vm_compute. reflexivity.
  - rewrite H1. reflexivity.
Defined.

End PSFFacts.

(** ** More on buffers and integers *)
Module SliceFacts.
Import Mem MemFacts.

Lemma nth_slice (buf : list ascii) (off n i : nat) :
  (i < n)%nat -> (off + n <= length buf)%nat ->
  nth i (slice buf off n) zero = nth (off + i) buf zero.
Proof.
  intros Hi Hlen. rewrite !nth_lookup, lookup_slice.
  destruct (decide (i < n)%nat); [reflexivity | lia].
Qed.

Lemma slice_one (buf : list ascii) (off : nat) :
  (off < length buf)%nat -> slice buf off 1 = [nth off buf zero].
Proof.
  intros Hlen. unfold slice.
  destruct (drop off buf) as [|x r] eqn:E.
  - apply (f_equal length) in E. rewrite length_drop in E. cbn in E. lia.
  - cbn [take]. f_equal. rewrite nth_lookup.
    rewrite <- (Nat.add_0_r off), <- lookup_drop, E. reflexivity.
Qed.

(** A single byte reads the same in both byte orders. *)
Lemma load_byte (h : bool) (buf : list ascii) (off : nat) :
  (off < length buf)%nat -> load h buf off 1 = u8 (nth off buf zero).
Proof.
  intros Hlen. unfold load. rewrite slice_one by exact Hlen.
  destruct h; cbn; lia.
Qed.

Lemma be_val_range (l : list ascii) : 0 <= be_val l < 256 ^ Z.of_nat (length l).
Proof. unfold be_val. rewrite <- (length_rev l). apply le_val_range. Qed.

Lemma to_int32_id (z : Z) : - 2 ^ 31 <= z < 2 ^ 31 -> CInt.to_int32 z = z.
Proof.
  intros Hz. unfold CInt.to_int32. rewrite Z.mod_small; lia.
Qed.

Lemma to_int32_nat (n : nat) :
  Z.of_nat n < 2 ^ 31 -> CInt.to_int32 (Z.of_nat n) = Z.of_nat n.
Proof. intros H. apply to_int32_id. lia. Qed.

Lemma to_uint32_range (z : Z) : 0 <= CInt.to_uint32 z < 2 ^ 32.
Proof. unfold CInt.to_uint32. apply Z.mod_pos_bound. lia. Qed.

End SliceFacts.

(** ** TextFuncs: text functions *)
Module TextFacts.
Import Mem MemFacts SliceFacts TextFuncs.

(** A decidable statement about closed terms, by evaluation. *)
Ltac by_decide := apply (bool_decide_unpack _); vm_compute; exact I.

(** *** [trimEnd] *)
Lemma trimEnd_loop_app (l r : list ascii) (n : nat) :
  (n <= length l)%nat -> trimEnd_loop (l ++ r) n = trimEnd_loop l n.
Proof.
  induction n as [|n IH]; [reflexivity|]. intros Hn. cbn [trimEnd_loop].
  rewrite (lookup_app_l l) by lia. rewrite IH by lia. reflexivity.
Qed.

Lemma trimEnd_loop_spaces (t : list ascii) (k : nat) :
  last t <> Some space ->
  trimEnd_loop (t ++ replicate k space) (length t + k) = length t.
Proof.
  intros Hlast. induction k as [|k IH].
  - rewrite Nat.add_0_r. cbn [replicate]. rewrite app_nil_r.
    destruct t as [|c t _] using rev_ind; [reflexivity|].
    rewrite last_snoc in Hlast.
    rewrite length_app. cbn [length]. rewrite Nat.add_1_r. cbn [trimEnd_loop].
    rewrite lookup_app_r by lia. rewrite Nat.sub_diag. cbn [lookup list_lookup].
    rewrite bool_decide_eq_false_2 by congruence. reflexivity.
  - rewrite Nat.add_succ_r. cbn [trimEnd_loop].
    rewrite lookup_app_r by lia.
    replace (length t + k - length t)%nat with k by lia.
    rewrite lookup_replicate_2 by lia.
    rewrite bool_decide_eq_true_2 by reflexivity. cbn [negb].
    rewrite replicate_S_end, app_assoc.
    rewrite trimEnd_loop_app by (rewrite length_app, length_replicate; lia).
    exact IH.
Qed.

(** Every string is a string that does not end in a space, followed by
    spaces. *)
Lemma trailing_spaces (s : list ascii) :
  exists t k, s = t ++ replicate k space /\ last t <> Some space.
Proof.
  induction s as [|c s IH] using rev_ind.
  - exists [], 0%nat. split; [reflexivity | discriminate].
  - destruct (decide (c = space)) as [->|Hc].
    + destruct IH as (t & k & -> & Hl). exists t, (S k).
      split; [|exact Hl]. now rewrite replicate_S_end, app_assoc.
    + exists (s ++ [c]), 0%nat. cbn [replicate]. rewrite app_nil_r.
      split; [reflexivity|]. rewrite last_snoc. congruence.
Qed.

Lemma trimEnd_app_spaces (t : list ascii) (k : nat) :
  last t <> Some space -> trimEnd (t ++ replicate k space) = t.
Proof.
  intros Hl. unfold trimEnd. rewrite length_app, length_replicate.
  rewrite trimEnd_loop_spaces by exact Hl. apply take_app_length.
Qed.

Lemma app_spaces_inj (t t' : list ascii) (k k' : nat) :
  last t <> Some space -> last t' <> Some space ->
  t ++ replicate k space = t' ++ replicate k' space -> t = t'.
Proof.
  intros Hl Hl' E.
  rewrite <- (trimEnd_app_spaces t k Hl), <- (trimEnd_app_spaces t' k' Hl').
  now rewrite E.
Qed.

(** X1: [trimEnd] removes the spaces at the end of the string, all of
    them and nothing else: its result is the one string that does not end
    in a space and that gives the argument back when spaces are appended
    to it.  A string of spaces gives the empty string. *)
Theorem trimEnd_spec (s t : list ascii) :
  trimEnd s = t <->
  (exists k, s = t ++ replicate k space) /\ last t <> Some space.
Proof.
  split.
  - intros <-. destruct (trailing_spaces s) as (t & k & -> & Hl).
    rewrite (trimEnd_app_spaces t k Hl). split; [exists k; reflexivity | exact Hl].
  - intros [[k ->] Hl]. now apply trimEnd_app_spaces.
Qed.

(** *** [dos2unix] *)
Lemma dos2unix_loop_text (t : list ascii) :
  CR ∉ t ->
  forall (n : nat) (p out : list ascii) (lf : Z),
  dos2unix_loop (length t + n) (t ++ p) out lf = dos2unix_loop n p (out ++ t) lf.
Proof.
  induction t as [|c t IH]; intros Hcr n p out lf.
  - cbn [length app Nat.add]. now rewrite app_nil_r.
  - apply not_elem_of_cons in Hcr. destruct Hcr as [Hc Hcr].
    cbn [length app Nat.add dos2unix_loop].
    rewrite bool_decide_eq_false_2 by congruence.
    rewrite (IH Hcr). now rewrite <- app_assoc.
Qed.

Lemma dos2unix_loop_crlf (n : nat) (p out : list ascii) (lf : Z) :
  dos2unix_loop (S n) (CR :: LF :: p) out lf = dos2unix_loop n p (out ++ [LF]) (lf + 1).
Proof.
  cbn [dos2unix_loop]. now rewrite !bool_decide_eq_true_2 by reflexivity.
Qed.

Lemma join_cons (sep l : list ascii) (r : list (list ascii)) :
  r <> [] -> join sep (l :: r) = l ++ sep ++ join sep r.
Proof. destruct r; [contradiction | reflexivity]. Qed.

(** The loop on lines joined by CR LF: every line and every pair takes as
    many rounds as it gives characters to the output. *)
Lemma dos2unix_loop_lines (lines : list (list ascii)) :
  lines <> [] -> Forall (fun l => CR ∉ l) lines ->
  forall (n : nat) (p out : list ascii) (lf : Z),
  dos2unix_loop (length (join [LF] lines) + n) (join CRLF lines ++ p) out lf =
  dos2unix_loop n p (out ++ join [LF] lines) (lf + Z.of_nat (length lines - 1)).
Proof.
  induction lines as [|l r IH]; [contradiction|]. intros _ Hall n p out lf.
  apply Forall_cons in Hall. destruct Hall as [Hl Hr].
  destruct r as [|l' r'].
  - cbn [join length Nat.sub]. rewrite Z.add_0_r. now apply dos2unix_loop_text.
  - rewrite (join_cons CRLF), (join_cons [LF]) by discriminate.
    rewrite !length_app. cbn [length CRLF app].
    rewrite <- ?app_assoc. cbn [app].
    rewrite <- Nat.add_assoc. rewrite (dos2unix_loop_text l Hl).
    cbn [Nat.add]. rewrite dos2unix_loop_crlf.
    rewrite (IH ltac:(discriminate) Hr).
    rewrite <- ?app_assoc. cbn [app length Nat.sub].
    f_equal. rewrite Nat.sub_0_r. lia.
Qed.

Lemma length_join_crlf (lines : list (list ascii)) :
  lines <> [] ->
  length (join CRLF lines) = (length (join [LF] lines) + (length lines - 1))%nat.
Proof.
  induction lines as [|l r IH]; [contradiction|]. intros _.
  destruct r as [|l' r']; [cbn [join length Nat.sub]; lia|].
  rewrite (join_cons CRLF), (join_cons [LF]) by discriminate.
  rewrite !length_app, IH by discriminate. cbn [length CRLF]. lia.
Qed.

(** The loop on text without CR that ends before the rounds do. *)
Lemma dos2unix_loop_short (t : list ascii) :
  CR ∉ t ->
  forall (n : nat) (out : list ascii) (lf : Z),
  (length t <= n)%nat ->
  dos2unix_loop n t out lf =
  if (n =? length t)%nat then Some ([], out ++ t, lf) else None.
Proof.
  induction t as [|c t IH]; intros Hcr n out lf Hn.
  - destruct n; cbn [length dos2unix_loop Nat.eqb]; [|reflexivity].
    now rewrite app_nil_r.
  - apply not_elem_of_cons in Hcr. destruct Hcr as [Hc Hcr].
    cbn [length] in *. destruct n as [|n]; [lia|].
    cbn [dos2unix_loop Nat.eqb]. rewrite bool_decide_eq_false_2 by congruence.
    rewrite (IH Hcr) by lia. now rewrite <- app_assoc.
Qed.

(** With a length that is given and positive. *)
Lemma dos2unix_explicit (str_dos : list ascii) (n : nat) :
  dos2unix str_dos (Z.of_nat (S n)) =
  match dos2unix_loop n str_dos [] 0 with
  | None => None
  | Some (str_dos, str_unix, lf) =>
    match str_dos with
    | [] => None
    | c :: _ =>
        if bool_decide (c = CR) then Some (str_unix ++ [LF], lf + 1)
        else Some (str_unix ++ [c], lf)
    end
  end.
Proof.
  unfold dos2unix.
  destruct (Z.of_nat (S n) <? 0) eqn:E; [apply Z.ltb_lt in E; lia|]. rewrite E.
  replace (Z.to_nat (Z.of_nat (S n) - 1)) with n by lia. reflexivity.
Qed.

(** The text [lines] followed by [tail], with the length of the text. *)
Lemma dos2unix_lines_tail (lines : list (list ascii)) (tail : list ascii) :
  join CRLF lines <> [] ->
  Forall (fun l => CR ∉ l) lines ->
  (length lines - 1 <= length tail)%nat ->
  CR ∉ take (length lines - 1) tail ->
  dos2unix (join CRLF lines ++ tail) (Z.of_nat (length (join CRLF lines))) =
  Some (join [LF] lines ++ take (length lines - 1) tail,
        Z.of_nat (length lines - 1)).
Proof.
  intros Hne Hall Hk Hcr.
  assert (Hl : lines <> []) by (intros ->; now apply Hne).
  destruct (length lines - 1)%nat as [|k'] eqn:Ek.
  - (* no pair: one line *)
    destruct lines as [|t [|l' r']]; [contradiction| |cbn [length] in Ek; lia].
    cbn [join] in *. cbn [take]. rewrite app_nil_r.
    destruct t as [|c t' _] using rev_ind; [contradiction|].
    apply Forall_cons in Hall. destruct Hall as [Ht _].
    apply not_elem_of_app in Ht. destruct Ht as [Ht' Hc].
    apply not_elem_of_cons in Hc. destruct Hc as [Hc _].
    rewrite length_app. cbn [length]. rewrite Nat.add_1_r, dos2unix_explicit.
    rewrite <- app_assoc. cbn [app].
    rewrite <- (Nat.add_0_r (length t')).
    rewrite (dos2unix_loop_text t' Ht'). cbn [dos2unix_loop app].
    rewrite bool_decide_eq_false_2 by congruence. reflexivity.
  - rewrite (length_join_crlf lines Hl), Ek.
    rewrite Nat.add_succ_r, dos2unix_explicit.
    rewrite (dos2unix_loop_lines lines Hl Hall). rewrite Ek. cbn [app].
    assert (Hlt : (k' < length tail)%nat) by lia.
    destruct (lookup_lt_is_Some_2 tail k' Hlt) as [c Hc].
    rewrite (take_S_r tail k' c Hc) in Hcr.
    apply not_elem_of_app in Hcr. destruct Hcr as [Hsub Hcc].
    apply not_elem_of_cons in Hcc. destruct Hcc as [Hcc _].
    rewrite <- (take_drop k' tail) at 1.
    assert (Hk' : length (take k' tail) = k') by (rewrite length_take; lia).
    rewrite <- Hk' at 1. rewrite <- (Nat.add_0_r (length (take k' tail))).
    rewrite (dos2unix_loop_text (take k' tail) Hsub). cbn [dos2unix_loop].
    rewrite (drop_S tail c k' Hc).
    rewrite bool_decide_eq_false_2 by congruence.
    rewrite (take_S_r tail k' c Hc). rewrite <- !app_assoc. reflexivity.
Qed.

(** X3: the text [lines] has [length lines - 1] CR LF pairs.  Called with
    the length of the text, [dos2unix] converts every pair, and then
    appends as many characters of what follows the text in memory as
    there were pairs: a pair moves the cursor by two characters and the
    count of characters left by one. *)
Theorem dos2unix_lines (lines : list (list ascii)) (tail : list ascii) :
  join CRLF lines <> [] ->
  Forall (fun l => CR ∉ l) lines ->
  (length lines - 1 <= length tail)%nat ->
  CR ∉ take (length lines - 1) tail ->
  dos2unix (join CRLF lines ++ tail) (Z.of_nat (length (join CRLF lines))) =
  Some (join [LF] lines ++ take (length lines - 1) tail,
        Z.of_nat (length lines - 1)).
Proof. exact (dos2unix_lines_tail lines tail). Qed.

Lemma dos2unix_lines_witness :
  dos2unix (bytes_of "ab" ++ CRLF ++ bytes_of "c" ++ CRLF ++ bytes_of "d" ++ bytes_of "XYZ") 8 =
  Some (bytes_of "ab" ++ [LF] ++ bytes_of "c" ++ [LF] ++ bytes_of "d" ++ bytes_of "XY", 2).
Proof.
  apply (dos2unix_lines [bytes_of "ab"; bytes_of "c"; bytes_of "d"] (bytes_of "XYZ")).
  - discriminate.
  - by_decide.
  - cbn. lia.
  - by_decide.
Defined.

(** With fewer characters behind the text than the text has pairs, the
    function reads past the end of what it was given. *)
Lemma dos2unix_lines_short (lines : list (list ascii)) (tail : list ascii) :
  lines <> [] ->
  Forall (fun l => CR ∉ l) lines ->
  (length tail < length lines - 1)%nat ->
  CR ∉ tail ->
  dos2unix (join CRLF lines ++ tail) (Z.of_nat (length (join CRLF lines))) = None.
Proof.
  intros Hl Hall Hk Hcr.
  rewrite (length_join_crlf lines Hl).
  destruct (length lines - 1)%nat as [|k'] eqn:Ek; [lia|].
  rewrite Nat.add_succ_r, dos2unix_explicit.
  rewrite (dos2unix_loop_lines lines Hl Hall). rewrite Ek.
  rewrite (dos2unix_loop_short tail Hcr) by lia.
  destruct (k' =? length tail)%nat; reflexivity.
Qed.

Lemma strlen_app (t r : list ascii) :
  zero ∉ t -> strlen (t ++ zero :: r) = Some (length t).
Proof.
  induction t as [|c t IH]; intros Hz.
  - cbn [app strlen]. now rewrite bool_decide_eq_true_2.
  - apply not_elem_of_cons in Hz. destruct Hz as [Hc Hz].
    cbn [app strlen length]. rewrite bool_decide_eq_false_2 by congruence.
    now rewrite (IH Hz).
Qed.

Lemma zero_not_in_join (sep : list ascii) (lines : list (list ascii)) :
  zero ∉ sep -> Forall (fun l => zero ∉ l) lines -> zero ∉ join sep lines.
Proof.
  intros Hs. induction lines as [|l r IH]; intros Hall.
  - cbn [join]. apply not_elem_of_nil.
  - apply Forall_cons in Hall. destruct Hall as [Hl Hr].
    destruct r as [|l' r']; [exact Hl|].
    rewrite join_cons by discriminate.
    rewrite !not_elem_of_app. auto.
Qed.

(** X2: on a NUL-terminated string whose memory ends with its terminator,
    text without a CR LF pair is returned as it is, text with one pair is
    returned converted and with the terminator appended to it, and text
    with two pairs or more makes the function read past the terminator. *)
Theorem dos2unix_c_string (lines : list (list ascii)) :
  join CRLF lines <> [] ->
  Forall (fun l => (CR ∉ l) /\ (zero ∉ l)) lines ->
  Z.of_nat (length (join CRLF lines)) < 2 ^ 31 ->
  dos2unix (join CRLF lines ++ [zero]) (-1) =
  match lines with
  | [l] => Some (l, 0)
  | [l1; l2] => Some (l1 ++ [LF] ++ l2 ++ [zero], 1)
  | _ => None
  end.
Proof.
  intros Hne Hall Hlen.
  assert (Hl : lines <> []) by (intros ->; now apply Hne).
  assert (Hcr : Forall (fun l => CR ∉ l) lines).
  { eapply Forall_impl; [exact Hall|]. cbn. tauto. }
  assert (Hz : Forall (fun l => zero ∉ l) lines).
  { eapply Forall_impl; [exact Hall|]. cbn. tauto. }
  assert (Hs : dos2unix (join CRLF lines ++ [zero]) (-1) =
               dos2unix (join CRLF lines ++ [zero])
                 (Z.of_nat (length (join CRLF lines)))).
  { unfold dos2unix at 1. change (-1 <? 0) with true. cbv iota.
    rewrite strlen_app.
    2: { apply zero_not_in_join; [|exact Hz].
         unfold CRLF. rewrite !not_elem_of_cons. split; [discriminate|].
         split; [discriminate|]. apply not_elem_of_nil. }
    cbn [fmap option_fmap option_map]. rewrite to_int32_nat by exact Hlen.
    unfold dos2unix.
    destruct (Z.of_nat _ <? 0) eqn:E; [apply Z.ltb_lt in E; lia|].
    rewrite ?E. reflexivity. }
  rewrite Hs.
  destruct lines as [|l1 [|l2 [|l3 r]]]; [contradiction| | |].
  - rewrite (dos2unix_lines_tail [l1] [zero] Hne Hcr); cbn [length Nat.sub take].
    + now rewrite app_nil_r.
    + lia.
    + apply not_elem_of_nil.
  - rewrite (dos2unix_lines_tail [l1; l2] [zero] Hne Hcr); cbn [length Nat.sub take].
    + cbn [join]. now rewrite <- !app_assoc.
    + lia.
    + rewrite not_elem_of_cons. split; [discriminate | apply not_elem_of_nil].
  - apply (dos2unix_lines_short (l1 :: l2 :: l3 :: r) [zero] Hl Hcr).
    + cbn [length]. lia.
    + rewrite not_elem_of_cons. split; [discriminate | apply not_elem_of_nil].
Qed.

Lemma dos2unix_c_string_witness :
  dos2unix (bytes_of "ab" ++ CRLF ++ bytes_of "c" ++ [zero]) (-1) =
  Some (bytes_of "ab" ++ [LF] ++ bytes_of "c" ++ [zero], 1).
Proof.
  apply (dos2unix_c_string [bytes_of "ab"; bytes_of "c"]).
  - discriminate.
  - by_decide.
  - vm_compute. reflexivity.
Defined.

(** What the loop keeps: every round gives one character to the output;
    a round that finds a pair takes two characters from the input. *)
Lemma dos2unix_loop_inv (n : nat) :
  forall (p out p' out' : list ascii) (lf lf' : Z),
  dos2unix_loop n p out lf = Some (p', out', lf') ->
  (length out' = length out + n)%nat /\ (lf <= lf') /\
  (Z.of_nat (length p) = Z.of_nat (length p') + Z.of_nat n + (lf' - lf)).
Proof.
  induction n as [|n IH]; intros p out p' out' lf lf' H.
  - cbn [dos2unix_loop] in H. injection H as <- <- <-. lia.
  - cbn [dos2unix_loop] in H. destruct p as [|c0 p1]; [discriminate|].
    destruct (bool_decide (c0 = CR)).
    + destruct p1 as [|c1 p2]; [discriminate|].
      destruct (bool_decide (c1 = LF)).
      * apply IH in H. rewrite length_app in H. cbn [length] in *. lia.
      * apply IH in H. rewrite length_app in H. cbn [length] in *. lia.
    + apply IH in H. rewrite length_app in H. cbn [length] in *. lia.
Qed.

(** X4: whatever the text is, the result has as many characters as the
    length passed in, and one when that length is 0: a CR LF pair does not
    make the result shorter.  The count of line feeds is at most one more
    than the number of characters that were read beyond the length passed
    in. *)
Theorem dos2unix_length (str_dos str_unix : list ascii) (len lf : Z) :
  0 <= len -> dos2unix str_dos len = Some (str_unix, lf) ->
  (Z.of_nat (length str_unix) = Z.max len 1) /\ (0 <= lf) /\
  (Z.max len 1 + lf - 1 <= Z.of_nat (length str_dos)).
Proof.
  intros Hlen H. unfold dos2unix in H.
  destruct (len <? 0) eqn:E; [apply Z.ltb_lt in E; lia|]. rewrite E in H.
  destruct (dos2unix_loop _ _ _ _) as [[[p out] k]|] eqn:Hloop; [|discriminate].
  apply dos2unix_loop_inv in Hloop. cbn [length] in Hloop.
  destruct p as [|c p]; [discriminate|]. cbn [length] in Hloop.
  destruct (bool_decide (c = CR)); injection H as <- <-;
    rewrite length_app; cbn [length]; lia.
Qed.

Lemma dos2unix_length_witness :
  (Z.of_nat (length (bytes_of "ab" ++ [LF] ++ bytes_of "c" ++ [zero])) = Z.max 5 1) /\
  (0 <= 1) /\
  (Z.max 5 1 + 1 - 1 <= Z.of_nat (length (bytes_of "ab" ++ CRLF ++ bytes_of "c" ++ [zero]))).
Proof.
  apply (dos2unix_length (bytes_of "ab" ++ CRLF ++ bytes_of "c" ++ [zero])
           (bytes_of "ab" ++ [LF] ++ bytes_of "c" ++ [zero]) 5 1).
  - lia.
  - reflexivity.
Defined.

(** *** 16-bit strings *)
Lemma swab2_swab2 (x : Z) : swab 2 (swab 2 x) = x mod 2 ^ 16.
Proof.
  unfold swab, be_val.
  pose proof (le_bytes_le_val (rev (le_bytes 2 x))) as E.
  rewrite length_rev, length_le_bytes in E. rewrite E, rev_involutive.
  apply le_val_le_bytes.
Qed.

Lemma swab2_range (x : Z) : 0 <= swab 2 x < 2 ^ 16.
Proof.
  unfold swab, be_val.
  pose proof (le_val_range (rev (le_bytes 2 x))) as H.
  rewrite length_rev, length_le_bytes in H. exact H.
Qed.

Lemma swab2_nonzero (x : Z) : 0 < x < 2 ^ 16 -> 0 < swab 2 x < 2 ^ 16.
Proof.
  intros Hx. pose proof (swab2_range x) as Hr.
  destruct (Z.eq_dec (swab 2 x) 0) as [E|E]; [|lia].
  pose proof (swab2_swab2 x) as H. rewrite E in H.
  rewrite Z.mod_small in H by lia. change (swab 2 0) with 0 in H. lia.
Qed.

Lemma u16_strlen_app (s r : list Z) :
  Forall (fun c => c <> 0) s -> u16_strlen (s ++ 0 :: r) = Some (length s).
Proof.
  induction s as [|c s IH]; intros Hs; [reflexivity|].
  apply Forall_cons in Hs. destruct Hs as [Hc Hs].
  cbn [app u16_strlen length]. apply Z.eqb_neq in Hc. rewrite Hc. cbn [negb].
  now rewrite (IH Hs).
Qed.

Lemma utf16_bswap_loop_app (s r ret : list Z) :
  utf16_bswap_loop (length s) (s ++ r) ret = Some (ret ++ map (swab 2) s).
Proof.
  revert ret. induction s as [|c s IH]; intros ret.
  - cbn. now rewrite app_nil_r.
  - cbn [length app utf16_bswap_loop map]. rewrite IH, <- app_assoc. reflexivity.
Qed.

Lemma map_swab2_involutive (s : list Z) :
  Forall (fun c => 0 <= c < 2 ^ 16) s -> map (swab 2) (map (swab 2) s) = s.
Proof.
  induction s as [|c s IH]; intros Hs; [reflexivity|].
  apply Forall_cons in Hs. destruct Hs as [Hc Hs].
  cbn [map]. rewrite swab2_swab2, Z.mod_small by exact Hc. now rewrite IH.
Qed.

(** With a length that is given and positive, the first [len] characters
    are swapped one by one. *)
Lemma utf16_bswap_explicit (s r : list Z) :
  utf16_bswap (s ++ r) (Z.of_nat (length s)) = Some (map (swab 2) s).
Proof.
  unfold utf16_bswap. destruct s as [|c s]; [reflexivity|].
  destruct (Z.of_nat _ =? 0) eqn:E0; [apply Z.eqb_eq in E0; cbn [length] in E0; lia|].
  destruct (Z.of_nat _ <? 0) eqn:E1; [apply Z.ltb_lt in E1; lia|].
  rewrite Nat2Z.id. apply (utf16_bswap_loop_app (c :: s) r []).
Qed.

(** With the length -1, on a NUL-terminated string. *)
Lemma utf16_bswap_terminated (s r : list Z) :
  Forall (fun c => c <> 0) s -> Z.of_nat (length s) < 2 ^ 31 ->
  utf16_bswap (s ++ 0 :: r) (-1) = Some (map (swab 2) s).
Proof.
  intros Hs Hlen. unfold utf16_bswap. change (-1 =? 0) with false.
  change (-1 <? 0) with true. cbv iota. rewrite (u16_strlen_app s r Hs).
  rewrite to_int32_nat by exact Hlen.
  destruct s as [|c s]; [reflexivity|].
  destruct (Z.of_nat _ <=? 0) eqn:E; [apply Z.leb_le in E; cbn [length] in E; lia|].
  rewrite Nat2Z.id. apply (utf16_bswap_loop_app (c :: s) (0 :: r) []).
Qed.

(** X5: swapping twice gives the text back, with a length that is given
    (the text may then hold NUL characters) and with the length -1 for a
    NUL-terminated string: a character that is not NUL is not swapped to
    NUL, so the swapped string ends where the text ends. *)
Theorem utf16_bswap_round_trip (s r : list Z) :
  Forall (fun c => 0 <= c < 2 ^ 16) s ->
  exists s',
    utf16_bswap (s ++ r) (Z.of_nat (length s)) = Some s' /\
    length s' = length s /\
    utf16_bswap s' (Z.of_nat (length s')) = Some s /\
    (Forall (fun c => c <> 0) s -> Z.of_nat (length s) < 2 ^ 31 ->
     utf16_bswap (s ++ 0 :: r) (-1) = Some s' /\
     utf16_bswap (s' ++ [0]) (-1) = Some s).
Proof.
  intros Hs. exists (map (swab 2) s).
  split; [apply utf16_bswap_explicit|].
  split; [apply length_map|].
  split.
  { rewrite <- (app_nil_r (map (swab 2) s)) at 1.
    rewrite utf16_bswap_explicit. now rewrite map_swab2_involutive. }
  intros Hnz Hlen.
  split; [now apply utf16_bswap_terminated|].
  rewrite utf16_bswap_terminated.
  - now rewrite map_swab2_involutive.
  - apply Forall_map. rewrite Forall_forall in *. intros c Hc. cbn beta.
    pose proof (Hs c Hc) as Hr. pose proof (Hnz c Hc) as Hn. cbn beta in Hr, Hn.
    assert (Hp : 0 < c < 2 ^ 16) by lia.
    pose proof (swab2_nonzero c Hp). lia.
  - now rewrite length_map.
Qed.

Lemma utf16_bswap_round_trip_witness :
  exists s',
    utf16_bswap [0x0041; 0x3042; 0x0000] 2 = Some s' /\
    length s' = 2%nat /\
    utf16_bswap s' (Z.of_nat (length s')) = Some [0x0041; 0x3042] /\
    (Forall (fun c => c <> 0) [0x0041; 0x3042] -> Z.of_nat 2 < 2 ^ 31 ->
     utf16_bswap [0x0041; 0x3042; 0x0000] (-1) = Some s' /\
     utf16_bswap (s' ++ [0]) (-1) = Some [0x0041; 0x3042]).
Proof.
  apply (utf16_bswap_round_trip [0x0041; 0x3042] [0x0000]).
  repeat constructor; lia.
Defined.

Lemma u16_strnlen_from_terminated (wcs : list Z) :
  forall (n : nat) (maxlen len : Z),
  u16_strlen wcs = Some n -> len <= maxlen ->
  u16_strnlen_from wcs maxlen len = Some (Z.min (len + Z.of_nat n) maxlen).
Proof.
  induction wcs as [|c wcs IH]; intros n maxlen len Hn Hlen; [discriminate|].
  cbn [u16_strlen u16_strnlen_from] in *.
  destruct (c =? 0); cbn [negb andb] in *.
  - injection Hn as <-. f_equal. lia.
  - destruct (u16_strlen wcs) as [m|]; [|discriminate].
    injection Hn as <-. destruct (len <? maxlen) eqn:E.
    + apply Z.ltb_lt in E. rewrite (IH m) by (auto; lia). f_equal. lia.
    + apply Z.ltb_ge in E. f_equal. lia.
Qed.

(** X6: [u16_strnlen] on a terminated string returns the length of the
    string, or the limit when the string is longer. *)
Theorem u16_strnlen_min (wcs : list Z) (n : nat) (maxlen : Z) :
  u16_strlen wcs = Some n -> 0 <= maxlen ->
  u16_strnlen wcs maxlen = Some (Z.min (Z.of_nat n) maxlen).
Proof.
  intros Hn Hm. unfold u16_strnlen.
  now rewrite (u16_strnlen_from_terminated wcs n maxlen 0 Hn Hm).
Qed.

Lemma u16_strnlen_min_witness :
  u16_strnlen [0x41; 0x42; 0x43; 0; 0x44] 2 = Some 2 /\
  u16_strnlen [0x41; 0x42; 0x43; 0; 0x44] 8 = Some 3.
Proof.
  split.
  - apply (u16_strnlen_min [0x41; 0x42; 0x43; 0; 0x44] 3 2); [reflexivity | lia].
  - apply (u16_strnlen_min [0x41; 0x42; 0x43; 0; 0x44] 3 8); [reflexivity | lia].
Defined.

Lemma u16_strnlen_from_unterminated (wcs : list Z) :
  forall (maxlen len : Z),
  Forall (fun c => c <> 0) wcs -> len + Z.of_nat (length wcs) <= maxlen ->
  u16_strnlen_from wcs maxlen len = None.
Proof.
  induction wcs as [|c wcs IH]; intros maxlen len Hs Hlen; [reflexivity|].
  apply Forall_cons in Hs. destruct Hs as [Hc Hs].
  cbn [u16_strnlen_from length] in *. apply Z.eqb_neq in Hc. rewrite Hc.
  destruct (len <? maxlen) eqn:E; [|apply Z.ltb_ge in E; lia].
  cbn [negb andb]. apply IH; [exact Hs | lia].
Qed.

(** X7: the limit is tested after the character is read: on a buffer of
    [maxlen] characters, or fewer, that holds no NUL, [u16_strnlen] reads
    the character behind the buffer. *)
Theorem u16_strnlen_unterminated (wcs : list Z) (maxlen : Z) :
  Forall (fun c => c <> 0) wcs -> Z.of_nat (length wcs) <= maxlen ->
  u16_strnlen wcs maxlen = None.
Proof.
  intros Hs Hlen. unfold u16_strnlen.
  apply u16_strnlen_from_unterminated; [exact Hs | lia].
Qed.

Lemma u16_strnlen_unterminated_witness :
  u16_strnlen [0x41; 0x42; 0x43; 0x44] 4 = None.
Proof.
  apply (u16_strnlen_unterminated [0x41; 0x42; 0x43; 0x44] 4).
  - repeat constructor; lia.
  - cbn. lia.
Defined.

(** X8: [u16_strcmp] on two terminated strings returns, reads nothing behind
    the terminators, returns 0 exactly when the strings are equal, and
    changes its sign when its arguments change places. *)
Theorem u16_strcmp_spec (s1 s2 r1 r2 : list Z) :
  Forall (fun c => c <> 0) s1 -> Forall (fun c => c <> 0) s2 ->
  exists d,
    u16_strcmp (s1 ++ 0 :: r1) (s2 ++ 0 :: r2) = Some d /\
    u16_strcmp (s2 ++ 0 :: r2) (s1 ++ 0 :: r1) = Some (- d) /\
    (d = 0 <-> s1 = s2).
Proof.
  revert s2. induction s1 as [|c1 s1 IH]; intros s2 H1 H2.
  - destruct s2 as [|c2 s2].
    + exists 0. cbn. tauto.
    + apply Forall_cons in H2. destruct H2 as [Hc2 _].
      exists (0 - c2). cbn [app u16_strcmp].
      change (0 =? 0) with true. cbn [negb andb].
      apply Z.eqb_neq in Hc2. rewrite Hc2. cbn [negb andb].
      destruct (c2 =? 0) eqn:E; [discriminate|]. apply Z.eqb_neq in E.
      split; [reflexivity|]. split; [f_equal; lia|].
      split; [lia | discriminate].
  - apply Forall_cons in H1. destruct H1 as [Hc1 H1].
    destruct s2 as [|c2 s2].
    + exists (c1 - 0). cbn [app u16_strcmp].
      change (0 =? 0) with true. cbn [negb andb].
      pose proof Hc1 as Hc1'. apply Z.eqb_neq in Hc1. rewrite Hc1. cbn [negb andb].
      split; [reflexivity|]. split; [f_equal; lia|].
      split; [lia | discriminate].
    + apply Forall_cons in H2. destruct H2 as [Hc2 H2].
      cbn [app u16_strcmp].
      pose proof Hc1 as Hc1'. pose proof Hc2 as Hc2'.
      apply Z.eqb_neq in Hc1, Hc2. rewrite Hc1, Hc2. cbn [negb andb].
      destruct (c1 =? c2) eqn:E.
      * apply Z.eqb_eq in E. subst c2. rewrite Z.eqb_refl.
        destruct (IH s2 H1 H2) as (d & Ha & Hb & Hd).
        exists d. split; [exact Ha|]. split; [exact Hb|].
        rewrite Hd. split; [intros ->; reflexivity | intros [= ->]; reflexivity].
      * rewrite Z.eqb_sym, E. apply Z.eqb_neq in E.
        exists (c1 - c2). split; [reflexivity|]. split; [f_equal; lia|].
        split; [lia | intros [= -> _]; contradiction].
Qed.

Lemma u16_strcmp_spec_witness :
  exists d,
    u16_strcmp [0x41; 0x42; 0] [0x41; 0x43; 0; 0x45] = Some d /\
    u16_strcmp [0x41; 0x43; 0; 0x45] [0x41; 0x42; 0] = Some (- d) /\
    (d = 0 <-> [0x41; 0x42] = [0x41; 0x43]).
Proof.
  apply (u16_strcmp_spec [0x41; 0x42] [0x41; 0x43] [] [0x45]);
    repeat constructor; lia.
Defined.

(** *** File sizes *)

(** Below 1024 the floating-point computation of [calc_frac_part] is
    exact: all 1024 cases. *)
Lemma calc_frac_part_below_1024 (r : Z) :
  0 <= r < 1024 -> calc_frac_part r 1024 = frac_of_1024 r.
Proof.
  intros Hr.
  assert (H : forallb (fun n => calc_frac_part (Z.of_nat n) 1024 =?
                                frac_of_1024 (Z.of_nat n)) (seq 0 1024) = true)
    by (vm_compute; reflexivity).
  rewrite forallb_forall in H.
  specialize (H (Z.to_nat r)). rewrite Z2Nat.id in H by lia.
  apply Z.eqb_eq, H, in_seq. lia.
Qed.

Lemma calc_frac_part_mod (size : Z) :
  calc_frac_part size 1024 = calc_frac_part (size mod 1024) 1024.
Proof.
  unfold calc_frac_part. change (1024 - 1) with (Z.ones 10).
  rewrite !Z.land_ones by lia. change (2 ^ 10) with 1024.
  now rewrite Z.mod_mod by lia.
Qed.

Lemma frac_of_1024_range (r : Z) : 0 <= r < 1024 -> 0 <= frac_of_1024 r <= 100.
Proof.
  intros Hr. unfold frac_of_1024. cbv zeta.
  assert (0 <= r * 125 / 128 < 1000).
  { split; [apply Z.div_pos; lia | apply Z.div_lt_upper_bound; lia]. }
  set (t := r * 125 / 128) in *.
  pose proof (Z.div_mod t 10 ltac:(lia)).
  pose proof (Z.mod_pos_bound t 10 ltac:(lia)).
  destruct (_ >? 5); lia.
Qed.

(** X9: the fraction of a size in units of 1024 bytes: the floating-point
    code computes the hundredths [size mod 1024 * 125 / 128 / 10], one
    more when the thousandths digit is above 5.  The result lies between
    0 and 100, and it is 100, which is not a fraction of two digits, for
    the four sizes just below a unit. *)
Theorem calc_frac_part_1024 (size : Z) :
  calc_frac_part size 1024 = frac_of_1024 (size mod 1024) /\
  0 <= calc_frac_part size 1024 <= 100 /\
  (calc_frac_part size 1024 = 100 <-> 1020 <= size mod 1024).
Proof.
  pose proof (Z.mod_pos_bound size 1024 ltac:(lia)) as Hr.
  rewrite calc_frac_part_mod, (calc_frac_part_below_1024 _ Hr).
  split; [reflexivity|]. split; [now apply frac_of_1024_range|].
  generalize dependent (size mod 1024). intros r Hr. unfold frac_of_1024. cbv zeta.
  assert (Ht : 0 <= r * 125 / 128 < 1000).
  { split; [apply Z.div_pos; lia | apply Z.div_lt_upper_bound; lia]. }
  pose proof (Z.div_mod (r * 125) 128 ltac:(lia)) as Hd.
  pose proof (Z.mod_pos_bound (r * 125) 128 ltac:(lia)) as Hm.
  set (t := r * 125 / 128) in *.
  pose proof (Z.div_mod t 10 ltac:(lia)) as Hd'.
  pose proof (Z.mod_pos_bound t 10 ltac:(lia)) as Hm'.
  destruct (t mod 10 >? 5) eqn:E; [apply Z.gtb_lt in E | rewrite Z.gtb_ltb in E; apply Z.ltb_ge in E]; lia.
Qed.

Lemma fmt_d_nonneg (z : Z) : 0 <= z -> fmt_d z = Printf.fmt_u z.
Proof.
  intros Hz. unfold fmt_d. destruct (z <? 0) eqn:E; [apply Z.ltb_lt in E; lia|].
  reflexivity.
Qed.

Lemma formatFileSize_KiB_eq (decimal_point : string) (size : Z) :
  2048 <= size < 2097152 ->
  let whole := size / 1024 in
  let frac := frac_of_1024 (size mod 1024) in
  let digits :=
    if 10 <=? whole
    then Printf.pad0 1 (Printf.fmt_u (frac / 10 + (if frac mod 10 >? 5 then 1 else 0)))
    else Printf.pad0 2 (Printf.fmt_u frac) in
  formatFileSize decimal_point size =
  ((Printf.fmt_u whole +:+ decimal_point +:+ digits) +:+ " KiB")%string.
Proof.
  intros Hs whole frac digits. subst digits. unfold formatFileSize.
  change (Z.shiftl 2 10) with 2048. change (Z.shiftl 2 20) with 2097152.
  change (Z.shiftl 1 10) with 1024.
  destruct (size <? 0) eqn:E0; [apply Z.ltb_lt in E0; lia|].
  destruct (size <? 2048) eqn:E1; [apply Z.ltb_lt in E1; lia|].
  destruct (size <? 2097152) eqn:E2; [|apply Z.ltb_ge in E2; lia].
  destruct (2048 <=? size) eqn:E3; [|apply Z.leb_gt in E3; lia].
  rewrite Z.shiftr_div_pow2 by lia. change (2 ^ 10) with 1024. fold whole.
  assert (Hw : 2 <= whole < 2048).
  { subst whole. split; [apply Z.div_le_lower_bound; lia | apply Z.div_lt_upper_bound; lia]. }
  rewrite to_int32_id by lia.
  rewrite calc_frac_part_mod, calc_frac_part_below_1024
    by (apply Z.mod_pos_bound; lia).
  fold frac.
  pose proof (frac_of_1024_range (size mod 1024)
                (Z.mod_pos_bound size 1024 ltac:(lia))) as Hf. fold frac in Hf.
  rewrite (fmt_d_nonneg whole) by lia.
  destruct (10 <=? whole).
  - rewrite Z.rem_mod_nonneg, Z.quot_div_nonneg by lia.
    rewrite fmt_d_nonneg; [reflexivity|].
    pose proof (Z.div_pos frac 10). destruct (_ >? 5); lia.
  - rewrite fmt_d_nonneg by lia. reflexivity.
Qed.

(** X10: a size from 2 KiB up to, and not including, 2 MiB is printed
    as its whole units of 1024 bytes, the decimal point of the locale,
    the fraction with two digits, with one digit from ten units on, and
    the suffix KiB; the fraction is the one of [frac_of_1024], in
    integers. *)
Theorem formatFileSize_KiB (decimal_point : string) (size : Z) :
  2048 <= size < 2097152 ->
  let whole := size / 1024 in
  let frac := frac_of_1024 (size mod 1024) in
  let digits :=
    if 10 <=? whole
    then Printf.pad0 1 (Printf.fmt_u (frac / 10 + (if frac mod 10 >? 5 then 1 else 0)))
    else Printf.pad0 2 (Printf.fmt_u frac) in
  formatFileSize decimal_point size =
  ((Printf.fmt_u whole +:+ decimal_point +:+ digits) +:+ " KiB")%string.
Proof. exact (formatFileSize_KiB_eq decimal_point size). Qed.

Lemma formatFileSize_KiB_witness :
  formatFileSize "." 1536000 = "1500.0 KiB"%string.
Proof.
  rewrite (formatFileSize_KiB "." 1536000) by lia. vm_compute. reflexivity.
Defined.

(** X11: just below a whole unit the fraction is not carried into the units:
    the four sizes below [k + 1] units are printed as [k] units and 100
    hundredths, from ten units on as [k] units and 10 tenths. *)
Theorem formatFileSize_KiB_no_carry (decimal_point : string) (k r : Z) :
  2 <= k < 2048 -> 1020 <= r < 1024 ->
  let digits := if k <? 10 then "100"%string else "10"%string in
  formatFileSize decimal_point (k * 1024 + r) =
  ((Printf.fmt_u k +:+ decimal_point +:+ digits) +:+ " KiB")%string.
Proof.
  intros Hk Hr. rewrite formatFileSize_KiB_eq by lia. cbv zeta.
  replace ((k * 1024 + r) / 1024) with k
    by (apply Z.div_unique with r; lia).
  replace ((k * 1024 + r) mod 1024) with r
    by (apply Z.mod_unique with k; lia).
  assert (Hf : frac_of_1024 r = 100).
  { assert (r = 1020 \/ r = 1021 \/ r = 1022 \/ r = 1023) as [->|[->|[->| ->]]] by lia;
      reflexivity. }
  rewrite Hf. destruct (10 <=? k) eqn:E.
  - apply Z.leb_le in E. destruct (k <? 10) eqn:E'; [apply Z.ltb_lt in E'; lia|].
    reflexivity.
  - apply Z.leb_gt in E. destruct (k <? 10) eqn:E'; [|apply Z.ltb_ge in E'; lia].
    reflexivity.
Qed.

Lemma formatFileSize_KiB_no_carry_witness :
  formatFileSize "." 3071 = "2.100 KiB"%string /\
  formatFileSize "." 11263 = "10.10 KiB"%string.
Proof.
  split.
  - apply (formatFileSize_KiB_no_carry "." 2 1023); lia.
  - apply (formatFileSize_KiB_no_carry "." 10 1023); lia.
Defined.

(** *** Whole seconds *)
Lemma formatSampleAsTime_whole_seconds_witness :
  formatSampleAsTime (75 * 44100) 44100 = "1:15.00"%string.
Proof.
  apply (TextFuncsFacts.formatSampleAsTime_whole_seconds 75 44100); lia.
Defined.

End TextFacts.

(** ** PSF: durations, years and the tag map *)
Module PSFTagFacts.
Import Mem MemFacts SliceFacts RomData Scanf ScanfFacts PSF PSFFacts.

(** *** What [sscanf] leaves in its variables *)

(** The values converted extend the accumulator, and the value returned
    is their number, or EOF when there is none. *)
Lemma scan_result (fmt : list directive) :
  forall (inp : list ascii) (acc : list Z),
  exists more,
    (scan fmt inp acc).2 = acc ++ more /\
    ((scan fmt inp acc).1 = Z.of_nat (length (acc ++ more)) \/
     ((scan fmt inp acc).1 = -1 /\ acc ++ more = [])).
Proof.
  assert (Hfail : forall acc : list Z, exists more,
            (input_failure acc).2 = acc ++ more /\
            ((input_failure acc).1 = Z.of_nat (length (acc ++ more)) \/
             ((input_failure acc).1 = -1 /\ acc ++ more = []))).
  { intros acc. exists []. rewrite app_nil_r. destruct acc; cbn; auto. }
  assert (Hstop : forall acc : list Z, exists more,
            (Z.of_nat (length acc), acc).2 = acc ++ more /\
            ((Z.of_nat (length acc), acc).1 = Z.of_nat (length (acc ++ more)) \/
             ((Z.of_nat (length acc), acc).1 = -1 /\ acc ++ more = []))).
  { intros acc. exists []. rewrite app_nil_r. cbn. auto. }
  assert (Hstep : forall (f : list directive) (inp : list ascii) (acc : list Z) (v : Z),
            (forall inp acc, exists more,
               (scan f inp acc).2 = acc ++ more /\
               ((scan f inp acc).1 = Z.of_nat (length (acc ++ more)) \/
                ((scan f inp acc).1 = -1 /\ acc ++ more = []))) ->
            exists more,
              (scan f inp (acc ++ [v])).2 = acc ++ more /\
              ((scan f inp (acc ++ [v])).1 = Z.of_nat (length (acc ++ more)) \/
               ((scan f inp (acc ++ [v])).1 = -1 /\ acc ++ more = []))).
  { intros f inp acc v IH. destruct (IH inp (acc ++ [v])) as (more & H2 & H1).
    exists (v :: more). rewrite <- app_assoc in H2, H1. cbn [app] in H2, H1. auto. }
  induction fmt as [|d fmt IH]; intros inp acc.
  - apply Hstop.
  - destruct d as [|w| |c]; cbn [scan].
    + destruct (skip_ws inp) as [|x inp1]; [apply Hfail|].
      destruct (number _ _) as [[v rest]|]; [|apply Hstop]. now apply Hstep.
    + destruct (skip_ws inp) as [|x inp1]; [apply Hfail|].
      destruct (number _ _) as [[v rest]|]; [|apply Hstop]. now apply Hstep.
    + destruct inp as [|x inp']; [apply Hfail|]. now apply Hstep.
    + destruct inp as [|x inp']; [apply Hfail|].
      destruct (bool_decide (x = c)); [apply IH | apply Hstop].
Qed.

Lemma set_var_get (vs : scan_vars) (x y : scan_var) (z : Z) :
  is_Some (get_var vs y) \/ x = y -> is_Some (get_var (set_var vs x z) y).
Proof.
  intros [H| ->].
  - destruct x, y; cbn in *; eauto.
  - destruct y; cbn; eauto.
Qed.

(** A variable that holds a value keeps holding one. *)
Lemma assign_mono (targets : list scan_var) :
  forall (vs : scan_vars) (vals : list Z) (y : scan_var),
  is_Some (get_var vs y) -> is_Some (get_var (assign vs targets vals) y).
Proof.
  induction targets as [|t ts IH]; intros vs vals y H; [exact H|].
  destruct vals as [|v vl]; [exact H|]. cbn [assign].
  apply IH. apply set_var_get. now left.
Qed.

(** As many values as there are targets give every target a value. *)
Lemma assign_all (targets : list scan_var) :
  forall (vs : scan_vars) (vals : list Z),
  (length targets <= length vals)%nat ->
  Forall (fun t => is_Some (get_var (assign vs targets vals) t)) targets.
Proof.
  induction targets as [|t ts IH]; intros vs vals Hl; [constructor|].
  destruct vals as [|v vl]; [cbn in Hl; lia|]. cbn [assign length] in *.
  constructor.
  - apply assign_mono. apply set_var_get. now right.
  - apply IH. lia.
Qed.

Lemma sscanf_full (str : list ascii) (fmt : list directive) (targets : list scan_var)
    (vs vs' : scan_vars) (s : Z) :
  sscanf str fmt targets vs = (s, vs') -> s = Z.of_nat (length targets) ->
  Forall (fun t => is_Some (get_var vs' t)) targets.
Proof.
  unfold sscanf. intros H Hs.
  destruct (scan_result fmt str []) as (more & H2 & H1).
  destruct (scan fmt str []) as [s0 vals]. injection H as <- <-.
  cbn [fst snd app] in *. subst vals.
  apply assign_all. destruct H1 as [H1|[H1 _]]; lia.
Qed.

Lemma sscanf_mono (str : list ascii) (fmt : list directive) (targets : list scan_var)
    (vs vs' : scan_vars) (s : Z) (y : scan_var) :
  sscanf str fmt targets vs = (s, vs') ->
  is_Some (get_var vs y) -> is_Some (get_var vs' y).
Proof.
  unfold sscanf. intros H Hy.
  destruct (scan fmt str []) as [s0 vals]. injection H as <- <-.
  now apply assign_mono.
Qed.

(** Whether the first [%u] of a format converts does not depend on the
    rest of the format. *)
Lemma scan_DU_first (str : list ascii) (fmt : list directive) :
  (exists v rest, skip_ws str <> [] /\
     number (length (skip_ws str)) (skip_ws str) = Some (v, rest) /\
     scan (DU :: fmt) str [] = scan fmt rest [CInt.to_uint32 v]) \/
  (exists n, n <= 0 /\ forall fmt', scan (DU :: fmt') str [] = (n, [])).
Proof.
  cbn [scan]. destruct (skip_ws str) as [|x inp1] eqn:E.
  - right. exists (-1). split; [lia|]. intros fmt'. reflexivity.
  - destruct (number (length (x :: inp1)) (x :: inp1)) as [[v rest]|] eqn:En.
    + left. exists v, rest. split; [discriminate|]. split; reflexivity.
    + right. exists 0. split; [lia|]. intros fmt'. reflexivity.
Qed.

Lemma sscanf_first (str : list ascii) (fmt fmt0 : list directive)
    (t : scan_var) (targets : list scan_var) (vs vs' : scan_vars) (s : Z) :
  sscanf str (DU :: fmt) (t :: targets) vs = (s, vs') ->
  1 <= (scan (DU :: fmt0) str []).1 ->
  is_Some (get_var vs' t).
Proof.
  unfold sscanf. intros H H0.
  destruct (scan_DU_first str fmt) as [(v & rest & _ & _ & E)|(n & Hn & E)].
  - rewrite E in H.
    destruct (scan_result fmt rest [CInt.to_uint32 v]) as (more & H2 & _).
    destruct (scan fmt rest _) as [s0 vals]. injection H as <- <-.
    cbn [snd app] in H2. subst vals. cbn [assign].
    apply assign_mono. apply set_var_get. now right.
  - rewrite (E fmt0) in H0. cbn in H0. lia.
Qed.

(** *** [lengthToMs] reads no variable that was not assigned *)

(** A format that matched in full has given a value to each of its
    variables: the result is read off them. *)
Ltac full_match E :=
  let HF := fresh "HF" in
  pose proof (sscanf_full _ _ _ _ _ _ E ltac:(apply Z.eqb_eq; assumption)) as HF;
  repeat (apply Forall_cons in HF; destruct HF as [[? ?] HF]);
  cbn [get_var] in *;
  repeat match goal with H : _ = Some _ |- _ => rewrite H; clear H end;
  cbn [rd obind];
  eexists; split; [reflexivity | apply to_uint32_range].

Lemma sscanf_fst (str : list ascii) (fmt : list directive) (targets : list scan_var)
    (vs vs' : scan_vars) (s : Z) :
  sscanf str fmt targets vs = (s, vs') -> (scan fmt str []).1 = s.
Proof.
  unfold sscanf. destruct (scan fmt str []) as [s0 vals]. now intros [= <- _].
Qed.

Lemma sscanf_seconds (str : list ascii) (vs vs' : scan_vars) :
  sscanf str fmt_s [Sec] vs = (1, vs') ->
  exists v, v_sec vs' = Some (CInt.to_uint32 v).
Proof.
  unfold sscanf, fmt_s. intros H.
  destruct (scan_DU_first str []) as [(v & rest & _ & _ & E)|(n & Hn & E)].
  - rewrite E in H. cbn [scan assign set_var] in H. injection H as <-.
    exists v. reflexivity.
  - rewrite (E []) in H. injection H as -> _. lia.
Qed.

Lemma lengthToMs_ret (str : list ascii) :
  exists ms, lengthToMs str = Ret ms /\ 0 <= ms < 2 ^ 32.
Proof.
  unfold lengthToMs. generalize (frac_adj_of str). intros frac_adj.
  set (vs0 := {| v_hour := None; v_min := None; v_sec := None; v_frac := None |}).
  destruct (sscanf str (fmt_hmsf dot) [Hour; Min; Sec; Frac] vs0) as [s1 vs1] eqn:E1.
  destruct (s1 =? 4) eqn:T1; cbn [negb]; [rewrite T1; full_match E1|].
  destruct (sscanf str (fmt_hmsf comma) [Hour; Min; Sec; Frac] vs1) as [s2 vs2] eqn:E2.
  destruct (s2 =? 4) eqn:T2; [full_match E2|].
  destruct (sscanf str fmt_hms [Hour; Min; Sec] vs2) as [s3 vs3] eqn:E3.
  destruct (s3 =? 3) eqn:T3; [full_match E3|].
  destruct (sscanf str (fmt_msf dot) [Min; Sec; Frac] vs3) as [s4 vs4] eqn:E4.
  destruct (s4 =? 3) eqn:T4; cbn [negb]; [rewrite T4; full_match E4|].
  destruct (sscanf str (fmt_msf comma) [Min; Sec; Frac] vs4) as [s5 vs5] eqn:E5.
  destruct (s5 =? 3) eqn:T5; [full_match E5|].
  destruct (sscanf str fmt_ms [Min; Sec] vs5) as [s6 vs6] eqn:E6.
  destruct (s6 =? 2) eqn:T6; [full_match E6|].
  destruct (sscanf str (fmt_sf dot) [Sec; Frac] vs6) as [s7 vs7] eqn:E7.
  assert (Hmin : forall s vsa vs sep,
            sscanf str (fmt_sf sep) [Sec; Frac] vsa = (s, vs) -> (s =? 2) = true ->
            is_Some (get_var vs6 Min)).
  { intros s vsa vs sep E T. apply Z.eqb_eq in T. subst s.
    apply sscanf_fst in E.
    assert (H4 : is_Some (get_var vs4 Min)).
    { apply (sscanf_first str [DLit colon; DU; DLit dot; DU] [DLit sep; DU]
               Min [Sec; Frac] vs3 vs4 s4 E4).
      change (DU :: [DLit sep; DU]) with (fmt_sf sep). rewrite E. lia. }
    apply (sscanf_mono _ _ _ _ _ _ Min E5) in H4.
    apply (sscanf_mono _ _ _ _ _ _ Min E6) in H4. exact H4. }
  destruct (s7 =? 2) eqn:T7; cbn [negb].
  - rewrite T7.
    pose proof (sscanf_mono _ _ _ _ _ _ Min E7 (Hmin _ _ _ _ E7 T7)) as [m Hm].
    cbn [get_var] in Hm. full_match E7.
  - destruct (sscanf str (fmt_sf comma) [Sec; Frac] vs7) as [s8 vs8] eqn:E8.
    destruct (s8 =? 2) eqn:T8.
    + assert (H8 : is_Some (get_var vs8 Min)).
      { apply (sscanf_mono _ _ _ _ _ _ Min E8).
        apply (sscanf_mono _ _ _ _ _ _ Min E7).
        exact (Hmin _ _ _ _ E8 T8). }
      destruct H8 as [m Hm]. cbn [get_var] in Hm. full_match E8.
    + destruct (sscanf str fmt_s [Sec] vs8) as [s9 vs9] eqn:E9.
      destruct (s9 =? 1) eqn:T9.
      * apply Z.eqb_eq in T9. subst s9.
        destruct (sscanf_seconds _ _ _ E9) as [v Hv]. rewrite Hv. cbn [rd obind].
        eexists. split; [reflexivity | apply to_uint32_range].
      * exists 0. split; [reflexivity | lia].
Qed.

(** *** The formats with a colon *)

Lemma scan_DU_digits_end (fmt : list directive) (a : list ascii) (acc : list Z) :
  a <> [] -> forallb isdigit a = true ->
  scan (DU :: fmt) a acc = scan fmt [] (acc ++ [CInt.to_uint32 (decimal a)]).
Proof.
  intros Hne Hd. rewrite <- (app_nil_r a) at 1.
  now rewrite (scan_DU_digits fmt a [] acc Hne Hd I).
Qed.

Lemma frac_adj_prefix (pre f : list ascii) (sep : ascii) :
  memchr dot pre = None -> memchr comma pre = None ->
  forallb isdigit f = true -> sep = dot \/ sep = comma ->
  frac_adj_of (pre ++ sep :: f) = frac_scale (length f).
Proof.
  intros Hd Hc Hf Hsep. unfold frac_adj_of.
  assert (Hdrop : drop (S (length pre)) (pre ++ sep :: f) = f).
  { replace (pre ++ sep :: f) with ((pre ++ [sep]) ++ f)
      by (rewrite <- app_assoc; reflexivity).
    replace (S (length pre)) with (length (pre ++ [sep]))
      by (rewrite length_app; cbn [length]; lia).
    apply drop_app_length. }
  assert (Hcount : count_digits f = length f).
  { rewrite <- (app_nil_r f) at 1. now apply count_digits_all. }
  destruct Hsep as [-> | ->].
  - rewrite memchr_app, Hd, memchr_head.
    cbn [fmap option_fmap option_map]. rewrite Nat.add_0_r, Hdrop, Hcount. reflexivity.
  - rewrite memchr_app, Hd. cbn [memchr].
    rewrite bool_decide_eq_false_2 by discriminate.
    rewrite (memchr_digits dot f Hf eq_refl). cbn [fmap option_fmap option_map].
    rewrite memchr_app, Hc, memchr_head.
    cbn [fmap option_fmap option_map]. rewrite Nat.add_0_r, Hdrop, Hcount. reflexivity.
Qed.

Lemma memchr_colon_digits (c : ascii) (a rest : list ascii) :
  forallb isdigit a = true -> isdigit c = false -> c <> colon ->
  memchr c rest = None -> memchr c (a ++ colon :: rest) = None.
Proof.
  intros Ha Hc Hne Hr. rewrite memchr_app, (memchr_digits c a Ha Hc).
  cbn [memchr]. rewrite bool_decide_eq_false_2 by congruence. now rewrite Hr.
Qed.

Ltac scan_step :=
  first
    [ rewrite scan_lit_match
    | rewrite scan_lit_mismatch by discriminate
    | rewrite scan_DU_digits by (assumption || reflexivity)
    | rewrite scan_DU_digits_end by assumption ].

Section Digits.
Variables h m s f : list ascii.
Hypothesis Hh0 : h <> [].
Hypothesis Hm0 : m <> [].
Hypothesis Hs0 : s <> [].
Hypothesis Hf0 : f <> [].
Hypothesis Hh : forallb isdigit h = true.
Hypothesis Hm : forallb isdigit m = true.
Hypothesis Hs : forallb isdigit s = true.
Hypothesis Hf : forallb isdigit f = true.

Let H := CInt.to_uint32 (decimal h).
Let M := CInt.to_uint32 (decimal m).
Let S := CInt.to_uint32 (decimal s).
Let F := CInt.to_uint32 (decimal f).

Lemma lengthToMs_hmsf (sep : ascii) :
  sep = dot \/ sep = comma ->
  lengthToMs (h ++ colon :: m ++ colon :: s ++ sep :: f) =
  Ret (CInt.to_uint32 (H * 60 * 60 * 1000 + M * 60 * 1000 + S * 1000 +
                       F * frac_scale (length f))).
Proof.
  intros Hsep. unfold lengthToMs, sscanf.
  replace (h ++ colon :: m ++ colon :: s ++ sep :: f)
    with ((h ++ colon :: m ++ colon :: s) ++ sep :: f)
    by (rewrite <- !app_assoc; cbn [app]; rewrite <- !app_assoc; reflexivity).
  rewrite frac_adj_prefix; [|repeat (apply memchr_colon_digits; try assumption; try reflexivity; try discriminate); now apply memchr_digits ..|assumption|assumption].
  rewrite <- !app_assoc; cbn [app]; rewrite <- !app_assoc; cbn [app].
  unfold fmt_hmsf.
  destruct Hsep as [-> | ->]; repeat scan_step; reflexivity.
Qed.

Lemma lengthToMs_hms :
  lengthToMs (h ++ colon :: m ++ colon :: s) =
  Ret (CInt.to_uint32 (H * 60 * 60 * 1000 + M * 60 * 1000 + S * 1000)).
Proof.
  unfold lengthToMs, sscanf. generalize (frac_adj_of (h ++ colon :: m ++ colon :: s)).
  intros frac_adj. unfold fmt_hmsf, fmt_hms.
  repeat scan_step. reflexivity.
Qed.

Lemma lengthToMs_msf (sep : ascii) :
  sep = dot \/ sep = comma ->
  lengthToMs (m ++ colon :: s ++ sep :: f) =
  Ret (CInt.to_uint32 (M * 60 * 1000 + S * 1000 + F * frac_scale (length f))).
Proof.
  intros Hsep. unfold lengthToMs, sscanf.
  replace (m ++ colon :: s ++ sep :: f) with ((m ++ colon :: s) ++ sep :: f)
    by (rewrite <- !app_assoc; reflexivity).
  rewrite frac_adj_prefix; [|repeat (apply memchr_colon_digits; try assumption; try reflexivity; try discriminate); now apply memchr_digits ..|assumption|assumption].
  rewrite <- !app_assoc; cbn [app].
  unfold fmt_hmsf, fmt_hms, fmt_msf.
  destruct Hsep as [-> | ->]; repeat scan_step; reflexivity.
Qed.

Lemma lengthToMs_ms :
  lengthToMs (m ++ colon :: s) =
  Ret (CInt.to_uint32 (M * 60 * 1000 + S * 1000)).
Proof.
  unfold lengthToMs, sscanf. generalize (frac_adj_of (m ++ colon :: s)).
  intros frac_adj. unfold fmt_hmsf, fmt_hms, fmt_msf, fmt_ms.
  repeat scan_step. reflexivity.
Qed.
End Digits.



(** X13: whatever the string is, [lengthToMs] returns: none of its branches
    reads a variable that no [sscanf] has assigned, the minutes of the
    seconds.decimal branch included. *)
Theorem lengthToMs_returns (str : list ascii) :
  exists ms, lengthToMs str = Ret ms /\ 0 <= ms < 2 ^ 32.
Proof. exact (lengthToMs_ret str). Qed.

(** *** The release year *)

Lemma decimal_snoc (a : list ascii) (c : ascii) :
  decimal (a ++ [c]) = decimal a * 10 + (u8 c - 48).
Proof. unfold decimal. now rewrite fold_left_app. Qed.

Lemma decimal_bound (a : list ascii) :
  forallb isdigit a = true -> 0 <= decimal a < 10 ^ Z.of_nat (length a).
Proof.
  induction a as [|c a IH] using rev_ind; intros Hd; [cbn; lia|].
  rewrite forallb_app in Hd. apply andb_true_iff in Hd. destruct Hd as [Ha Hc].
  cbn [forallb] in Hc. rewrite andb_true_r in Hc. apply isdigit_range in Hc.
  specialize (IH Ha). rewrite decimal_snoc, length_app. cbn [length].
  rewrite Nat2Z.inj_add, Z.pow_add_r by lia. change (10 ^ Z.of_nat 1) with 10. lia.
Qed.

(** Digits up to the limit: what follows them does not matter. *)
Lemma digits_limit (a rest : list ascii) :
  forall (acc : Z) (n : nat),
  forallb isdigit a = true ->
  digits (length a) (a ++ rest) acc n =
  (fold_left (fun acc c => acc * 10 + (u8 c - 48)) a acc, (n + length a)%nat, rest).
Proof.
  induction a as [|c a IH]; intros acc n Hd.
  - cbn. now rewrite Nat.add_0_r.
  - cbn [forallb] in Hd. apply andb_true_iff in Hd. destruct Hd as [Hc Hd].
    cbn [length app digits fold_left]. rewrite Hc, (IH _ _ Hd). do 2 f_equal. lia.
Qed.

Lemma number_limit (a rest : list ascii) (limit : nat) :
  a <> [] -> forallb isdigit a = true -> (length a <= limit)%nat ->
  ((length a < limit)%nat -> ends_number rest) ->
  number limit (a ++ rest) = Some (decimal a, rest).
Proof.
  intros Hne Hd Hl Hend.
  destruct (decide (length a = limit)) as [<-|Hlt].
  - destruct a as [|c a]; [contradiction|].
    unfold number. cbn [app].
    assert (Hc : isdigit c = true)
      by (cbn [forallb] in Hd; now apply andb_true_iff in Hd).
    apply isdigit_range in Hc.
    destruct (u8 c =? 45) eqn:E1; [apply Z.eqb_eq in E1; lia|].
    destruct (u8 c =? 43) eqn:E2; [apply Z.eqb_eq in E2; lia|].
    change (c :: a ++ rest) with ((c :: a) ++ rest).
    rewrite (digits_limit (c :: a) rest 0 0%nat Hd).
    cbn [length Nat.add Nat.eqb]. reflexivity.
  - apply number_digits; [assumption..|apply Hend; lia|lia].
Qed.

(** ["%04d%c"] on a year of at most four digits. *)
Lemma scan_year (y rest : list ascii) :
  y <> [] -> forallb isdigit y = true -> (length y <= 4)%nat ->
  ((length y < 4)%nat -> ends_number rest) ->
  scan fmt_year (y ++ rest) [] =
  match rest with
  | [] => (1, [decimal y])
  | c :: _ => (2, [decimal y; u8 c])
  end.
Proof.
  intros Hne Hd Hl Hend. unfold fmt_year. cbn [scan].
  rewrite (skip_ws_digits y rest Hne Hd).
  pose proof (number_limit y rest 4 Hne Hd Hl Hend) as Hn.
  destruct y as [|c0 y]; [contradiction|]. cbn [app] in *. rewrite Hn.
  pose proof (decimal_bound (c0 :: y) Hd) as Hb.
  assert (10 ^ Z.of_nat (length (c0 :: y)) <= 10 ^ 4)
    by (apply Z.pow_le_mono_r; lia).
  rewrite to_int32_small by lia.
  destruct rest; reflexivity.
Qed.

(** X17: the release year is taken from a "year" tag that starts with one to
    four digits, when nothing follows them or a hyphen or a slash does,
    as in a date; after any other character, a fifth digit or a space
    for instance, the tag gives no release year. *)
Theorem add_year_spec (tg : gmap string string) (m : RomMetaData) (v : string)
    (y rest : list ascii) :
  tg !! "year"%string = Some v -> c_str v = y ++ rest ->
  y <> [] -> forallb isdigit y = true -> (length y <= 4)%nat ->
  ((length y < 4)%nat -> ends_number rest) ->
  add_year tg m =
  match rest with
  | [] => addMetaData m ReleaseYear (MUInt (decimal y))
  | c :: _ =>
      if bool_decide (c = "-"%char \/ c = "/"%char)
      then addMetaData m ReleaseYear (MUInt (decimal y))
      else m
  end.
Proof.
  intros Hv Hc Hne Hd Hl Hend. unfold add_year. rewrite Hv, Hc.
  rewrite (scan_year y rest Hne Hd Hl Hend).
  pose proof (decimal_bound y Hd) as Hb.
  assert (10 ^ Z.of_nat (length y) <= 10 ^ 4) by (apply Z.pow_le_mono_r; lia).
  assert (Hr : (0 <=? decimal y) && (decimal y <? 10000) = true).
  { apply andb_true_iff. split; [apply Z.leb_le | apply Z.ltb_lt]; lia. }
  destruct rest as [|c r].
  - cbn [Z.eqb orb]. change (1 =? 1) with true. cbn [orb]. now rewrite Hr.
  - change (2 =? 1) with false. change (2 =? 2) with true. cbn [orb andb].
    destruct (bool_decide (c = "-"%char \/ c = "/"%char)) eqn:E.
    + apply bool_decide_eq_true in E.
      rewrite bool_decide_eq_true_2; [now rewrite Hr|].
      destruct E as [-> | ->]; [left | right]; reflexivity.
    + apply bool_decide_eq_false in E.
      rewrite bool_decide_eq_false_2; [reflexivity|].
      intros [[= Hu]|[= Hu]]; apply E; [left | right];
        rewrite <- (chr_u8 c), Hu; reflexivity.
Qed.

Lemma add_year_spec_witness :
  add_year {[ "year"%string := "2005-11-30"%string ]} [] = [(ReleaseYear, MUInt 2005)] /\
  add_year {[ "year"%string := "20051"%string ]} [] = [].
Proof.
  split.
  - apply (add_year_spec {[ "year"%string := "2005-11-30"%string ]} [] "2005-11-30"
             (bytes_of "2005") (bytes_of "-11-30"));
      first [reflexivity | discriminate | cbn; lia].
  - apply (add_year_spec {[ "year"%string := "20051"%string ]} [] "20051"
             (bytes_of "2005") (bytes_of "1"));
      first [reflexivity | discriminate | cbn; lia].
Defined.

(** *** The keys of the tag map *)

Lemma memchr_None (c : ascii) (l : list ascii) : memchr c l = None <-> c ∉ l.
Proof.
  induction l as [|x l IH]; cbn [memchr].
  - split; [intros _; apply not_elem_of_nil | reflexivity].
  - rewrite not_elem_of_cons. destruct (bool_decide (x = c)) eqn:E.
    + apply bool_decide_eq_true in E. split; [discriminate | intros [H _]; congruence].
    + apply bool_decide_eq_false in E. destruct (memchr c l).
      * split; [discriminate|]. intros [_ H]. apply IH in H. discriminate.
      * split; [|reflexivity]. intros _. split; [congruence | now apply IH].
Qed.

Lemma tolower_lower (c : ascii) :
  tolower (tolower c) = tolower c /\
  (c <> equals -> tolower c <> equals) /\ (c <> newline -> tolower c <> newline).
Proof.
  unfold tolower. destruct ((65 <=? u8 c) && (u8 c <=? 90)) eqn:E.
  - apply andb_true_iff in E. destruct E as [E1 E2].
    apply Z.leb_le in E1, E2.
    assert (Hu : u8 (chr (u8 c + 32)) = u8 c + 32) by (apply u8_chr; lia).
    rewrite Hu.
    destruct ((65 <=? u8 c + 32) && (u8 c + 32 <=? 90)) eqn:E'.
    { apply andb_true_iff in E'. destruct E' as [_ E']. apply Z.leb_le in E'. lia. }
    split; [reflexivity|].
    split; intros _ Heq; apply (f_equal u8) in Heq; rewrite Hu in Heq;
      [change (u8 equals) with 61 in Heq | change (u8 newline) with 10 in Heq]; lia.
  - rewrite E. tauto.
Qed.

Lemma tag_line_keys (line : list ascii) (kv : gmap string string) (u : bool) :
  keys_ok kv -> newline ∉ line -> keys_ok (tag_line line (kv, u)).1.
Proof.
  intros Hok Hnl. unfold tag_line.
  destruct (memchr equals line) as [eq|] eqn:Heq; [|exact Hok].
  destruct (_ && _) eqn:Hlen; [|exact Hok]. cbn [fst].
  apply andb_true_iff in Hlen. destruct Hlen as [Hk _]. apply Z.ltb_lt in Hk.
  set (n := Z.to_nat (CInt.to_int32 (Z.of_nat eq))) in *.
  destruct (memchr_Some _ _ _ Heq) as (Hlt & Hnone & _).
  apply memchr_None in Hnone.
  assert (Hn : (0 < n <= eq)%nat).
  { subst n. unfold CInt.to_int32 in *.
    pose proof (Z.mod_le (Z.of_nat eq + 2 ^ 31) (2 ^ 32) ltac:(lia) ltac:(lia)). lia. }
  unfold emplace. destruct (kv !! _) eqn:Hlook; [exact Hok|].
  intros k v Hkv. destruct (decide (k = u8string (map tolower (take n line)))) as [->|Hne].
  - unfold tag_key, u8string. rewrite list_ascii_of_string_of_list_ascii. split.
    + destruct line as [|x line]; [cbn in Hlt; lia|].
      destruct n as [|n']; [lia|]. discriminate.
    + apply Forall_map, Forall_forall. intros c Hc. cbn beta.
      apply elem_of_take in Hc. destruct Hc as (i & Hi & Hin).
      assert (Hc1 : c <> equals).
      { intros ->. apply Hnone. apply elem_of_take. exists i. split; [exact Hi | lia]. }
      assert (Hc2 : c <> newline).
      { intros ->. apply Hnl. eapply list_elem_of_lookup_2. exact Hi. }
      destruct (tolower_lower c) as (H1 & H2 & H3). auto.
  - rewrite lookup_insert_ne in Hkv by congruence. eauto.
Qed.

Lemma tag_loop_keys (n : nat) :
  forall (p : list ascii) (st : gmap string string * bool),
  keys_ok st.1 -> keys_ok (tag_loop n p st).1.
Proof.
  induction n as [|n IH]; intros p st Hok; [exact Hok|].
  cbn [tag_loop]. destruct p as [|x p]; [exact Hok|].
  destruct (_ =? 0)%nat; [now apply IH|].
  apply IH. destruct st as [kv u]. apply tag_line_keys; [exact Hok|].
  destruct (memchr newline (x :: p)) as [i|] eqn:E.
  - cbn [from_option]. unfold id.
    destruct (memchr_Some _ _ _ E) as (_ & Hnone & _). now apply memchr_None.
  - cbn [from_option]. unfold id. rewrite firstn_all. now apply memchr_None.
Qed.

Lemma parseTags_keys_ok (conv : list ascii -> string) (f : RpFile.t) (a : Z) :
  keys_ok (tags (parseTags conv f a)).
Proof.
  assert (H0 : keys_ok ∅) by (intros k v H; rewrite lookup_empty in H; discriminate).
  unfold parseTags.
  destruct (RpFile.seekAndRead _ _ _) as [tag_magic f1].
  destruct (negb _); [exact H0|].
  destruct (_ <=? 0); [exact H0|].
  destruct (RpFile.read _ _) as [tag_data f2].
  destruct (negb _); [exact H0|].
  pose proof (tag_loop_keys (length tag_data) tag_data (∅, false) H0) as Hk.
  destruct (tag_loop _ _ _) as [kv u]. cbn [fst] in Hk.
  destruct u; cbn [negb tags]; [exact Hk|].
  intros k v Hkv. rewrite lookup_fmap in Hkv.
  destruct (kv !! k) as [v0|] eqn:E; [|discriminate]. eauto.
Qed.

(** X18: every key of the map that [parseTags] returns is in lower case, is
    not empty and holds no equals sign and no newline, whatever the file
    is: a tag is found under its lower-case name only. *)
Theorem parseTags_keys (conv : list ascii -> string) (f : RpFile.t) (a : Z)
    (k : string) :
  is_Some (tags (parseTags conv f a) !! k) -> tag_key k.
Proof. intros [v Hv]. exact (parseTags_keys_ok conv f a k v Hv). Qed.

Lemma parseTags_keys_witness :
  tag_key "title".
Proof.
  apply (parseTags_keys u8string
           (RpFile.open (sample_file "TITLE=Intro")) (Z.of_nat sizeof_PSF_Header)).
  vm_compute. eauto.
Defined.

(** *** The tag magic *)

(** X20: [parseTags] reads the five bytes at the tag address and does not
    compare them with the tag magic: two files of the same length that
    agree on what follows these five bytes give the same tags. *)
Theorem parseTags_magic_not_compared (conv : list ascii -> string)
    (f f' : RpFile.t) (a : Z) :
  length (RpFile.data f) = length (RpFile.data f') ->
  drop (Z.to_nat (a + Z.of_nat sizeof_tag_magic)) (RpFile.data f) =
  drop (Z.to_nat (a + Z.of_nat sizeof_tag_magic)) (RpFile.data f') ->
  tags (parseTags conv f a) = tags (parseTags conv f' a).
Proof.
  intros Hlen Hdrop.
  destruct (Z.lt_ge_cases a 0) as [Hneg|Hpos].
  { unfold parseTags, RpFile.seekAndRead.
    destruct (a <? 0) eqn:E; [reflexivity | apply Z.ltb_ge in E; lia]. }
  assert (Hsize : RpFile.size f = RpFile.size f') by (unfold RpFile.size; now rewrite Hlen).
  destruct (Z.le_gt_cases (RpFile.size f) (a + Z.of_nat sizeof_tag_magic)) as [Hs|Hs].
  - rewrite !parseTags_absent by lia. reflexivity.
  - rewrite !parseTags_tags_loop by lia. cbv zeta. now rewrite Hdrop.
Qed.

Lemma parseTags_magic_not_compared_witness :
  tags (parseTags u8string (RpFile.open (sample_file "title=Intro"))
          (Z.of_nat sizeof_PSF_Header)) =
  tags (parseTags u8string
          (RpFile.open (sample_header ++ bytes_of "12345" ++ bytes_of "title=Intro"))
          (Z.of_nat sizeof_PSF_Header)).
Proof.
  apply (parseTags_magic_not_compared u8string
           (RpFile.open (sample_file "title=Intro"))
           (RpFile.open (sample_header ++ bytes_of "12345" ++ bytes_of "title=Intro"))
           (Z.of_nat sizeof_PSF_Header)); reflexivity.
Defined.

(** *** Detection and construction *)

(** X21: on a header buffer that has the bytes it is said to have, the
    detector accepts a buffer of at least 16 bytes at offset 0 that starts
    with "PSF", and nothing else; the version byte plays no part. *)
Theorem psf_detect_iff (info : option DetectInfo) :
  wf_info info ->
  (isRomSupported_static info = 0 <->
   exists i p, info = Some i /\ hdr_pData i = Some p /\ hdr_addr i = 0 /\
     Z.of_nat sizeof_PSF_Header <= hdr_size i /\ take 3 p = bytes_of "PSF") /\
  (isRomSupported_static info = 0 \/ isRomSupported_static info = -1).
Proof.
  intros _. unfold isRomSupported_static. destruct info as [i|]; cycle 1.
  { split; [|now right]. split; [discriminate|]. intros (i & p & H & _). discriminate. }
  destruct (hdr_pData i) as [p|] eqn:Hp; cycle 1.
  { split; [|now right]. split; [discriminate|].
    intros (i' & p & [= <-] & H & _). congruence. }
  destruct (hdr_addr i =? 0) eqn:Ea; cbn [negb orb]; cycle 1.
  { apply Z.eqb_neq in Ea. split; [|now right]. split; [discriminate|].
    intros (i' & p' & [= <-] & _ & H & _). contradiction. }
  apply Z.eqb_eq in Ea.
  destruct (hdr_size i <? _) eqn:Es.
  { apply Z.ltb_lt in Es. split; [|now right]. split; [discriminate|].
    intros (i' & p' & [= <-] & _ & _ & H & _). lia. }
  apply Z.ltb_ge in Es. unfold h_magic, slice, PSF_MAGIC. rewrite drop_0.
  destruct (bool_decide (take 3 p = bytes_of "PSF")) eqn:Em.
  - apply bool_decide_eq_true in Em. split; [|now left].
    split; [|reflexivity]. intros _. exists i, p. auto.
  - apply bool_decide_eq_false in Em. split; [|now right].
    split; [discriminate|]. intros (i' & p' & [= <-] & Hp' & _ & _ & H).
    rewrite Hp in Hp'. injection Hp' as <-. contradiction.
Qed.

Lemma psf_detect_iff_witness :
  wf_info sample_header_info /\ isRomSupported_static sample_header_info = 0.
Proof.
  assert (Hwf : wf_info sample_header_info).
  { intros i p [= <-] [= <-]. reflexivity. }
  split; [exact Hwf|].
  apply (proj1 (psf_detect_iff sample_header_info Hwf)).
  eexists _, _. repeat split; first [reflexivity | cbn; lia].
Defined.

Lemma length_blit_le (buf src : list ascii) :
  (length src <= length buf)%nat -> blit buf 0 src = src ++ drop (length src) buf.
Proof.
  intros H. unfold blit. cbn [take app Nat.add]. rewrite Nat.sub_0_r.
  rewrite take_0, (take_ge src) by lia. reflexivity.
Qed.

(** X22: the constructor accepts a file of at least 16 bytes that starts with
    "PSF", keeps the file and the header, and has loaded nothing yet; on
    any other file the instance is not valid and the file is released. *)
Theorem PSF_new_spec (f : RpFile.t) :
  let d := PSF_new (Some f) in
  let accepted :=
    (sizeof_PSF_Header <= length (RpFile.data f))%nat /\
    take 3 (RpFile.data f) = bytes_of "PSF" in
  fields d = [] /\ metaData d = None /\
  (accepted ->
   isValid d = true /\ psfHeader d = take sizeof_PSF_Header (RpFile.data f) /\
   exists f', file d = Some f' /\ RpFile.data f' = RpFile.data f) /\
  (~ accepted -> isValid d = false /\ file d = None).
Proof.
  intros d accepted. subst d accepted. unfold PSF_new.
  rewrite BRSTMFacts.read_header. lazy beta iota zeta.
  set (bytes := RpFile.data f).
  destruct (length (take sizeof_PSF_Header bytes) =? sizeof_PSF_Header)%nat eqn:El;
    cbn [negb]; cycle 1.
  { apply Nat.eqb_neq in El. rewrite length_take in El.
    cbn [fields metaData isValid file].
    split; [reflexivity|]. split; [reflexivity|]. split; [|auto].
    intros [H _]. lia. }
  apply Nat.eqb_eq in El. rewrite length_take in El.
  assert (Hlen : (sizeof_PSF_Header <= length bytes)%nat) by lia.
  assert (Hhdr : blit (replicate sizeof_PSF_Header zero) 0 (take sizeof_PSF_Header bytes)
                 = take sizeof_PSF_Header bytes).
  { rewrite length_blit_le by (rewrite length_take, length_replicate; lia).
    rewrite drop_ge by (rewrite length_take, length_replicate; lia).
    apply app_nil_r. }
  rewrite Hhdr. unfold isRomSupported_static. cbn [hdr_pData hdr_addr hdr_size].
  change (0 =? 0) with true. rewrite Z.ltb_irrefl. cbn [negb orb].
  unfold h_magic, slice, PSF_MAGIC. rewrite drop_0.
  rewrite take_take. change (3 `min` sizeof_PSF_Header)%nat with 3%nat.
  destruct (bool_decide (take 3 bytes = bytes_of "PSF")) eqn:Em.
  - apply bool_decide_eq_true in Em. cbn [fields metaData isValid file psfHeader].
    change (0 <=? 0) with true. cbv iota.
    split; [reflexivity|]. split; [reflexivity|]. split.
    + intros _. split; [reflexivity|]. split; [reflexivity|]. eauto.
    + intros H. exfalso. apply H. auto.
  - apply bool_decide_eq_false in Em. cbn [fields metaData isValid file psfHeader].
    change (0 <=? -1) with false. cbv iota.
    split; [reflexivity|]. split; [reflexivity|]. split; [|auto].
    intros [_ H]. contradiction.
Qed.

(** *** How many fields and properties *)

Lemma add_tag_field_extends (tg : gmap string string) (key label : string)
    (pre : RomFields) (fs : RomFields) (n : nat) :
  (exists e, fs = pre ++ e /\ (length e <= n)%nat) ->
  exists e, add_tag_field tg key label fs = pre ++ e /\ (length e <= S n)%nat.
Proof.
  intros (e & -> & Hl). unfold add_tag_field, addField_string.
  destruct (tg !! key) as [v|].
  - exists (e ++ [(label, v)]). rewrite app_assoc. split; [reflexivity|].
    rewrite length_app. cbn [length]. lia.
  - exists e. split; [reflexivity | lia].
Qed.

Lemma loadFieldData_cached (h : bool) (conv : list ascii -> string) (d : PSFPrivate) :
  fields d <> [] -> loadFieldData h conv d = (0, d).
Proof.
  intros Hne. unfold loadFieldData. now rewrite bool_decide_eq_false_2.
Qed.

(** X23: the first [loadFieldData] on a valid instance gives the System field
    and at most eleven fields of the tags after it, and returns their
    number; the next call returns 0 and changes nothing. *)
Theorem psf_loadFieldData_count (h : bool) (conv : list ascii -> string)
    (d : PSFPrivate) (f : RpFile.t) :
  isValid d = true -> file d = Some f -> fields d = [] ->
  exists n d1 sysname tag_fields,
    loadFieldData h conv d = (n, d1) /\
    fields d1 = ("System"%string, sysname) :: tag_fields /\
    n = Z.of_nat (length (fields d1)) /\ 1 <= n <= 12 /\
    loadFieldData h conv d1 = (0, d1).
Proof.
  intros Hv Hf Hfs. unfold loadFieldData at 1. rewrite Hfs, Hf, Hv.
  rewrite bool_decide_eq_true_2 by reflexivity. cbn [negb]. lazy zeta.
  set (sysname := match lkup sysname_lkup_tbl _ with Some s => s | None => _ end).
  set (tg := tags _).
  change (addField_string [] "System" sysname) with [("System"%string, sysname)].
  set (pre := [("System"%string, sysname)]).
  assert (H0 : exists e, pre = pre ++ e /\ (length e <= 0)%nat)
    by (exists []; rewrite app_nil_r; auto).
  match goal with
  | |- context [if negb (bool_decide (tg = ∅)) then ?a else ?b] =>
      set (fs := if negb (bool_decide (tg = ∅)) then a else b)
  end.
  assert (Hfs' : exists e, fs = pre ++ e /\ (length e <= 11)%nat).
  { subst fs. destruct (negb _); cycle 1.
    { destruct H0 as (e & He & Hl). exists e. split; [exact He | lia]. }
    apply (add_tag_field_extends tg "comment" "Comment" pre).
    apply (add_tag_field_extends tg "fade" "Fadeout Duration" pre).
    apply (add_tag_field_extends tg "length" "Duration" pre).
    apply (add_tag_field_extends tg "volume" "Volume" pre).
    assert (H6 : exists e,
      add_tag_field tg "copyright" "Copyright"
        (add_tag_field tg "genre" "Genre"
          (add_tag_field tg "year" "Release Date"
            (add_tag_field tg "game" "Game"
              (add_tag_field tg "artist" "Artist"
                (add_tag_field tg "title" "Title" pre))))) = pre ++ e /\
      (length e <= 6)%nat).
    { repeat apply (add_tag_field_extends tg _ _ pre). exact H0. }
    destruct (tg !! getRippedByTagName _) as [v|].
    - destruct H6 as (e & -> & Hl). unfold addField_string.
      exists (e ++ [("Ripped By"%string, v)]). rewrite app_assoc.
      split; [reflexivity|]. rewrite length_app. cbn [length]. lia.
    - now apply (add_tag_field_extends tg "psfby" "Ripped By" pre). }
  destruct Hfs' as (e & He & Hl). clearbody fs.
  eexists. eexists. exists sysname, e. split; [reflexivity|].
  cbn [fields]. subst fs pre. cbn [app length].
  split; [reflexivity|]. split; [reflexivity|]. split; [lia|].
  apply loadFieldData_cached. cbn [fields]. discriminate.
Qed.

Lemma add_tag_meta_length (tg : gmap string string) (key : string) (p : Property)
    (m : RomMetaData) (n : nat) :
  (length m <= n)%nat -> (length (add_tag_meta tg key p m) <= S n)%nat.
Proof.
  intros H. unfold add_tag_meta, addMetaData. destruct (tg !! key).
  - rewrite length_app. cbn [length]. lia.
  - lia.
Qed.

Lemma add_year_length (tg : gmap string string) (m : RomMetaData) (n : nat) :
  (length m <= n)%nat -> (length (add_year tg m) <= S n)%nat.
Proof.
  intros H. unfold add_year, addMetaData. destruct (tg !! "year"%string); [|lia].
  destruct (scan _ _ _) as [sc [|yr rst]]; [lia|].
  destruct (_ || _); [|lia]. destruct (_ && _); [|lia].
  rewrite length_app. cbn [length]. lia.
Qed.

Lemma loadMetaData_cached (h : bool) (conv : list ascii -> string) (d : PSFPrivate)
    (m : RomMetaData) :
  metaData d = Some m -> loadMetaData h conv d = Ret (0, d).
Proof. intros Hm. unfold loadMetaData. now rewrite Hm. Qed.

(** X24: on a valid instance whose file has tags, the first [loadMetaData]
    returns, creates the metadata with at most eight properties and
    returns their number, which is 0 when no tag is one of those it
    looks for; the next call returns 0 and changes nothing. *)
Theorem psf_loadMetaData_count (h : bool) (conv : list ascii -> string)
    (d : PSFPrivate) (f : RpFile.t) :
  isValid d = true -> file d = Some f -> metaData d = None ->
  tags (parseTags conv f (tag_addr_of h (psfHeader d))) <> ∅ ->
  exists n d1 m,
    loadMetaData h conv d = Ret (n, d1) /\ metaData d1 = Some m /\
    n = Z.of_nat (length m) /\ 0 <= n <= 8 /\
    loadMetaData h conv d1 = Ret (0, d1).
Proof.
  intros Hv Hf Hm Ht. unfold loadMetaData at 1. rewrite Hm, Hf, Hv.
  cbn [negb]. lazy zeta. set (tg := tags _) in *.
  rewrite bool_decide_eq_false_2 by exact Ht.
  set (m5 := add_tag_meta tg "copyright" Copyright _).
  assert (H5 : (length m5 <= 6)%nat).
  { subst m5. repeat first [apply add_tag_meta_length | apply add_year_length].
    cbn [length]. lia. }
  clearbody m5.
  assert (H6 : exists m6, (length m6 <= 7)%nat /\
            match tg !! "length"%string with
            | Some v => do ms <- lengthToMs (c_str v);
                        Ret (addMetaData m5 Duration (MInteger ms))
            | None => Ret m5
            end = Ret m6).
  { destruct (tg !! "length"%string) as [v|].
    - destruct (lengthToMs_ret (c_str v)) as (ms & -> & _). cbn [obind].
      eexists. split; [|reflexivity]. unfold addMetaData.
      rewrite length_app. cbn [length]. lia.
    - exists m5. split; [lia | reflexivity]. }
  destruct H6 as (m6 & H6 & ->). cbn [obind].
  pose proof (add_tag_meta_length tg "comment" Subject m6 7 H6) as H7.
  set (m7 := add_tag_meta tg "comment" Subject m6) in *. clearbody m7.
  eexists. eexists. exists m7. split; [reflexivity|].
  cbn [metaData]. split; [reflexivity|]. split; [reflexivity|]. split; [lia|].
  now apply (loadMetaData_cached h conv _ m7).
Qed.

Lemma psf_loadFieldData_count_witness :
  exists n d1 sysname tag_fields,
    loadFieldData false u8string untagged_instance = (n, d1) /\
    fields d1 = ("System"%string, sysname) :: tag_fields /\
    n = Z.of_nat (length (fields d1)) /\ 1 <= n <= 12 /\
    loadFieldData false u8string d1 = (0, d1).
Proof.
  apply (psf_loadFieldData_count false u8string untagged_instance untagged_open_file);
    reflexivity.
Defined.

Lemma psf_loadMetaData_count_witness :
  exists n d1 m,
    loadMetaData false u8string tagged_instance = Ret (n, d1) /\
    metaData d1 = Some m /\
    n = Z.of_nat (length m) /\ 0 <= n <= 8 /\
    loadMetaData false u8string d1 = Ret (0, d1).
Proof.
  apply (psf_loadMetaData_count false u8string tagged_instance tagged_open_file);
    try reflexivity.
  intros H. apply (f_equal (fun m => m !! "title"%string)) in H.
  vm_compute in H. discriminate.
Defined.



(** *** The "utf8" tag *)
Lemma emplace_is_Some (kv : gmap string string) (k v k' : string) :
  is_Some (emplace kv k v !! k') <-> is_Some (kv !! k') \/ k = k'.
Proof.
  unfold emplace. destruct (kv !! k) as [v0|] eqn:E.
  - split; [auto|]. intros [H| <-]; [exact H | rewrite E; eauto].
  - destruct (decide (k = k')) as [<-|Hne].
    + rewrite lookup_insert_eq. split; [auto | eauto].
    + rewrite lookup_insert_ne by exact Hne. split; [auto|]. intros [H|H]; [exact H | contradiction].
Qed.

Lemma tag_line_utf8 (line : list ascii) (st : gmap string string * bool) :
  (st.2 = true <-> is_Some (st.1 !! "utf8"%string)) ->
  ((tag_line line st).2 = true <-> is_Some ((tag_line line st).1 !! "utf8"%string)).
Proof.
  destruct st as [kv u]. cbn [fst snd]. intros Hinv. unfold tag_line.
  destruct (memchr equals line) as [eq|]; [|exact Hinv].
  destruct (_ && _) eqn:Hlen; [|exact Hinv]. cbn [fst snd].
  apply andb_true_iff in Hlen. destruct Hlen as [_ Hv]. rewrite Hv, andb_true_r.
  rewrite emplace_is_Some, orb_true_iff, Hinv.
  destruct (bool_decide _) eqn:E.
  - apply bool_decide_eq_true in E. tauto.
  - apply bool_decide_eq_false in E. split; intros [H|H]; auto; discriminate.
Qed.

Lemma tag_loop_utf8 (n : nat) :
  forall (p : list ascii) (st : gmap string string * bool),
  (st.2 = true <-> is_Some (st.1 !! "utf8"%string)) ->
  ((tag_loop n p st).2 = true <-> is_Some ((tag_loop n p st).1 !! "utf8"%string)).
Proof.
  induction n as [|n IH]; intros p st Hinv; [exact Hinv|].
  cbn [tag_loop]. destruct p as [|x p]; [exact Hinv|].
  destruct (_ =? 0)%nat; apply IH; [exact Hinv|]. now apply tag_line_utf8.
Qed.

(** X19: the values of the tags are converted from the legacy encoding unless
    the tag block holds a "utf8" tag: one line that binds that key, in
    any case of its letters and anywhere in the block, leaves every value
    as it is in the file. *)
Theorem parseTags_utf8 (conv : list ascii -> string) (f : RpFile.t) (tag_addr : Z) :
  0 <= tag_addr ->
  tag_addr + Z.of_nat sizeof_tag_magic < RpFile.size f ->
  let tag_data :=
    drop (Z.to_nat (tag_addr + Z.of_nat sizeof_tag_magic)) (RpFile.data f) in
  let raw := (tag_loop (length tag_data) tag_data (∅, false)).1 in
  tags (parseTags conv f tag_addr) =
  if bool_decide (is_Some (raw !! "utf8"%string)) then raw
  else (fun v => conv (c_str v)) <$> raw.
Proof.
  intros H0 Hlt tag_data raw. subst raw.
  rewrite (parseTags_tags_loop conv f tag_addr H0 Hlt). cbv zeta. fold tag_data.
  pose proof (tag_loop_utf8 (length tag_data) tag_data (∅, false)) as Hinv.
  cbn [fst snd] in Hinv. rewrite lookup_empty in Hinv.
  assert (H : false = true <-> is_Some (@None string)).
  { split; [discriminate | intros [x Hx]; discriminate]. }
  specialize (Hinv H). clear H.
  destruct (tag_loop _ _ _) as [kv u]. cbn [fst snd] in *.
  destruct u; cbn [negb].
  - rewrite bool_decide_eq_true_2; [reflexivity | now apply Hinv].
  - rewrite bool_decide_eq_false_2; [reflexivity|]. intros Hs. apply Hinv in Hs. discriminate.
Qed.

Lemma parseTags_utf8_witness :
  tags (parseTags (fun _ => "converted"%string)
          (RpFile.open (sample_file "title=Intro")) (Z.of_nat sizeof_PSF_Header)) =
  {[ "title"%string := "converted"%string ]} /\
  tags (parseTags (fun _ => "converted"%string)
          (RpFile.open (sample_header ++ bytes_of "[TAG]" ++ bytes_of "title=Intro" ++
                        [newline] ++ bytes_of "UTF8=1"))
          (Z.of_nat sizeof_PSF_Header)) !! "title"%string = Some "Intro"%string.
Proof.
  split.
  - rewrite (parseTags_utf8 (fun _ => "converted"%string)
               (RpFile.open (sample_file "title=Intro")) (Z.of_nat sizeof_PSF_Header));
      [vm_compute; reflexivity | vm_compute; discriminate | vm_compute; reflexivity].
  - rewrite (parseTags_utf8 (fun _ => "converted"%string)
               (RpFile.open (sample_header ++ bytes_of "[TAG]" ++ bytes_of "title=Intro" ++
                             [newline] ++ bytes_of "UTF8=1"))
               (Z.of_nat sizeof_PSF_Header));
      [vm_compute; reflexivity | vm_compute; discriminate | vm_compute; reflexivity].
Defined.

End PSFTagFacts.

(** ** N64: construction and fields *)
Module N64FieldFacts.
Import Mem MemFacts SliceFacts RomData N64 N64Facts.

(** *** Which files the constructor accepts *)
Lemma magic64_test (h : bool) (p : list ascii) (magic : Z) :
  (8 <= length p)%nat ->
  (magic64 h p =? cpu_to_be h 8 magic) = true <-> slice p 0 8 = be_bytes 8 magic.
Proof.
  intros Hlen. rewrite Z.eqb_eq. unfold magic64, load, cpu_to_be. split.
  - apply BRSTMFacts.host_val_inj. rewrite length_slice by lia.
    unfold be_bytes. now rewrite length_rev, length_le_bytes.
  - now intros ->.
Qed.

Lemma magic_bytes_of_variant (v : variant) :
  encode v z64_magic_bytes =
  be_bytes 8 (match v with
              | Z64 => N64_Z64_MAGIC
              | V64 => N64_V64_MAGIC
              | SWAP2 => N64_SWAP2_MAGIC
              | LE32 => N64_LE32_MAGIC
              end).
Proof. destruct v; vm_compute; reflexivity. Qed.

Lemma detect_cases (h : bool) (hdr : list ascii) :
  length hdr = sizeof_N64_RomHeader ->
  let rt := isRomSupported_static h
              (Some {| hdr_addr := 0; hdr_size := Z.of_nat sizeof_N64_RomHeader;
                       hdr_pData := Some hdr; ext := None; szFile := 0 |}) in
  (exists v, slice hdr 0 8 = encode v z64_magic_bytes /\ rt = variant_id v) \/
  ((forall v, slice hdr 0 8 <> encode v z64_magic_bytes) /\ rt = ROM_TYPE_UNKNOWN).
Proof.
  intros Hlen rt. subst rt. unfold isRomSupported_static.
  cbn [hdr_addr hdr_size hdr_pData].
  change (negb (0 =? 0) || (Z.of_nat sizeof_N64_RomHeader <? Z.of_nat sizeof_N64_RomHeader))
    with false. cbv iota.
  assert (H8 : (8 <= length hdr)%nat) by (rewrite Hlen; cbv; lia).
  destruct (magic64 h hdr =? cpu_to_be h 8 N64_Z64_MAGIC) eqn:E1.
  { left. exists Z64. split; [|reflexivity].
    rewrite (magic_bytes_of_variant Z64). now apply (magic64_test h hdr). }
  destruct (magic64 h hdr =? cpu_to_be h 8 N64_V64_MAGIC) eqn:E2.
  { left. exists V64. split; [|reflexivity].
    rewrite (magic_bytes_of_variant V64). now apply (magic64_test h hdr). }
  destruct (magic64 h hdr =? cpu_to_be h 8 N64_SWAP2_MAGIC) eqn:E3.
  { left. exists SWAP2. split; [|reflexivity].
    rewrite (magic_bytes_of_variant SWAP2). now apply (magic64_test h hdr). }
  destruct (magic64 h hdr =? cpu_to_be h 8 N64_LE32_MAGIC) eqn:E4.
  { left. exists LE32. split; [|reflexivity].
    rewrite (magic_bytes_of_variant LE32). now apply (magic64_test h hdr). }
  right. split; [|reflexivity]. intros v Hv.
  rewrite magic_bytes_of_variant in Hv. apply (magic64_test h hdr _ H8) in Hv.
  destruct v; congruence.
Qed.

Lemma decode_some (h : bool) (v : variant) (hdr : list ascii) :
  exists hdr',
    (if variant_id v =? ROM_TYPE_Z64 then Some hdr
     else if variant_id v =? ROM_TYPE_V64 then Some (byte_swap_16_array h hdr)
     else if variant_id v =? ROM_TYPE_SWAP2 then Some (map_u32 h UNSWAP2 hdr)
     else if variant_id v =? ROM_TYPE_LE32 then Some (byte_swap_32_array h hdr)
     else None) = Some hdr'.
Proof. destruct v; cbn; eauto. Qed.

(** X25: the constructor accepts a file of at least 64 bytes whose first
    eight bytes are the magic of one of the four container variants, and
    records which; on any other file the instance is not valid, its file
    is released and its type is unknown.  It loads nothing. *)
Theorem N64_new_spec (h : bool) (f : RpFile.t) :
  let d := N64_new h (Some f) in
  let accepted (v : variant) :=
    (sizeof_N64_RomHeader <= length (RpFile.data f))%nat /\
    take 8 (RpFile.data f) = encode v z64_magic_bytes in
  fields d = [] /\ metaData d = None /\
  (forall v, accepted v ->
     isValid d = true /\ romType d = variant_id v /\
     exists f', file d = Some f' /\ RpFile.data f' = RpFile.data f) /\
  ((forall v, ~ accepted v) ->
     isValid d = false /\ romType d = ROM_TYPE_UNKNOWN /\ file d = None).
Proof.
  intros d accepted. subst d accepted. unfold N64_new.
  rewrite BRSTMFacts.read_header. lazy beta iota zeta. cbn [init romHeader].
  set (bytes := RpFile.data f).
  destruct (length (take sizeof_N64_RomHeader bytes) =? sizeof_N64_RomHeader)%nat eqn:El;
    cbn [negb]; cycle 1.
  { apply Nat.eqb_neq in El. rewrite length_take in El.
    cbn [fields metaData isValid file romType].
    split; [reflexivity|]. split; [reflexivity|]. split; [|auto].
    intros v [H _]. lia. }
  apply Nat.eqb_eq in El.
  assert (Hlen : (sizeof_N64_RomHeader <= length bytes)%nat)
    by (rewrite length_take in El; lia).
  rewrite blit_full by (rewrite length_replicate; exact El).
  assert (H8 : slice (take sizeof_N64_RomHeader bytes) 0 8 = take 8 bytes).
  { unfold slice. rewrite drop_0, take_take. reflexivity. }
  destruct (detect_cases h (take sizeof_N64_RomHeader bytes) El)
    as [(v & Hv & ->)|(Hnone & ->)].
  - destruct (decode_some h v (take sizeof_N64_RomHeader bytes)) as [hdr' ->].
    cbn [fields metaData isValid file romType].
    split; [reflexivity|]. split; [reflexivity|]. split.
    + intros v' [_ Hv']. split; [reflexivity|]. split; [|eauto].
      rewrite H8 in Hv. rewrite Hv in Hv'.
      destruct v, v'; try reflexivity; vm_compute in Hv'; discriminate.
    + intros Hno. exfalso. apply (Hno v). split; [exact Hlen|]. now rewrite <- H8.
  - cbn [fields metaData isValid file romType].
    split; [reflexivity|]. split; [reflexivity|]. split; [|auto].
    intros v [_ Hv]. exfalso. apply (Hnone v). now rewrite H8.
Qed.

(** *** The length of what [snprintf] writes *)
Lemma length_append (s t : string) :
  String.length (s +:+ t) = (String.length s + String.length t)%nat.
Proof.
  induction s as [|c s IH]; [reflexivity|].
  change (String.length (String c s +:+ t)) with (S (String.length (s +:+ t))).
  rewrite IH. reflexivity.
Qed.

Lemma length_zeros (n : nat) : String.length (Printf.zeros n) = n.
Proof. induction n as [|n IH]; cbn; [reflexivity | now rewrite IH]. Qed.

Lemma hex_go_length (fuel : nat) :
  forall (k : nat) (z : Z) (acc : string),
  0 <= z < 16 ^ Z.of_nat k -> (1 <= k <= fuel)%nat ->
  (String.length acc < String.length (Printf.hex_go fuel z acc) <=
   String.length acc + k)%nat.
Proof.
  induction fuel as [|fuel IH]; intros k z acc Hz Hk; [lia|].
  cbn [Printf.hex_go]. destruct (z / 16 =? 0) eqn:E.
  - cbn [String.length]. lia.
  - apply Z.eqb_neq in E.
    assert (Hk2 : (2 <= k)%nat).
    { destruct k as [|[|k]]; [lia| |lia]. change (16 ^ Z.of_nat 1) with 16 in Hz.
      exfalso. apply E. apply Z.div_small. lia. }
    assert (Hz' : 0 <= z / 16 < 16 ^ Z.of_nat (k - 1)).
    { split; [apply Z.div_pos; lia|]. apply Z.div_lt_upper_bound; [lia|].
      rewrite <- Z.pow_succ_r by lia. replace (Z.succ (Z.of_nat (k - 1))) with (Z.of_nat k) by lia.
      lia. }
    specialize (IH (k - 1)%nat (z / 16) (String (Printf.hex_digit (z mod 16)) acc) Hz'
                  ltac:(lia)).
    cbn [String.length] in IH. lia.
Qed.

Lemma length_fmt_08X (z : Z) : 0 <= z < 2 ^ 32 -> String.length (fmt_08X z) = 8%nat.
Proof.
  intros Hz. unfold fmt_08X, Printf.pad0.
  pose proof (hex_go_length 16 8 z EmptyString Hz ltac:(lia)) as H.
  cbn [String.length] in H. rewrite length_append, length_zeros. lia.
Qed.

Lemma snprintf_keep_short (size : nat) (s : string) :
  (String.length s < size)%nat -> Printf.snprintf_keep size s = s.
Proof.
  intros H. unfold Printf.snprintf_keep.
  destruct (size <=? String.length s)%nat eqn:E; [apply Nat.leb_le in E; lia|].
  reflexivity.
Qed.

Lemma length_fmt_u_byte (b : ascii) : (String.length (Printf.fmt_u (u8 b)) <= 3)%nat.
Proof.
  destruct b as [[] [] [] [] [] [] [] []]; vm_compute; lia.
Qed.

Lemma N64_new_loaded_nothing (h : bool) (f : option RpFile.t) :
  fields (N64_new h f) = [] /\ metaData (N64_new h f) = None.
Proof.
  destruct f as [f|]; [|split; reflexivity].
  unfold N64_new. rewrite BRSTMFacts.read_header. lazy beta iota zeta.
  repeat match goal with
         | |- context [if ?c then _ else _] => destruct c
         | |- context [match ?c with Some _ => _ | None => _ end] => destruct c
         end; split; reflexivity.
Qed.

(** *** The fields, from the canonical header *)
Section Params.
Variable h : bool.
Variable cp1252_sjis_to_utf8 : list ascii -> string.
Variable latin1_to_utf8 : list ascii -> string.
Variable ISPRINT : ascii -> bool.
Variable ISALPHA : ascii -> bool.
Variable string_numeric : Base -> nat -> Z -> string.
Variable string_hexdump : list ascii -> string.

Let load_fields :=
  loadFieldData h cp1252_sjis_to_utf8 latin1_to_utf8 ISPRINT ISALPHA
    string_numeric string_hexdump.
Let canonical_fields :=
  fields_of cp1252_sjis_to_utf8 latin1_to_utf8 ISPRINT ISALPHA
    string_numeric string_hexdump.

Lemma loadFieldData_finalized (d : N64Private) (canon : list ascii) (f : RpFile.t) :
  length canon = 64%nat -> isValid d = true -> 0 <= romType d ->
  file d = Some f -> fields d = [] -> romHeader d = finalize h canon ->
  exists d1,
    load_fields d = (6, d1) /\ fields d1 = canonical_fields canon /\
    load_fields d1 = (0, d1).
Proof.
  intros Hlen Hv Ht Hf Hfs Hh. subst load_fields canonical_fields.
  unfold loadFieldData at 1. rewrite Hfs, Hf, Hv, Hh.
  rewrite bool_decide_eq_true_2 by reflexivity. cbn [negb orb].
  destruct (romType d <? 0) eqn:E; [apply Z.ltb_lt in E; lia|].
  lazy zeta.
  destruct (finalize_fields h canon Hlen)
    as (_ & _ & Hep & Hos & Hc0 & Hc1 & Hti & Hid & Hrev).
  unfold os_version_at. rewrite Hep, Hos, Hc0, Hc1, Hti, Hid, Hrev.
  rewrite !nth_slice by lia. cbn [Nat.add].
  rewrite (slice_one canon 63) by lia.
  change (be_val [nth 63 canon zero]) with (u8 (nth 63 canon zero) + 256 * 0).
  rewrite Z.mul_0_r, Z.add_0_r.
  rewrite (snprintf_keep_short 32 ("0x" +:+ _)).
  2: { rewrite !length_append, !length_fmt_08X.
       - cbn. lia.
       - pose proof (be_val_range (slice canon 20 4)) as R.
         rewrite length_slice in R by lia. exact R.
       - pose proof (be_val_range (slice canon 16 4)) as R.
         rewrite length_slice in R by lia. exact R. }
  rewrite (snprintf_keep_short 32 ("OS " +:+ _)).
  2: { rewrite !length_append.
       pose proof (length_fmt_u_byte (nth 14 canon zero)). cbn [String.length]. lia. }
  unfold addField_string, fields_of. cbv zeta.
  destruct (_ && _); cbn [app length];
    (eexists; split; [reflexivity|]; cbn [fields]; split; [reflexivity|];
     unfold loadFieldData; cbn [fields];
     rewrite bool_decide_eq_false_2 by discriminate; reflexivity).
Qed.

End Params.



End N64FieldFacts.

(** ** BRSTM: the fields of a valid file *)
Module BRSTMFieldFacts.
Import Mem MemFacts SliceFacts RomData BRSTM BRSTMFacts.

(** What a valid instance holds: the constructor has passed every check
    and has stored the header and the first part of the HEAD chunk as
    they are in the file. *)
Lemma BRSTM_new_valid (h : bool) (f : RpFile.t) :
  let d := BRSTM_new h (Some f) in
  let bytes := RpFile.data f in
  isValid d = true ->
  length (header_of bytes) = sizeof_BRSTM_Header /\
  isRomSupported_static h (info_of (header_of bytes)) = 0 /\
  length (head_header_of h bytes) = sizeof_BRSTM_HEAD_Header /\
  length (chunk1_of h bytes) = sizeof_BRSTM_HEAD_Chunk1 /\
  brstmHeader d = header_of bytes /\ headChunk1 d = chunk1_of h bytes /\
  needsByteswap d = (h_bom h (header_of bytes) =? BRSTM_BOM_SWAP) /\
  fields d = [] /\ metaData d = None /\ exists f', file d = Some f'.
Proof.
  intros d bytes. subst d. unfold BRSTM_new. rewrite read_header.
  lazy beta iota zeta.
  fold (header_of (RpFile.data f)). fold bytes.
  cbn [brstmHeader headChunk1 init needsByteswap].
  unfold brstm32_to_cpu. cbn [needsByteswap].
  destruct (length (header_of bytes) =? sizeof_BRSTM_Header)%nat eqn:Hlen; cbn [negb];
    [|cbn; discriminate].
  apply Nat.eqb_eq in Hlen.
  rewrite blit_full by (rewrite length_replicate; exact Hlen).
  fold (info_of (header_of bytes)).
  destruct (0 <=? isRomSupported_static h (info_of (header_of bytes))) eqn:Hdet; cbn [negb];
    [|cbn; discriminate].
  apply Z.leb_le in Hdet.
  change (if h_bom h (header_of bytes) =? BRSTM_BOM_SWAP
          then swab 4 (h_head_offset h (header_of bytes))
          else h_head_offset h (header_of bytes)) with (head_offset_of h bytes).
  change (if h_bom h (header_of bytes) =? BRSTM_BOM_SWAP
          then swab 4 (h_head_size h (header_of bytes))
          else h_head_size h (header_of bytes)) with (head_size_of h bytes).
  destruct ((head_offset_of h bytes =? 0) ||
            (head_size_of h bytes <? Z.of_nat sizeof_BRSTM_HEAD_Header)) eqn:Hb;
    [cbn; discriminate|].
  rewrite seekAndRead_slice by (apply norm32_nonneg).
  lazy beta iota zeta. cbn [RpFile.data].
  fold (head_header_of h bytes).
  destruct (length (head_header_of h bytes) =? sizeof_BRSTM_HEAD_Header)%nat eqn:Hhl;
    cbn [negb]; [|cbn; discriminate].
  apply Nat.eqb_eq in Hhl.
  destruct (hh_magic h (head_header_of h bytes) =? cpu_to_be h 4 BRSTM_HEAD_MAGIC) eqn:Hhm;
    cbn [negb]; [|cbn; discriminate].
  change (if h_bom h (header_of bytes) =? BRSTM_BOM_SWAP
          then swab 4 (hh_head1_offset h (head_header_of h bytes))
          else hh_head1_offset h (head_header_of h bytes))
    with (head1_offset_of h bytes).
  destruct (head1_offset_of h bytes <? Z.of_nat sizeof_BRSTM_HEAD_Header - 8) eqn:Hh1;
    [cbn; discriminate|].
  rewrite seekAndRead_slice by (unfold CInt.to_uint32; apply Z.mod_pos_bound; lia).
  lazy beta iota zeta. cbn [RpFile.data].
  fold (chunk1_of h bytes).
  destruct (length (chunk1_of h bytes) =? sizeof_BRSTM_HEAD_Chunk1)%nat eqn:Hcl;
    cbn [negb]; [|cbn; discriminate].
  apply Nat.eqb_eq in Hcl.
  cbn [fields metaData isValid file brstmHeader headChunk1 needsByteswap].
  intros _.
  rewrite blit_full by (rewrite length_replicate; exact Hcl).
  assert (Hd0 : isRomSupported_static h (info_of (header_of bytes)) = 0).
  { destruct (isRomSupported_static_cases h (info_of (header_of bytes))) as [[E _]|[E _]].
    - intros i p Hi Hp. unfold info_of in Hi. injection Hi as <-.
      cbn [hdr_pData hdr_size] in *. injection Hp as <-. now rewrite Hlen.
    - exact E.
    - lia. }
  repeat split; auto. eauto.
Qed.

(** The header of a file that the detector accepts announces one of the
    two byte orders. *)
Lemma detect_bom (h : bool) (hdr : list ascii) :
  length hdr = sizeof_BRSTM_Header ->
  isRomSupported_static h (info_of hdr) = 0 ->
  slice hdr 4 2 = bom_big_endian \/ slice hdr 4 2 = bom_little_endian.
Proof.
  intros Hlen Hd.
  destruct (isRomSupported_static_cases h (info_of hdr)) as [[_ Hs]|[E _]].
  - intros i p Hi Hp. unfold info_of in Hi. injection Hi as <-.
    cbn [hdr_pData hdr_size] in *. injection Hp as <-. now rewrite Hlen.
  - destruct Hs as (i & p & Hi & Hp & _ & _ & _ & Hbom & _).
    unfold info_of in Hi. injection Hi as <-. cbn [hdr_pData] in Hp.
    injection Hp as <-. exact Hbom.
  - rewrite E in Hd. discriminate.
Qed.

(** A field that is swapped when the byte-order mark reads as swapped on
    the host has the value that its bytes have in the byte order of the
    stream, on either host. *)
Lemma norm_stream (h : bool) (hdr s : list ascii) :
  (6 <= length hdr)%nat ->
  slice hdr 4 2 = bom_big_endian \/ slice hdr 4 2 = bom_little_endian ->
  (if h_bom h hdr =? BRSTM_BOM_SWAP then swab (length s) (host_val h s) else host_val h s)
  = stream_val hdr s.
Proof.
  intros Hlen Hbom.
  unfold stream_val. destruct (h_bom h hdr =? BRSTM_BOM_SWAP) eqn:E;
    destruct (bom_test h hdr Hlen) as [_ Hswap].
  - apply Hswap in E. rewrite swab_host_val. destruct h; cbn [negb host_val] in *.
    + rewrite E. rewrite bool_decide_eq_false_2; [reflexivity|].
      intros H. symmetry in H. now apply bom_values_differ.
    + rewrite E. now rewrite bool_decide_eq_true_2.
  - assert (Hn : slice hdr 4 2 <> if h then bom_little_endian else bom_big_endian).
    { intros H. apply Hswap in H. congruence. }
    destruct h; cbn [host_val] in *.
    + destruct Hbom as [Hb|Hb]; [|contradiction].
      now rewrite bool_decide_eq_true_2.
    + destruct Hbom as [Hb|Hb]; [contradiction|].
      rewrite Hb. rewrite bool_decide_eq_false_2; [reflexivity|].
      intros H. symmetry in H. now apply bom_values_differ.
Qed.

Lemma norm_stream_load (h : bool) (hdr buf : list ascii) (off n : nat) :
  (6 <= length hdr)%nat ->
  slice hdr 4 2 = bom_big_endian \/ slice hdr 4 2 = bom_little_endian ->
  (off + n <= length buf)%nat ->
  (if h_bom h hdr =? BRSTM_BOM_SWAP then swab n (load h buf off n) else load h buf off n)
  = stream_val hdr (slice buf off n).
Proof.
  intros Hlen Hbom Hb. unfold load.
  rewrite <- (norm_stream h hdr (slice buf off n) Hlen Hbom).
  now rewrite length_slice by exact Hb.
Qed.

(** The offsets and sizes that the parser follows are those of the
    stream, on either host. *)
Lemma stream_offsets (h : bool) (bytes : list ascii) :
  length (header_of bytes) = sizeof_BRSTM_Header ->
  isRomSupported_static h (info_of (header_of bytes)) = 0 ->
  let hdr := header_of bytes in
  let head_offset := stream_val hdr (slice hdr 16 4) in
  let head_header := slice bytes (Z.to_nat head_offset) sizeof_BRSTM_HEAD_Header in
  head_offset_of h bytes = head_offset /\
  head_size_of h bytes = stream_val hdr (slice hdr 20 4) /\
  head_header_of h bytes = head_header /\
  (length head_header = sizeof_BRSTM_HEAD_Header ->
   head1_offset_of h bytes = stream_val hdr (slice head_header 12 4) /\
   chunk1_of h bytes = stream_chunk1 bytes).
Proof.
  intros Hlen Hd hdr. subst hdr.
  set (head_offset := stream_val (header_of bytes) (slice (header_of bytes) 16 4)).
  intros head_header. subst head_header.
  set (head_header := slice bytes (Z.to_nat head_offset) sizeof_BRSTM_HEAD_Header).
  pose proof (detect_bom h (header_of bytes) Hlen Hd) as Hbom.
  assert (H6 : (6 <= length (header_of bytes))%nat) by (rewrite Hlen; cbv; lia).
  assert (Ho : head_offset_of h bytes = head_offset).
  { unfold head_offset_of, norm32, h_head_offset.
    apply norm_stream_load; [exact H6 | exact Hbom | rewrite Hlen; cbv; lia]. }
  assert (Hs : head_size_of h bytes =
               stream_val (header_of bytes) (slice (header_of bytes) 20 4)).
  { unfold head_size_of, norm32, h_head_size.
    apply norm_stream_load; [exact H6 | exact Hbom | rewrite Hlen; cbv; lia]. }
  assert (Hhh : head_header_of h bytes = head_header).
  { unfold head_header_of. now rewrite Ho. }
  split; [exact Ho|]. split; [exact Hs|]. split; [exact Hhh|].
  intros Hhl.
  assert (H1 : head1_offset_of h bytes =
               stream_val (header_of bytes) (slice head_header 12 4)).
  { unfold head1_offset_of, norm32, hh_head1_offset. rewrite Hhh.
    apply norm_stream_load; [exact H6 | exact Hbom | rewrite Hhl; cbv; lia]. }
  split; [exact H1|].
  unfold chunk1_of, stream_chunk1. rewrite H1, Ho. reflexivity.
Qed.

Lemma chunk1_stream (h : bool) (bytes : list ascii) :
  length (header_of bytes) = sizeof_BRSTM_Header ->
  isRomSupported_static h (info_of (header_of bytes)) = 0 ->
  length (head_header_of h bytes) = sizeof_BRSTM_HEAD_Header ->
  chunk1_of h bytes = stream_chunk1 bytes.
Proof.
  intros Hlen Hd Hhl.
  destruct (stream_offsets h bytes Hlen Hd) as (_ & _ & Hhh & H).
  rewrite Hhh in Hhl. now apply H.
Qed.

Lemma endianness_test (h : bool) (hdr : list ascii) :
  (6 <= length hdr)%nat ->
  (h_bom h hdr =? cpu_to_be h 2 BRSTM_BOM_HOST) =
  bool_decide (slice hdr 4 2 = bom_big_endian).
Proof.
  intros Hlen. unfold h_bom, load, cpu_to_be.
  destruct (bool_decide (slice hdr 4 2 = bom_big_endian)) eqn:E.
  - apply bool_decide_eq_true in E. rewrite E. apply Z.eqb_refl.
  - apply bool_decide_eq_false in E. apply Z.eqb_neq. intros H. apply E.
    apply (host_val_inj h) in H; [exact H|].
    rewrite length_slice by lia. reflexivity.
Qed.

Lemma loadFieldData_fields (h : bool) (f : RpFile.t) :
  isValid (BRSTM_new h (Some f)) = true ->
  exists d1,
    loadFieldData h (BRSTM_new h (Some f)) =
      (Z.of_nat (length (fields_of (RpFile.data f))), d1) /\
    fields d1 = fields_of (RpFile.data f) /\
    (7 <= length (fields d1) <= 8)%nat.
Proof.
  intros Hv.
  destruct (BRSTM_new_valid h f Hv)
    as (Hlen & Hd & Hhl & Hcl & Hhdr & Hc1 & Hsw & Hfs & _ & f' & Hf).
  set (d := BRSTM_new h (Some f)) in *. set (bytes := RpFile.data f) in *.
  pose proof (detect_bom h (header_of bytes) Hlen Hd) as Hbom.
  assert (H6 : (6 <= length (header_of bytes))%nat) by (rewrite Hlen; cbv; lia).
  unfold loadFieldData. rewrite Hfs, Hf, Hv.
  rewrite bool_decide_eq_true_2 by reflexivity. cbn [negb]. lazy zeta.
  unfold brstm16_to_cpu, brstm32_to_cpu. rewrite Hhdr, Hc1, Hsw.
  rewrite (chunk1_stream h bytes Hlen Hd Hhl) in *.
  unfold h_version_major, h_version_minor, c1_codec, c1_channel_count, c1_loop_flag,
    c1_sample_rate, c1_sample_count, c1_loop_start.
  rewrite !load_byte by (rewrite ?Hlen, ?Hcl; cbv; lia).
  rewrite !(norm_stream_load h (header_of bytes) (stream_chunk1 bytes))
    by (first [exact H6 | exact Hbom | rewrite Hcl; cbv; lia]).
  rewrite (endianness_test h (header_of bytes) H6).
  unfold addField_string, addField_string_numeric, fields_of. cbv zeta.
  fold (header_of bytes). cbn [app].
  destruct (negb (u8 (nth 1 (stream_chunk1 bytes) zero) =? 0));
    (eexists; split; [reflexivity|]; cbn [fields app length];
     split; [reflexivity | lia]).
Qed.

(** X27: the fields of a valid instance are those that the bytes of the file
    give when every integer is read in the byte order that the file
    announces: seven of them, and the start of the loop when the stream
    loops.  The byte order of the host plays no part. *)
Theorem loadFieldData_stream (h : bool) (f : RpFile.t) :
  isValid (BRSTM_new h (Some f)) = true ->
  exists d1,
    loadFieldData h (BRSTM_new h (Some f)) =
      (Z.of_nat (length (fields_of (RpFile.data f))), d1) /\
    fields d1 = fields_of (RpFile.data f) /\
    (7 <= length (fields d1) <= 8)%nat.
Proof. exact (loadFieldData_fields h f). Qed.

Lemma loadFieldData_stream_witness :
  exists d1,
    loadFieldData false sample_instance =
      (Z.of_nat (length (fields_of (sample_file 0xAC 0x44 1))), d1) /\
    fields d1 = fields_of (sample_file 0xAC 0x44 1) /\
    (7 <= length (fields d1) <= 8)%nat.
Proof.
  apply (loadFieldData_stream false (RpFile.open (sample_file 0xAC 0x44 1))).
  vm_compute. reflexivity.
Defined.

(** *** The byte order of the host *)
Lemma wf_info_of (hdr : list ascii) :
  length hdr = sizeof_BRSTM_Header -> wf_info (info_of hdr).
Proof.
  intros Hlen i p Hi Hp. unfold info_of in Hi. injection Hi as <-.
  cbn [hdr_pData hdr_size] in *. injection Hp as <-. now rewrite Hlen.
Qed.

Lemma detect_zero (h : bool) (hdr : list ascii) :
  length hdr = sizeof_BRSTM_Header ->
  isRomSupported_static h (info_of hdr) = 0 \/ isRomSupported_static h (info_of hdr) = -1.
Proof.
  intros Hlen.
  destruct (isRomSupported_static_cases h (info_of hdr) (wf_info_of hdr Hlen))
    as [[E _]|[E _]]; auto.
Qed.

Lemma detect_host (h h' : bool) (hdr : list ascii) :
  length hdr = sizeof_BRSTM_Header ->
  isRomSupported_static h (info_of hdr) = isRomSupported_static h' (info_of hdr).
Proof.
  intros Hlen.
  destruct (isRomSupported_static_cases h (info_of hdr) (wf_info_of hdr Hlen))
    as [[-> Hs]|[-> Hs]];
    destruct (isRomSupported_static_cases h' (info_of hdr) (wf_info_of hdr Hlen))
      as [[-> Hs']|[-> Hs']]; tauto.
Qed.

(** A file that fails a check on one host fails one on the other. *)
Lemma parse_failure_host (h h' : bool) (bytes : list ascii) :
  parse_failure h' bytes -> parse_failure h bytes.
Proof.
  intros Hfail.
  destruct (le_lt_dec sizeof_BRSTM_Header (length bytes)) as [Hge|Hlt];
    [|now apply short_primary_header].
  assert (Hlen : length (header_of bytes) = sizeof_BRSTM_Header).
  { unfold header_of. rewrite length_take. lia. }
  destruct (detect_zero h (header_of bytes) Hlen) as [Hd|Hd];
    [|apply detection_failed; lia].
  assert (Hd' : isRomSupported_static h' (info_of (header_of bytes)) = 0)
    by (rewrite <- Hd; apply detect_host; exact Hlen).
  destruct (stream_offsets h bytes Hlen Hd) as (Ho & Hs & Hhh & H1).
  destruct (stream_offsets h' bytes Hlen Hd') as (Ho' & Hs' & Hhh' & H1').
  cbv zeta in *.
  destruct (le_lt_dec sizeof_BRSTM_HEAD_Header (length (head_header_of h bytes)))
    as [Hhl|Hhl]; [|now apply head_read_failed].
  assert (Hhl2 : length (head_header_of h bytes) = sizeof_BRSTM_HEAD_Header).
  { apply Nat.le_antisymm; [|exact Hhl].
    unfold head_header_of, slice. rewrite length_take. lia. }
  rewrite Hhh in Hhl2. destruct (H1 Hhl2) as [Hh1 Hc]. destruct (H1' Hhl2) as [Hh1' Hc'].
  destruct Hfail as [H|H|H|H|H|H|H].
  - lia.
  - lia.
  - apply head_bounds_failed. rewrite Ho, Hs. now rewrite Ho', Hs' in H.
  - apply head_read_failed. rewrite Hhh. now rewrite Hhh' in H.
  - apply head_magic_mismatch. rewrite Hhh. now rewrite Hhh' in H.
  - apply head1_bounds_failed. rewrite Hh1. now rewrite Hh1' in H.
  - apply chunk1_read_failed. rewrite Hc. now rewrite Hc' in H.
Qed.

Lemma isValid_host (h h' : bool) (f : RpFile.t) :
  isValid (BRSTM_new h (Some f)) = isValid (BRSTM_new h' (Some f)).
Proof.
  destruct (BRSTM_new_cases h f) as (_ & _ & [(Hf & -> & _)|(Hok & -> & _)]);
    destruct (BRSTM_new_cases h' f) as (_ & _ & [(Hf' & -> & _)|(Hok' & -> & _)]);
    try reflexivity; exfalso.
  - apply Hok'. now apply (parse_failure_host h' h).
  - apply Hok. now apply (parse_failure_host h h').
Qed.

(** X28: a file is a valid BRSTM on a big-endian host exactly when it is one
    on a little-endian host, and [loadFieldData] then returns the same
    number and the same fields on both; on a file that is not valid it
    returns the same error on both. *)
Theorem brstm_host_independent (f : RpFile.t) :
  let dB := BRSTM_new true (Some f) in
  let dL := BRSTM_new false (Some f) in
  isValid dB = isValid dL /\
  (loadFieldData true dB).1 = (loadFieldData false dL).1 /\
  fields (loadFieldData true dB).2 = fields (loadFieldData false dL).2.
Proof.
  intros dB dL. subst dB dL. split; [apply isValid_host|].
  destruct (isValid (BRSTM_new true (Some f))) eqn:HB.
  - assert (HL : isValid (BRSTM_new false (Some f)) = true)
      by (rewrite <- HB; apply isValid_host).
    destruct (loadFieldData_fields true f HB) as (d1 & -> & E1 & _).
    destruct (loadFieldData_fields false f HL) as (d2 & -> & E2 & _).
    cbn [fst snd]. split; [reflexivity | congruence].
  - assert (HL : isValid (BRSTM_new false (Some f)) = false)
      by (rewrite <- HB; apply isValid_host).
    destruct (BRSTM_new_cases true f) as (Hf1 & _ & [(_ & _ & Hn1)|(_ & Hv & _)]);
      [|congruence].
    destruct (BRSTM_new_cases false f) as (Hf2 & _ & [(_ & _ & Hn2)|(_ & Hv & _)]);
      [|congruence].
    unfold loadFieldData. rewrite Hf1, Hf2, Hn1, Hn2.
    rewrite !bool_decide_eq_true_2 by reflexivity. cbn [negb fst snd].
    split; [reflexivity | congruence].
Qed.

(** *** Metadata *)



End BRSTMFieldFacts.
